(** * Pipeline-to-task-graph compiler of [rasa.architecture_prototype.config_to_graph]

    A shallow embedding of the three step builders, the NLU pipeline compiler,
    the Core/policy compiler and the top-level merge, together with the
    properties of the compiled schemas.

    Python dictionaries are finite maps ([gmap]); [d.update(o)] and
    [{**d, **o}] are the union in which [o] wins.  A raised exception
    ([KeyError], a failing registry lookup) is [None]. *)

From Stdlib Require Import Ascii String DecimalString DecimalNat.
From stdpp Require Import gmap strings list fin_maps option.

#[local] Set Warnings "-clear-no-such-hyp".

Local Open Scope string_scope.
Local Open Scope list_scope.

(** ** Text: f-strings and decimal indices *)

(** [f"{i}"] for a loop index [i] of [enumerate]. *)
Definition str (i : nat) : string := NilEmpty.string_of_uint (Nat.to_uint i).

(** Truthiness of an [Optional[Text]] argument: [None] and [""] are falsy. *)
Definition truthy (o : option string) : bool :=
  match o with
  | Some (String _ _) => true
  | _ => false
  end.

(** Whether an underscore occurs in a text. *)
Fixpoint has_underscore (s : string) : bool :=
  match s with
  | EmptyString => false
  | String c s' => if decide (c = "_"%char) then true else has_underscore s'
  end.

(** ** Data model *)

(** Scalar hyper-parameter values of a pipeline or policy entry. *)
Inductive pyvalue : Type :=
  | PStr (s : string)
  | PInt (z : Z)
  | PBool (b : bool)
  | PNone.

(** One user-authored config item, [{name: <component-name>, ...}]. *)
Abbreviation entry := (gmap string pyvalue).

(** The config mapping: [config["pipeline"]] and [config["policies"]];
    [None] is an absent key. *)
Record Config : Type := {
  cfg_pipeline : option (list entry);
  cfg_policies : option (list entry);
}.

(** The component classes the module imports (the keys of [meta]); any other
    class the registry may return is [OtherComponent]. *)
Inductive component_class : Type :=
  | WhitespaceTokenizer
  | RegexFeaturizer
  | LexicalSyntacticFeaturizer
  | CountVectorsFeaturizer
  | DIETClassifier
  | ResponseSelector
  | EntitySynonymMapper
  | OtherComponent (cls : string).

(** A policy class: its name and the parameter names of its [train] method,
    which is all that [inspect.signature(policy_class.train).parameters]
    exposes to the compiler. *)
Record policy_class : Type := {
  policy_class_name : string;
  train_parameters : list string;
}.

(** What a task [uses]. *)
Inductive implementation : Type :=
  | Component (c : component_class)
  | Policy (p : policy_class)
  | TrainingDataReader
  | DomainReader
  | StoryGraphReader
  | TrackerGenerator
  | StoryToTrainingDataConverter
  | MessageToE2EFeatureConverter.

(** The [name] attribute of a class. *)
Definition component_class_name (c : component_class) : string :=
  match c with
  | WhitespaceTokenizer => "WhitespaceTokenizer"
  | RegexFeaturizer => "RegexFeaturizer"
  | LexicalSyntacticFeaturizer => "LexicalSyntacticFeaturizer"
  | CountVectorsFeaturizer => "CountVectorsFeaturizer"
  | DIETClassifier => "DIETClassifier"
  | ResponseSelector => "ResponseSelector"
  | EntitySynonymMapper => "EntitySynonymMapper"
  | OtherComponent cls => cls
  end.

Definition class_name (u : implementation) : string :=
  match u with
  | Component c => component_class_name c
  | Policy p => policy_class_name p
  | TrainingDataReader => "TrainingDataReader"
  | DomainReader => "DomainReader"
  | StoryGraphReader => "StoryGraphReader"
  | TrackerGenerator => "TrackerGenerator"
  | StoryToTrainingDataConverter => "StoryToTrainingDataConverter"
  | MessageToE2EFeatureConverter => "MessageToE2EFeatureConverter"
  end.

(** A value of a task's [config] mapping: a scalar, or a nested entry (the
    value under ["component_config"]). *)
Inductive cfgvalue : Type :=
  | CVal (v : pyvalue)
  | CDict (d : entry).

(** One compiled task.  [persist = None] is a task dict without the
    ["persist"] key. *)
Record TaskSpec : Type := {
  uses : implementation;
  fn : string;
  config : gmap string cfgvalue;
  needs : gmap string string;
  persist : option bool;
}.

Abbreviation Schema := (gmap string TaskSpec).

Inductive step_type : Type := process | train | train_process.

(** [d.update(other)], also [{**d, **other}]: keys of [other] win. *)
Definition update {V} (d other : gmap string V) : gmap string V := other ∪ d.

(** [name if name else component_class.name] *)
Definition name_or_class (name : option string) (component_class : implementation)
  : string :=
  match name with
  | Some n => if truthy name then n else class_name component_class
  | None => class_name component_class
  end.

(** [config if config else {}]: an empty mapping is falsy. *)
Definition config_or_empty (config : option (gmap string cfgvalue))
  : gmap string cfgvalue :=
  match config with
  | Some c => if decide (c = ∅) then ∅ else c
  | None => ∅
  end.

(** ** Step builders *)

Definition train_and_process_component
    (component_class : implementation) (input_task_name : string)
    (config : option (gmap string cfgvalue)) (name : option string)
    (train_function process_function input_data_param_name : string)
  : Schema * string :=
  let name := name_or_class name component_class in
  let train_task_name := "train_" +:+ name in
  let process_task_name := "process_" +:+ name in
  let config := config_or_empty config in
  (<[process_task_name :=
       {| uses := component_class; fn := process_function; config := config;
          needs := <[input_data_param_name := input_task_name]>
                     {["resource_name" := train_task_name]};
          persist := None |}]>
   {[train_task_name :=
       {| uses := component_class; fn := train_function; config := config;
          needs := {[input_data_param_name := input_task_name]};
          persist := None |}]},
   process_task_name).

Definition train_component
    (component_class : implementation) (input_task_name : string)
    (config : option (gmap string cfgvalue)) (name : option string)
    (train_function input_data_param_name : string)
  : Schema * string :=
  let name := name_or_class name component_class in
  let train_task_name := "train_" +:+ name in
  let config := config_or_empty config in
  ({[train_task_name :=
       {| uses := component_class; fn := train_function; config := config;
          needs := {[input_data_param_name := input_task_name]};
          persist := None |}]},
   input_task_name).

Definition process_component
    (component_class : implementation) (input_task_name : string)
    (config : option (gmap string cfgvalue)) (name : option string)
    (process_function input_data_param_name : string)
  : Schema * string :=
  let name := name_or_class name component_class in
  let process_task_name := "process_" +:+ name in
  let config := config_or_empty config in
  ({[process_task_name :=
       {| uses := component_class; fn := process_function; config := config;
          needs := {[input_data_param_name := input_task_name]};
          persist := Some false |}]},
   process_task_name).

(** ** The defaulting pass *)

(** Modelled from the spec: the defaults of one task-spec.  [persist] is the
    one optional field of a task-spec, and it defaults to true. *)
Definition fill_task (t : TaskSpec) : TaskSpec :=
  {| uses := uses t; fn := fn t; config := config t; needs := needs t;
     persist := Some (default true (persist t)) |}.

(** Modelled from the spec: [graph.fill_defaults], of the module
    [rasa.architecture_prototype.graph], is not among the sources.  The spec
    has it fill the missing optional fields of every task-spec of the schema
    with fixed defaults. *)
Definition fill_defaults (graph_schema : Schema) : Schema :=
  fill_task <$> graph_schema.

(** ** The compilers *)

(** [meta]: the static step kind of each component class; a class that is
    not a key raises [KeyError]. *)
Definition meta (c : component_class) : option step_type :=
  match c with
  | WhitespaceTokenizer => Some process
  | RegexFeaturizer => Some train_process
  | LexicalSyntacticFeaturizer => Some train_process
  | CountVectorsFeaturizer => Some train_process
  | DIETClassifier => Some train
  | ResponseSelector => Some train
  | EntitySynonymMapper => Some train
  | OtherComponent _ => None
  end.

(** [entry.pop("name")]: the name and the entry without it; [KeyError] when
    the key is absent.  The registries are keyed by text, so a name that is
    not a string fails there. *)
Definition pop_name (e : entry) : option (string * entry) :=
  match e !! "name" with
  | Some (PStr n) => Some (n, delete "name" e)
  | _ => None
  end.

(** The dispatch table [{"process": ..., "train": ..., "train_process": ...}],
    with the builders' default function and parameter names. *)
Definition builder (s : step_type)
    (component_class : implementation) (input_task_name : string)
    (name : option string) (config : option (gmap string cfgvalue))
  : Schema * string :=
  match s with
  | process =>
      process_component component_class input_task_name config name
        "process_training_data" "training_data"
  | train =>
      train_component component_class input_task_name config name
        "train" "training_data"
  | train_process =>
      train_and_process_component component_class input_task_name config name
        "train" "process_training_data" "training_data"
  end.

(** [f"{component_name}_{i}"], prefixed with [f"{component_namespace}_"]
    when a namespace is given. *)
Definition unique_name (component_namespace : option string)
    (component_name : string) (i : nat) : string :=
  let unique_component_name := component_name +:+ "_" +:+ str i in
  match component_namespace with
  | Some ns =>
      if truthy component_namespace
      then ns +:+ "_" +:+ unique_component_name
      else unique_component_name
  | None => unique_component_name
  end.

Definition load_data_task (project : string) : TaskSpec :=
  {| uses := TrainingDataReader; fn := "read";
     config := {["project" := CVal (PStr project)]};
     needs := ∅; persist := Some false |}.

(** Whether a text consists of decimal digits, as [f"{i}"] does. *)
Definition is_digit (c : ascii) : bool :=
  bool_decide (c ∈ ["0"; "1"; "2"; "3"; "4"; "5"; "6"; "7"; "8"; "9"]%char).

Fixpoint all_digits (s : string) : bool :=
  match s with
  | EmptyString => true
  | String c s' => is_digit c && all_digits s'
  end.

(** ** Names of the compiled tasks *)

(** The namespace prefix of [unique_name]. *)
Definition ns_prefix (component_namespace : option string) : string :=
  match component_namespace with
  | Some ns => if truthy component_namespace then ns +:+ "_" else ""
  | None => ""
  end.

(** The task names a pipeline entry of kind [s] and unique name [u]
    contributes; with [only_process] a pure train entry contributes none. *)
Definition step_keys (only_process : bool) (s : step_type) (u : string)
  : list string :=
  match s with
  | process => ["process_" +:+ u]
  | train => if only_process then [] else ["train_" +:+ u]
  | train_process => ["train_" +:+ u; "process_" +:+ u]
  end.

(** Every [needs] value of the schema is a key of it, or one of [ext]. *)
Definition closed_upto (ext : gset string) (g : Schema) : Prop :=
  ∀ k t p v, g !! k = Some t → needs t !! p = Some v → v ∈ dom g ∨ v ∈ ext.

(** Referential closure. *)
Definition closed (g : Schema) : Prop :=
  ∀ k t p v, g !! k = Some t → needs t !! p = Some v → v ∈ dom g.

(** [(nlu_train_graph, last_component_out)] before the loop: the caller's
    [input_task] and an empty graph, or else a [load_data] task. *)
Definition nlu_initial (project : string) (input_task : option string)
  : Schema * string :=
  match input_task with
  | Some t =>
      if truthy input_task then (∅, t)
      else ({["load_data" := load_data_task project]}, "load_data")
  | None => ({["load_data" := load_data_task project]}, "load_data")
  end.

Section Compilers.

(** The two registries are external collaborators: a lookup either
    resolves a name to a class or fails. *)
Variable get_component_class : string → option component_class.
Variable policy_from_module_path : string → option policy_class.

(** One iteration of the loop over [enumerate(nlu_pipeline)], after the
    name has been popped off [component]. *)
Definition nlu_body (component_namespace : option string)
    (only_process : bool) (i : nat) (component_name : string)
    (component : entry) (st : Schema * string)
  : option (Schema * string) :=
  let '(nlu_train_graph, last_component_out) := st in
  let unique_component_name :=
    unique_name component_namespace component_name i in
  component_class ← get_component_class component_name;
  step_type ← meta component_class;
  match step_type, only_process with
  | train, true => Some (nlu_train_graph, last_component_out)
  | _, _ =>
      let config : gmap string cfgvalue :=
        {["component_config" := CDict component]} in
      let '(component_def, last_component_out) :=
        builder step_type (Component component_class) last_component_out
          (Some unique_component_name) (Some config) in
      Some (update nlu_train_graph component_def, last_component_out)
  end.

(** One iteration: [component.pop("name")], then the rest. *)
Definition nlu_step (component_namespace : option string)
    (only_process : bool) (i : nat) (component : entry)
    (st : Schema * string) : option (Schema * string) :=
  '(component_name, component) ← pop_name component;
  nlu_body component_namespace only_process i component_name component st.

(** [for i, component in enumerate(nlu_pipeline)], from index [i] on. *)
Fixpoint nlu_loop (component_namespace : option string)
    (only_process : bool) (i : nat) (nlu_pipeline : list entry)
    (st : Schema * string) : option (Schema * string) :=
  match nlu_pipeline with
  | [] => Some st
  | component :: rest =>
      st ← nlu_step component_namespace only_process i component st;
      nlu_loop component_namespace only_process (S i) rest st
  end.

Definition nlu_config_to_train_graph_schema
    (project : string) (config : Config)
    (component_namespace input_task : option string) (only_process : bool)
  : option (Schema * string) :=
  nlu_pipeline ← cfg_pipeline config;
  '(nlu_train_graph, last_component_out) ←
    nlu_loop component_namespace only_process 0 nlu_pipeline
      (nlu_initial project input_task);
  Some (fill_defaults nlu_train_graph, last_component_out).

(** The three fixed tasks the Core graph starts from. *)
Definition core_base (project : string) : Schema :=
  <["generate_trackers" :=
      {| uses := TrackerGenerator; fn := "generate"; config := ∅;
         needs := <["story_graph" := "load_stories"]>
                    {["domain" := "load_domain"]};
         persist := Some false |}]>
  (<["load_stories" :=
      {| uses := StoryGraphReader; fn := "read";
         config := {["project" := CVal (PStr project)]};
         needs := ∅; persist := Some false |}]>
  {["load_domain" :=
      {| uses := DomainReader; fn := "read";
         config := {["project" := CVal (PStr project)]};
         needs := ∅; persist := None |}]}).

(** ["e2e_features" in inspect.signature(policy_class.train).parameters] *)
Definition declares_e2e_features (policy_class : policy_class) : bool :=
  bool_decide ("e2e_features" ∈ train_parameters policy_class).

(** The task built for a policy: [policy_step[unique_policy_name]] after
    the capability probe. *)
Definition policy_task (policy_class : policy_class) (policy : entry)
  : TaskSpec :=
  let needs : gmap string string :=
    <["domain" := "load_domain"]>
      {["training_trackers" := "generate_trackers"]} in
  {| uses := Policy policy_class; fn := "train";
     config := CVal <$> policy;
     needs := if declares_e2e_features policy_class
              then <["e2e_features" := "create_e2e_lookup"]> needs
              else needs;
     persist := None |}.

(** One iteration of the loop over [enumerate(policies)], after the name
    has been popped off [policy]; the state is
    [(core_train_graph, policy_names, e2e)]. *)
Definition core_body (i : nat) (policy_name : string) (policy : entry)
    (st : Schema * list string * bool)
  : option (Schema * list string * bool) :=
  let '(core_train_graph, policy_names, e2e) := st in
  let unique_policy_name := policy_name +:+ "_" +:+ str i in
  let policy_names := policy_names ++ [unique_policy_name] in
  policy_class ← policy_from_module_path policy_name;
  let policy_step : Schema :=
    {[unique_policy_name := policy_task policy_class policy]} in
  let e2e := if declares_e2e_features policy_class then true else e2e in
  Some (update core_train_graph policy_step, policy_names, e2e).

(** One iteration: [policy.pop("name")], then the rest. *)
Definition core_step (i : nat) (policy : entry)
    (st : Schema * list string * bool)
  : option (Schema * list string * bool) :=
  '(policy_name, policy) ← pop_name policy;
  core_body i policy_name policy st.

(** [for i, policy in enumerate(policies)], from index [i] on. *)
Fixpoint core_loop (i : nat) (policies : list entry)
    (st : Schema * list string * bool)
  : option (Schema * list string * bool) :=
  match policies with
  | [] => Some st
  | policy :: rest =>
      st ← core_step i policy st;
      core_loop (S i) rest st
  end.

Definition convert_stories_for_nlu_task : TaskSpec :=
  {| uses := StoryToTrainingDataConverter; fn := "convert_for_training";
     config := ∅; needs := {["story_graph" := "load_stories"]};
     persist := Some false |}.

Definition create_e2e_lookup_task (nlu_out : string) : TaskSpec :=
  {| uses := MessageToE2EFeatureConverter; fn := "convert";
     config := ∅; needs := {["training_data" := nlu_out]};
     persist := Some false |}.

Definition core_config_to_train_graph_schema
    (project : string) (config : Config)
  : option (Schema * list string) :=
  policies ← cfg_policies config;
  '(core_train_graph, policy_names, e2e) ←
    core_loop 0 policies (core_base project, [], false);
  core_train_graph ←
    (if e2e : bool then
       let core_train_graph : Schema :=
         <["convert_stories_for_nlu" := convert_stories_for_nlu_task]>
           core_train_graph in
       '(nlu_train_graph_schema, nlu_out) ←
         nlu_config_to_train_graph_schema project config
           (Some "core") (Some "convert_stories_for_nlu") true;
       let core_train_graph :=
         update core_train_graph nlu_train_graph_schema in
       Some (<["create_e2e_lookup" := create_e2e_lookup_task nlu_out]>
               core_train_graph)
     else Some core_train_graph);
  Some (fill_defaults core_train_graph, policy_names).

(** [old_config_to_graph_schema], from the parsed config on ([read_yaml]
    is plain input). *)
Definition old_config_to_graph_schema (project : string)
    (config_dict : Config) : option (Schema * list string) :=
  '(nlu_train_graph_schema, nlu_out) ←
    nlu_config_to_train_graph_schema project config_dict None None false;
  '(core_train_graph_schema, core_outs) ←
    core_config_to_train_graph_schema project config_dict;
  Some (update core_train_graph_schema nlu_train_graph_schema,
        core_outs ++ [nlu_out]).

(** [k] is a task name that the loop over [nlu_pipeline], started at
    index [i], emits. *)
Definition nlu_emits (component_namespace : option string)
    (only_process : bool) (i : nat) (nlu_pipeline : list entry)
    (k : string) : Prop :=
  ∃ j e c cls s,
    nlu_pipeline !! j = Some e ∧ e !! "name" = Some (PStr c) ∧
    get_component_class c = Some cls ∧ meta cls = Some s ∧
    k ∈ step_keys only_process s (unique_name component_namespace c (i + j)).

(** [k] is the task name of the policy of class [cls] and remaining
    config [rest] that the loop over [policies], started at index [i],
    emits. *)
Definition core_emits (i : nat) (policies : list entry)
    (k : string) (cls : policy_class) (rest : entry) : Prop :=
  ∃ j e p,
    policies !! j = Some e ∧ e !! "name" = Some (PStr p) ∧
    policy_from_module_path p = Some cls ∧
    k = p +:+ "_" +:+ str (i + j) ∧ rest = delete "name" e.

(** The task names of the policies, in order: what [policy_names]
    collects. *)
Fixpoint policy_task_names (i : nat) (policies : list entry) : list string :=
  match policies with
  | [] => []
  | e :: rest =>
      match e !! "name" with
      | Some (PStr p) => [p +:+ "_" +:+ str i]
      | _ => []
      end ++ policy_task_names (S i) rest
  end.

(** No policy is named like a task of the pipeline entry at its own index:
    [train_<c>] or [process_<c>], with the namespace prefix when the
    pipeline is compiled under one. *)
Definition names_apart (component_namespace : option string)
    (policies nlu_pipeline : list entry) : Prop :=
  ∀ i pe ce p c,
    policies !! i = Some pe → pe !! "name" = Some (PStr p) →
    nlu_pipeline !! i = Some ce → ce !! "name" = Some (PStr c) →
    p ≠ "train_" +:+ ns_prefix component_namespace +:+ c ∧
    p ≠ "process_" +:+ ns_prefix component_namespace +:+ c.

(** Some policy of the list trains with [e2e_features]. *)
Definition some_policy_declares_e2e (policies : list entry) : Prop :=
  ∃ k cls rest, core_emits 0 policies k cls rest ∧
                declares_e2e_features cls = true.

(** The [needs] that are still open before the E2E tasks are added. *)
Definition e2e_ext (e2e : bool) : gset string :=
  if e2e then {["create_e2e_lookup"]} else ∅.

End Compilers.

Arguments nlu_step : simpl never.
Arguments core_step : simpl never.

(** The end-to-end branch of the Core compile runs, and the schema of its
    sub-compile has a task named [k]. *)
Definition e2e_replaces
    (get_component_class : string → option component_class)
    (policy_from_module_path : string → option policy_class)
    (project : string) (config : Config) (policies : list entry)
    (k : string) : Prop :=
  some_policy_declares_e2e policy_from_module_path policies ∧
  ∃ nlu_train_graph_schema nlu_out,
    nlu_config_to_train_graph_schema get_component_class project config
      (Some "core") (Some "convert_stories_for_nlu") true
    = Some (nlu_train_graph_schema, nlu_out) ∧
    k ∈ dom nlu_train_graph_schema.

(** ** The compilers over a store of mutable entries *)

(** In Python the entries of [config["pipeline"]] and [config["policies"]]
    are dict objects that the caller still holds after the call, and
    [pop("name")] mutates the dict it is applied to.  Here the entries live in
    a store, the config holds their addresses, and a compile is a computation
    that may raise and that transforms the store.  A task's [config] refers
    to the popped copy; nothing writes to that copy afterwards, so the task
    records it by value. *)
Module Heap.

Abbreviation loc := positive.
Abbreviation heap := (gmap loc entry).

Record Config : Type := {
  cfg_pipeline : option (list loc);
  cfg_policies : option (list loc);
}.

(** A computation returns a value or raises, and leaves a store. *)
Definition M (A : Type) : Type := heap → option A * heap.

Definition ret {A} (a : A) : M A := λ h, (Some a, h).

Definition raise {A} : M A := λ h, (None, h).

Definition bind {A B} (m : M A) (f : A → M B) : M B :=
  λ h, match m h with
       | (Some a, h') => f a h'
       | (None, h') => (None, h')
       end.

(** A pure step that may raise. *)
Definition lift {A} (o : option A) : M A := λ h, (o, h).

Notation "x ⇐ m ; k" := (bind m (λ x, k))
  (at level 20, m at level 100, k at level 200, only parsing,
   right associativity).

(** The dict at address [l]. *)
Definition read (l : loc) : M entry := λ h, (h !! l, h).

(** A new dict object with the contents [e]. *)
Definition alloc (e : entry) : M loc :=
  λ h, let l := fresh (dom h) in (Some l, <[l := e]> h).

(** [d.pop(key)] for the dict [d] at address [l]. *)
Definition pop (l : loc) (key : string) : M pyvalue :=
  λ h, match h !! l with
       | Some e =>
           match e !! key with
           | Some v => (Some v, <[l := delete key e]> h)
           | None => (None, h)
           end
       | None => (None, h)
       end.

(** [deepcopy] of a list of entries: every entry is copied to a new dict,
    and an entry that occurs twice in the list is copied once (the memo of
    [deepcopy] keeps the sharing). *)
Fixpoint deepcopy (entries : list loc) (memo : gmap loc loc)
  : M (list loc) :=
  match entries with
  | [] => ret []
  | l :: rest =>
      match memo !! l with
      | Some l' =>
          rest' ⇐ deepcopy rest memo;
          ret (l' :: rest')
      | None =>
          e ⇐ read l;
          l' ⇐ alloc e;
          rest' ⇐ deepcopy rest (<[l := l']> memo);
          ret (l' :: rest')
      end
  end.

(** One iteration of a loop over entries: pop the name off the entry at
    [l], then run the rest of the iteration on the entry as it now is. *)
Definition step {St} (body : string → entry → St → option St)
    (l : loc) (st : St) : M St :=
  name ⇐ pop l "name";
  match name with
  | PStr name =>
      e ⇐ read l;
      lift (body name e st)
  | _ => raise
  end.

Fixpoint loop {St} (body : nat → string → entry → St → option St)
    (i : nat) (entries : list loc) (st : St) : M St :=
  match entries with
  | [] => ret st
  | l :: rest =>
      st ⇐ step (body i) l st;
      loop body (S i) rest st
  end.

Section Compilers.

Variable get_component_class : string → option component_class.
Variable policy_from_module_path : string → option policy_class.

Definition nlu_config_to_train_graph_schema
    (project : string) (config : Config)
    (component_namespace input_task : option string)
    (only_process : bool) : M (Schema * string) :=
  pipeline ⇐ lift (cfg_pipeline config);
  nlu_pipeline ⇐ deepcopy pipeline ∅;
  r ⇐ loop (nlu_body get_component_class component_namespace only_process)
        0 nlu_pipeline (nlu_initial project input_task);
  ret (fill_defaults r.1, r.2).

Definition core_config_to_train_graph_schema
    (project : string) (config : Config) : M (Schema * list string) :=
  policies ⇐ lift (cfg_policies config);
  policies ⇐ deepcopy policies ∅;
  r ⇐ loop (core_body policy_from_module_path) 0 policies
        (core_base project, [], false);
  let '(core_train_graph, policy_names, e2e) := r in
  core_train_graph ⇐
    (if e2e : bool then
       let core_train_graph : Schema :=
         <["convert_stories_for_nlu" := convert_stories_for_nlu_task]>
           core_train_graph in
       n ⇐ nlu_config_to_train_graph_schema project config
             (Some "core") (Some "convert_stories_for_nlu") true;
       let core_train_graph := update core_train_graph n.1 in
       ret (<["create_e2e_lookup" := create_e2e_lookup_task n.2]>
              core_train_graph)
     else ret core_train_graph);
  ret (fill_defaults core_train_graph, policy_names).

Definition old_config_to_graph_schema (project : string)
    (config_dict : Config) : M (Schema * list string) :=
  n ⇐ nlu_config_to_train_graph_schema project config_dict
        None None false;
  c ⇐ core_config_to_train_graph_schema project config_dict;
  ret (update c.1 n.1, c.2 ++ [n.2]).

End Compilers.

(** Every entry the config refers to is in the store. *)
Definition well_formed (h : heap) (config : Config) : Prop :=
  (∀ ls l, cfg_pipeline config = Some ls → l ∈ ls → l ∈ dom h) ∧
  (∀ ls l, cfg_policies config = Some ls → l ∈ ls → l ∈ dom h).

(** No entry object occurs twice in a list of the config. *)
Definition unshared (config : Config) : Prop :=
  (∀ ls, cfg_pipeline config = Some ls → NoDup ls) ∧
  (∀ ls, cfg_policies config = Some ls → NoDup ls).

End Heap.

(** The entries a list of addresses refers to. *)
Definition contents (h : Heap.heap) (ls : list Heap.loc) : list entry :=
  (λ l, h !!! l) <$> ls.

(** The config mapping that a config in the store denotes. *)
Definition deref (h : Heap.heap) (config : Heap.Config) : Config :=
  Build_Config (contents h <$> Heap.cfg_pipeline config)
               (contents h <$> Heap.cfg_policies config).

(** The loop of either compiler over entries given by value. *)
Fixpoint for_entries {St} (body : nat → string → entry → St → option St)
    (i : nat) (es : list entry) (st : St) : option St :=
  match es with
  | [] => Some st
  | e :: rest =>
      st ← ('(name, e) ← pop_name e; body i name e st);
      for_entries body (S i) rest st
  end.

(** What a run makes of a config in the store.  A list in which an entry
    object occurs twice makes the run raise, as an absent list does: the
    copy keeps the sharing, and the second [pop("name")] on the shared copy
    finds no name. *)
Definition observed (h : Heap.heap) (config : Heap.Config) : Config :=
  Build_Config
    (ls ← Heap.cfg_pipeline config;
     if decide (NoDup ls) then Some (contents h ls) else None)
    (ls ← Heap.cfg_policies config;
     if decide (NoDup ls) then Some (contents h ls) else None).

(** The memo of a copy in progress, from the store [h0] it started in:
    every memoised entry is an entry of [h0], its copy is a new cell with the
    same contents, and no two entries share a copy. *)
Definition copy_inv (h0 : Heap.heap) (memo : gmap Heap.loc Heap.loc)
    (h : Heap.heap) : Prop :=
  h0 ⊆ h ∧
  ∀ l l', memo !! l = Some l' →
    is_Some (h0 !! l) ∧ (l' ∉ dom h0) ∧ h !! l' = h0 !! l ∧
    ∀ l2, memo !! l2 = Some l' → l2 = l.

(** The copy of [l] under a memo. *)
Definition copy_of (memo : gmap Heap.loc Heap.loc) (l : Heap.loc) : Heap.loc :=
  default l (memo !! l).

(** Whether a run returns (raises no exception). *)
Definition succeeds {A} (run : option A) : bool :=
  match run with
  | Some _ => true
  | None => false
  end.

(** Observations of a run: a task of the returned schema, one of its
    [needs], and the returned output(s). *)
Definition task_of {A} (run : option (Schema * A)) (k : string)
  : option TaskSpec :=
  match run with
  | Some r => r.1 !! k
  | None => None
  end.

Definition needs_of {A} (run : option (Schema * A)) (k p : string)
  : option string :=
  match task_of run k with
  | Some t => needs t !! p
  | None => None
  end.

Definition output_of {A} (run : option (Schema * A)) : option A :=
  snd <$> run.

(** ** Resolving entries *)

(** The step kind of a pipeline entry: the name popped off it, the class the
    registry has for the name, and the kind [meta] has for the class; [None]
    where one of the three raises. *)
Definition entry_kind (get_component_class : string → option component_class)
    (e : entry) : option step_type :=
  '(component_name, _) ← pop_name e;
  component_class ← get_component_class component_name;
  meta component_class.

(** The class of a policy entry: the name popped off it and the class the
    registry has for the name. *)
Definition entry_policy (policy_from_module_path : string → option policy_class)
    (e : entry) : option policy_class :=
  '(policy_name, _) ← pop_name e;
  policy_from_module_path policy_name.

(** Whether the policy of an entry trains with [e2e_features]. *)
Definition entry_declares_e2e
    (policy_from_module_path : string → option policy_class)
    (e : entry) : bool :=
  match entry_policy policy_from_module_path e with
  | Some policy_class => declares_e2e_features policy_class
  | None => false
  end.

(** ** Sample registries and configs *)

(** A registry for the scenario of the spec: its three names resolve to a
    process class, a train-and-process class and a pure train class. *)
Definition scenario_components (component_name : string)
  : option component_class :=
  if decide (component_name = "Tokenizer") then Some WhitespaceTokenizer
  else if decide (component_name = "Featurizer") then Some RegexFeaturizer
  else if decide (component_name = "Classifier") then Some DIETClassifier
  else None.

(** The registry with the seven classes of [meta] under their own names. *)
Definition registered_components (component_name : string)
  : option component_class :=
  if decide (component_name = "WhitespaceTokenizer") then Some WhitespaceTokenizer
  else if decide (component_name = "RegexFeaturizer") then Some RegexFeaturizer
  else if decide (component_name = "LexicalSyntacticFeaturizer")
       then Some LexicalSyntacticFeaturizer
  else if decide (component_name = "CountVectorsFeaturizer")
       then Some CountVectorsFeaturizer
  else if decide (component_name = "DIETClassifier") then Some DIETClassifier
  else if decide (component_name = "ResponseSelector") then Some ResponseSelector
  else if decide (component_name = "EntitySynonymMapper")
       then Some EntitySynonymMapper
  else None.

(** A policy registry that resolves every path to a class of that name;
    only [TEDPolicy] trains with [e2e_features]. *)
Definition sample_policies (policy_name : string) : option policy_class :=
  Some {| policy_class_name := policy_name;
          train_parameters :=
            if decide (policy_name = "TEDPolicy")
            then ["self"; "training_trackers"; "domain"; "e2e_features"]
            else ["self"; "training_trackers"; "domain"] |}.

(** A policy registry in which every path resolves to a class that trains
    with [e2e_features]. *)
Definition e2e_policies (policy_name : string) : option policy_class :=
  Some {| policy_class_name := policy_name;
          train_parameters :=
            ["self"; "training_trackers"; "domain"; "e2e_features"] |}.

(** The entry [{name: n}]. *)
Definition named (n : string) : entry := {["name" := PStr n]}.

(** A store with the entries of a small config, and the config that refers
    to them. *)
Definition sample_heap : Heap.heap :=
  <[1%positive := named "WhitespaceTokenizer"]>
    (<[2%positive := named "RegexFeaturizer"]>
       {[3%positive := named "TEDPolicy"]}).

Definition sample_heap_config : Heap.Config :=
  {| Heap.cfg_pipeline := Some [1; 2]%positive;
     Heap.cfg_policies := Some [3%positive] |}.

(** A config whose pipeline lists one entry object twice. *)
Definition shared_heap_config : Heap.Config :=
  {| Heap.cfg_pipeline := Some [1; 1]%positive;
     Heap.cfg_policies := Some [3%positive] |}.

(** A Core-only config: two policies that train without [e2e_features],
    and no [pipeline] key. *)
Definition core_only_config : Config :=
  {| cfg_pipeline := None;
     cfg_policies := Some [named "MemoizationPolicy"; named "RulePolicy"] |}.

(** A custom policy whose path reads like the process task of the
    featurizer at its index. *)
Definition output_clash_config : Config :=
  {| cfg_pipeline := Some [named "RegexFeaturizer"];
     cfg_policies := Some [named "process_RegexFeaturizer"] |}.

(** A custom policy whose path reads like the train task that a tokenizer
    would have under the namespace [core], if it were trained. *)
Definition e2e_lookalike_config : Config :=
  {| cfg_pipeline := Some [named "WhitespaceTokenizer"];
     cfg_policies := Some [named "train_core_WhitespaceTokenizer"] |}.

(** A custom policy whose path reads like the E2E task of the tokenizer at
    its index. *)
Definition e2e_clash_config : Config :=
  {| cfg_pipeline := Some [named "WhitespaceTokenizer"];
     cfg_policies := Some [named "process_core_WhitespaceTokenizer"] |}.

(** A custom policy whose path reads like the train task of the featurizer
    at its index. *)
Definition merge_clash_config : Config :=
  {| cfg_pipeline := Some [named "RegexFeaturizer"];
     cfg_policies := Some [named "train_RegexFeaturizer"] |}.

(** The pipeline of the scenario. *)
Definition scenario_config : Config :=
  {| cfg_pipeline :=
       Some [named "Tokenizer"; named "Featurizer"; named "Classifier"];
     cfg_policies := Some [] |}.

(** The config of [test_config_to_graph.py]. *)
Definition default_config : Config :=
  {| cfg_pipeline := Some
       [ named "WhitespaceTokenizer"; named "RegexFeaturizer";
         named "LexicalSyntacticFeaturizer"; named "CountVectorsFeaturizer";
         <["analyzer" := PStr "char_wb"]> (<["min_ngram" := PInt 1]>
           (<["max_ngram" := PInt 4]> (named "CountVectorsFeaturizer")));
         <["epochs" := PInt 2]> (<["constrain_similarities" := PBool true]>
           (named "DIETClassifier"));
         named "EntitySynonymMapper";
         <["epochs" := PInt 2]> (<["constrain_similarities" := PBool true]>
           (named "ResponseSelector")) ];
     cfg_policies := Some
       [ named "MemoizationPolicy";
         <["max_history" := PInt 5]> (<["epochs" := PInt 10]>
           (<["constrain_similarities" := PBool true]> (named "TEDPolicy")));
         named "RulePolicy" ] |}.

(** * Properties *)

(** ** Task names *)

Section TaskNames.

Example str_of_index : str 0 = "0" ∧ str 7 = "7" ∧ str 12 = "12".
Proof. by vm_compute. Qed.

Example unique_name_plain :
  unique_name None "CountVectorsFeaturizer" 4 = "CountVectorsFeaturizer_4".
Proof. by vm_compute. Qed.

Example unique_name_core :
  unique_name (Some "core") "WhitespaceTokenizer" 0
  = "core_WhitespaceTokenizer_0".
Proof. by vm_compute. Qed.

Lemma string_of_uint_no_underscore (d : Decimal.uint) :
  has_underscore (NilEmpty.string_of_uint d) = false.
Proof. induction d; simpl; auto. Qed.

Lemma str_no_underscore (i : nat) : has_underscore (str i) = false.
Proof. apply string_of_uint_no_underscore. Qed.

Lemma str_inj (i j : nat) : str i = str j → i = j.
Proof.
  unfold str. intros E.
  apply Unsigned.to_uint_inj.
  assert (Some (Nat.to_uint i) = Some (Nat.to_uint j)) as [= ->]; [|done].
  by rewrite <- !NilEmpty.usu, E.
Qed.

Lemma append_nil (d : string) : "" +:+ d = d.
Proof. reflexivity. Qed.

Lemma append_cons (c : ascii) (a d : string) :
  String c a +:+ d = String c (a +:+ d).
Proof. reflexivity. Qed.

Lemma has_underscore_app (a d : string) :
  has_underscore (a +:+ String "_" d) = true.
Proof.
  induction a as [|c a IH]; rewrite ?append_nil, ?append_cons; simpl.
  - done.
  - by case_decide.
Qed.

(** The text after the last underscore of a name determines the split. *)
Lemma app_underscore_inj' (a b d e : string) :
  has_underscore d = false → has_underscore e = false →
  a +:+ String "_" d = b +:+ String "_" e → a = b ∧ d = e.
Proof.
  intros Hd He. revert b.
  induction a as [|c a IH]; intros [|c' b];
    rewrite ?append_nil, ?append_cons; intros E.
  - by injection E as ->.
  - injection E as <- ->. by rewrite has_underscore_app in Hd.
  - injection E as -> <-. by rewrite has_underscore_app in He.
  - injection E as -> E. by destruct (IH b E) as [-> ->].
Qed.

Lemma app_underscore_inj (a b d e : string) :
  has_underscore d = false → has_underscore e = false →
  a +:+ "_" +:+ d = b +:+ "_" +:+ e → a = b ∧ d = e.
Proof. apply app_underscore_inj'. Qed.

Lemma indexed_name_inj (a b : string) (i j : nat) :
  a +:+ "_" +:+ str i = b +:+ "_" +:+ str j → a = b ∧ i = j.
Proof.
  intros [-> E%str_inj]%app_underscore_inj;
    auto using str_no_underscore.
Qed.

Lemma append_assoc (a b c : string) : (a +:+ b) +:+ c = a +:+ b +:+ c.
Proof.
  induction a; rewrite ?append_nil, ?append_cons; congruence.
Qed.

Lemma string_of_uint_digits (d : Decimal.uint) :
  all_digits (NilEmpty.string_of_uint d) = true.
Proof. induction d; simpl; auto. Qed.

Lemma str_digits (i : nat) : all_digits (str i) = true.
Proof. apply string_of_uint_digits. Qed.

(** An indexed name is none of the fixed task names, whose text after the
    last underscore is not a number. *)
Lemma indexed_name_ne (a b e : string) (i : nat) :
  has_underscore e = false → all_digits e = false →
  a +:+ "_" +:+ str i ≠ b +:+ "_" +:+ e.
Proof.
  intros He Hd [_ E]%app_underscore_inj;
    auto using str_no_underscore.
  by rewrite <- E, str_digits in Hd.
Qed.

Lemma unique_name_eq (ns : option string) (c : string) (i : nat) :
  unique_name ns c i = (ns_prefix ns +:+ c) +:+ "_" +:+ str i.
Proof.
  unfold unique_name, ns_prefix.
  destruct ns as [ns|]; [destruct (truthy _)|]; try done.
  by rewrite !append_assoc.
Qed.

Lemma unique_name_inj (ns : option string) (c c' : string) (i j : nat) :
  unique_name ns c i = unique_name ns c' j → c = c' ∧ i = j.
Proof.
  rewrite !unique_name_eq.
  intros [E ->]%indexed_name_inj. split; [|done].
  by apply (inj (String.app _)) in E.
Qed.

Lemma unique_name_nonempty (ns : option string) (c : string) (i : nat) :
  truthy (Some (unique_name ns c i)) = true.
Proof.
  pose proof (has_underscore_app (ns_prefix ns +:+ c) (str i)) as H.
  rewrite <- (unique_name_eq ns c i : _ = _ +:+ String "_" _) in H.
  by destruct (unique_name ns c i).
Qed.

Lemma name_or_class_unique ns c i cls :
  name_or_class (Some (unique_name ns c i)) cls = unique_name ns c i.
Proof.
  unfold name_or_class. by rewrite unique_name_nonempty.
Qed.

(** The name of a policy's task is none of the fixed task names. *)
Lemma policy_key_fixed (p : string) (i : nat) :
  p +:+ "_" +:+ str i ∉
    ["load_domain"; "load_stories"; "generate_trackers";
     "convert_stories_for_nlu"; "create_e2e_lookup"; "load_data"].
Proof.
  intros H.
  repeat (apply elem_of_cons in H as [H|H]);
    [| | | | | |by apply elem_of_nil in H].
  - by apply (indexed_name_ne p "load" "domain") in H.
  - by apply (indexed_name_ne p "load" "stories") in H.
  - by apply (indexed_name_ne p "generate" "trackers") in H.
  - by apply (indexed_name_ne p "convert_stories_for" "nlu") in H.
  - by apply (indexed_name_ne p "create_e2e" "lookup") in H.
  - by apply (indexed_name_ne p "load" "data") in H.
Qed.

Lemma step_keys_cases only s u (k : string) :
  k ∈ step_keys only s u → k = "train_" +:+ u ∨ k = "process_" +:+ u.
Proof.
  destruct s, only; simpl; set_solver.
Qed.

(** The name of a compiled pipeline task, read as an indexed name. *)
Lemma train_unique_name_eq ns c i :
  "train_" +:+ unique_name ns c i
  = ("train_" +:+ ns_prefix ns +:+ c) +:+ "_" +:+ str i.
Proof. by rewrite unique_name_eq, <- !append_assoc. Qed.

Lemma process_unique_name_eq ns c i :
  "process_" +:+ unique_name ns c i
  = ("process_" +:+ ns_prefix ns +:+ c) +:+ "_" +:+ str i.
Proof. by rewrite unique_name_eq, <- !append_assoc. Qed.

Lemma append_length (a b : string) :
  String.length (a +:+ b) = String.length a + String.length b.
Proof.
  induction a; rewrite ?append_nil, ?append_cons; simpl; lia.
Qed.

(** The same entry compiled under the namespace [core] and under none
    gets two different names. *)
Lemma unique_name_core_ne c c' i j :
  unique_name (Some "core") c i = unique_name None c' j →
  c' = "core_" +:+ c ∧ i = j.
Proof.
  rewrite !unique_name_eq. intros [E ->]%indexed_name_inj.
  split; [|done]. symmetry. exact E.
Qed.

Lemma core_prefix_ne c : c ≠ "core_" +:+ c.
Proof.
  intros H%(f_equal String.length). rewrite append_length in H.
  simpl in H. lia.
Qed.

Lemma train_ne_process (a b : string) : "train_" +:+ a ≠ "process_" +:+ b.
Proof. discriminate. Qed.

Lemma train_ne_load_data (a : string) : "train_" +:+ a ≠ "load_data".
Proof. discriminate. Qed.

Lemma process_ne_load_data (a : string) : "process_" +:+ a ≠ "load_data".
Proof. discriminate. Qed.

Lemma train_inj (a b : string) : "train_" +:+ a = "train_" +:+ b → a = b.
Proof. apply (inj (String.app _)). Qed.

Lemma process_inj (a b : string) :
  "process_" +:+ a = "process_" +:+ b → a = b.
Proof. apply (inj (String.app _)). Qed.

End TaskNames.

(** ** The defaulting pass and the builders *)

Section Builders.

Lemma fill_defaults_lookup (g : Schema) (k : string) (t : TaskSpec) :
  fill_defaults g !! k = Some t →
  ∃ t0, g !! k = Some t0 ∧ needs t = needs t0 ∧ uses t = uses t0 ∧
        fn t = fn t0 ∧ config t = config t0 ∧
        persist t = Some (default true (persist t0)).
Proof.
  unfold fill_defaults. rewrite lookup_fmap.
  destruct (g !! k) as [t0|]; simpl; [|done].
  intros [= <-]. by exists t0.
Qed.

Lemma fill_defaults_lookup_Some (g : Schema) (k : string) (t : TaskSpec) :
  g !! k = Some t → fill_defaults g !! k = Some (fill_task t).
Proof. intros H. unfold fill_defaults. by rewrite lookup_fmap, H. Qed.

Lemma fill_defaults_dom (g : Schema) : dom (fill_defaults g) = dom g.
Proof. unfold fill_defaults. apply dom_fmap_L. Qed.

Lemma fill_defaults_closed_upto (ext : gset string) (g : Schema) :
  closed_upto ext g → closed_upto ext (fill_defaults g).
Proof.
  intros Hg k t p v (t0 & Hk & Hn & _)%fill_defaults_lookup Hv.
  rewrite fill_defaults_dom. rewrite Hn in Hv. eauto.
Qed.

Lemma closed_upto_empty (g : Schema) : closed_upto ∅ g ↔ closed g.
Proof.
  split.
  - intros Hg k t p v Hk Hv. destruct (Hg k t p v Hk Hv) as [|Hx]; [done|].
    by apply not_elem_of_empty in Hx.
  - intros Hg k t p v Hk Hv. left. eauto.
Qed.

Lemma update_lookup {V} (d o : gmap string V) (k : string) :
  update d o !! k = match o !! k with Some v => Some v | None => d !! k end.
Proof.
  unfold update. rewrite lookup_union.
  destruct (o !! k), (d !! k); done.
Qed.

Lemma update_dom {V} (d o : gmap string V) :
  dom (update d o) = dom d ∪ dom o.
Proof. unfold update. rewrite dom_union_L. set_solver. Qed.

(** What each builder returns for a non-empty unique name. *)
Lemma builder_keys s cls out ns c i cfg (k : string) :
  k ∈ dom (builder s cls out (Some (unique_name ns c i)) cfg).1 ↔
  k ∈ step_keys false s (unique_name ns c i).
Proof.
  destruct s;
    unfold builder, process_component, train_component,
      train_and_process_component;
    rewrite name_or_class_unique; cbn [fst snd step_keys].
  - rewrite dom_singleton_L. set_solver.
  - rewrite dom_singleton_L. set_solver.
  - rewrite dom_insert_L, dom_singleton_L. set_solver.
Qed.

Lemma builder_out s cls out ns c i cfg :
  (builder s cls out (Some (unique_name ns c i)) cfg).2 =
  match s with
  | train => out
  | _ => "process_" +:+ unique_name ns c i
  end.
Proof.
  destruct s;
    unfold builder, process_component, train_component,
      train_and_process_component;
    by rewrite name_or_class_unique.
Qed.

Lemma builder_needs s cls out ns c i cfg (k p v : string) (t : TaskSpec) :
  (builder s cls out (Some (unique_name ns c i)) cfg).1 !! k = Some t →
  needs t !! p = Some v →
  v = out ∨ (s = train_process ∧ v = "train_" +:+ unique_name ns c i).
Proof.
  destruct s;
    unfold builder, process_component, train_component,
      train_and_process_component;
    rewrite name_or_class_unique; cbn [fst snd step_keys].
  - intros [<- <-]%lookup_singleton_Some. simpl.
    intros [_ <-]%lookup_singleton_Some. by left.
  - intros [<- <-]%lookup_singleton_Some. simpl.
    intros [_ <-]%lookup_singleton_Some. by left.
  - intros [[<- <-]|[_ [<- <-]%lookup_singleton_Some]]%lookup_insert_Some;
      simpl.
    + intros [[_ <-]|[_ [_ <-]%lookup_singleton_Some]]%lookup_insert_Some;
        auto.
    + intros [_ <-]%lookup_singleton_Some. by left.
Qed.

Lemma pop_name_Some (e e' : entry) (c : string) :
  pop_name e = Some (c, e') ↔
  e !! "name" = Some (PStr c) ∧ e' = delete "name" e.
Proof.
  unfold pop_name. destruct (e !! "name") as [[]|]; split;
    try done; try (by intros [? _]); by intros [[= ->] ->] || by intros [= <- <-].
Qed.

Lemma closed_upto_update (X Y : gset string) (d o : Schema) :
  closed_upto X d → closed_upto Y o → closed_upto (X ∪ Y) (update d o).
Proof.
  intros Hd Ho k t p v. rewrite update_lookup, update_dom.
  destruct (o !! k) as [t'|] eqn:Hk.
  - intros [= ->] Hv. destruct (Ho _ _ _ _ Hk Hv); set_solver.
  - intros Hdk Hv. destruct (Hd _ _ _ _ Hdk Hv); set_solver.
Qed.

Lemma closed_upto_weaken (X X' : gset string) (g : Schema) :
  closed_upto X g → (∀ v, v ∈ X → v ∈ dom g ∨ v ∈ X') → closed_upto X' g.
Proof.
  intros Hg HX k t p v Hk Hv. destruct (Hg _ _ _ _ Hk Hv); auto.
Qed.

Lemma closed_upto_singleton (k : string) (t : TaskSpec) :
  closed_upto (list_to_set (snd <$> map_to_list (needs t))) {[k := t]}.
Proof.
  intros k' t' p v [<- <-]%lookup_singleton_Some Hv. right.
  apply elem_of_list_to_set, list_elem_of_fmap. exists (p, v).
  split; [done|]. by apply elem_of_map_to_list.
Qed.

Lemma insert_update (k : string) (t : TaskSpec) (g : Schema) :
  <[k := t]> g = update g {[k := t]}.
Proof. apply insert_union_singleton_l. Qed.

Lemma policy_task_needs cls rest (p v : string) :
  needs (policy_task cls rest) !! p = Some v →
  v = "load_domain" ∨ v = "generate_trackers" ∨
  (v = "create_e2e_lookup" ∧ declares_e2e_features cls = true).
Proof.
  unfold policy_task. simpl.
  destruct (declares_e2e_features cls);
    rewrite ?lookup_insert_Some, lookup_singleton_Some; naive_solver.
Qed.

Lemma list_lookup_head {A} (x : A) (l : list A) : (x :: l) !! 0 = Some x.
Proof. reflexivity. Qed.

Lemma list_lookup_tail {A} (x : A) (l : list A) (i : nat) :
  (x :: l) !! S i = l !! i.
Proof. reflexivity. Qed.

Lemma succeeds_is_Some {A} (o : option A) : succeeds o = true ↔ is_Some o.
Proof. destruct o; split; try done; by intros []. Qed.

Lemma succeeds_false {A} (o : option A) : succeeds o = false ↔ o = None.
Proof. by destruct o. Qed.

End Builders.

(** ** The NLU pipeline compiler *)

Section NluCompiler.

Variable get_component_class : string → option component_class.

Abbreviation nlu_step := (nlu_step get_component_class).
Abbreviation nlu_loop := (nlu_loop get_component_class).
Abbreviation nlu_emits := (nlu_emits get_component_class).

(** One iteration merges a fragment whose keys, [needs] values and output
    are those of the entry's step kind. *)
Lemma nlu_step_spec ns only i e g out g' out' :
  nlu_step ns only i e (g, out) = Some (g', out') →
  ∃ c cls s (frag : Schema),
    e !! "name" = Some (PStr c) ∧ get_component_class c = Some cls ∧
    meta cls = Some s ∧ g' = update g frag ∧
    (∀ k, k ∈ dom frag ↔ k ∈ step_keys only s (unique_name ns c i)) ∧
    (∀ k t p v, frag !! k = Some t → needs t !! p = Some v →
       v = out ∨
       (s = train_process ∧ v = "train_" +:+ unique_name ns c i)) ∧
    out' = match s with
           | train => out
           | _ => "process_" +:+ unique_name ns c i
           end.
Proof.
  unfold nlu_step, nlu_body.
  destruct (pop_name e) as [[c e']|] eqn:Hpop; [|done].
  apply pop_name_Some in Hpop as [Hname ->]. cbn [mbind option_bind].
  destruct (get_component_class c) as [cls|] eqn:Hcls; [|done].
  cbn [mbind option_bind].
  destruct (meta cls) as [s|] eqn:Hmeta; [|done].
  cbn [mbind option_bind].
  set (cfg := Some {[ _ := CDict _ ]}).
  intros Hstep.
  assert ((s = train ∧ only = true ∧ g' = g ∧ out' = out) ∨
    (¬ (s = train ∧ only = true) ∧
     g' = update g (builder s (Component cls) out
                      (Some (unique_name ns c i)) cfg).1 ∧
     out' = (builder s (Component cls) out
               (Some (unique_name ns c i)) cfg).2)) as Hcases.
  { destruct s, only; cbn beta iota in Hstep;
      try (left; by simplify_eq);
      right; (split; [naive_solver|]);
      destruct (builder _ _ _ _ _) as [frag o]; by simplify_eq. }
  clear Hstep. exists c, cls, s.
  destruct Hcases as [(-> & -> & -> & ->)|(Hns & -> & ->)].
  - exists ∅. split_and!; try done.
    + unfold update. by rewrite (left_id_L ∅ (∪)).
    + intros k. rewrite dom_empty_L. simpl. set_solver.
  - eexists. split_and!; try done.
    + intros k. rewrite builder_keys.
      destruct s, only; try done. by destruct Hns.
    + intros k t p v. apply builder_needs.
    + apply builder_out.
Qed.

(** The step on an entry whose name resolves and whose class has a kind. *)
Lemma nlu_step_eq ns only i e c cls s g out :
  e !! "name" = Some (PStr c) → get_component_class c = Some cls →
  meta cls = Some s →
  nlu_step ns only i e (g, out) =
  Some (match s, only with
        | train, true => (g, out)
        | _, _ =>
            let '(component_def, last_component_out) :=
              builder s (Component cls) out (Some (unique_name ns c i))
                (Some {["component_config" := CDict (delete "name" e)]}) in
            (update g component_def, last_component_out)
        end).
Proof.
  intros He Hc Hs. unfold nlu_step, nlu_body, pop_name.
  rewrite He. cbn [mbind option_bind]. rewrite Hc. cbn [mbind option_bind].
  rewrite Hs. cbn [mbind option_bind].
  destruct s, only; try done; by destruct (builder _ _ _ _ _).
Qed.

Lemma nlu_step_closed (ext : gset string) ns only i e g out g' out' :
  closed_upto ext g → out ∈ dom g ∨ out ∈ ext →
  nlu_step ns only i e (g, out) = Some (g', out') →
  closed_upto ext g' ∧ (out' ∈ dom g' ∨ out' ∈ ext).
Proof.
  intros Hg Hout
    (c & cls & s & frag & _ & _ & _ & -> & Hkeys & Hneeds & ->)%nlu_step_spec.
  split.
  - intros k t p v. rewrite update_lookup, update_dom.
    destruct (frag !! k) as [t'|] eqn:Hk.
    + intros [= ->] Hv.
      destruct (Hneeds _ _ _ _ Hk Hv) as [->|[-> ->]]; [set_solver|].
      left. apply elem_of_union_r, Hkeys. destruct only; set_solver.
    + intros Hgk Hv. destruct (Hg _ _ _ _ Hgk Hv); set_solver.
  - rewrite update_dom.
    destruct s; [| set_solver |];
      left; apply elem_of_union_r, Hkeys; destruct only; set_solver.
Qed.

Lemma nlu_loop_closed (ext : gset string) ns only l :
  ∀ i g out g' out',
  closed_upto ext g → out ∈ dom g ∨ out ∈ ext →
  nlu_loop ns only i l (g, out) = Some (g', out') →
  closed_upto ext g' ∧ (out' ∈ dom g' ∨ out' ∈ ext).
Proof.
  induction l as [|e l IH]; intros i g out g' out' Hg Hout; simpl.
  - by intros [= <- <-].
  - destruct (nlu_step ns only i e (g, out)) as [[g1 out1]|] eqn:Hstep;
      cbn [mbind option_bind]; [|done].
    destruct (nlu_step_closed _ _ _ _ _ _ _ _ _ Hg Hout Hstep).
    by apply IH.
Qed.

Lemma nlu_emits_nil ns only i k : ¬ nlu_emits ns only i [] k.
Proof. by intros (j & e & ? & ? & ? & ? & _). Qed.

Lemma nlu_emits_cons ns only i e l k :
  nlu_emits ns only i (e :: l) k ↔
  (∃ c cls s, e !! "name" = Some (PStr c) ∧
     get_component_class c = Some cls ∧ meta cls = Some s ∧
     k ∈ step_keys only s (unique_name ns c i)) ∨
  nlu_emits ns only (S i) l k.
Proof.
  split.
  - intros ([|j] & e' & c & cls & s & Hj & He & Hc & Hs & Hk); simpl in Hj.
    + left. injection Hj as <-. exists c, cls, s.
      by rewrite Nat.add_0_r in Hk.
    + right. exists j, e', c, cls, s.
      by rewrite Nat.add_succ_r in Hk.
  - intros [(c & cls & s & He & Hc & Hs & Hk)|
            (j & e' & c & cls & s & Hj & He & Hc & Hs & Hk)].
    + exists 0, e, c, cls, s. by rewrite Nat.add_0_r.
    + exists (S j), e', c, cls, s. by rewrite Nat.add_succ_r.
Qed.

(** The keys of the compiled graph are the initial ones and the emitted
    task names. *)
Lemma nlu_loop_keys ns only l :
  ∀ i g out g' out',
  nlu_loop ns only i l (g, out) = Some (g', out') →
  ∀ k, k ∈ dom g' ↔ k ∈ dom g ∨ nlu_emits ns only i l k.
Proof.
  induction l as [|e l IH]; intros i g out g' out'; simpl.
  - intros [= <- <-] k. pose proof (nlu_emits_nil ns only i k). tauto.
  - destruct (nlu_step ns only i e (g, out)) as [[g1 out1]|] eqn:Hstep;
      cbn [mbind option_bind]; [|done]. intros Hloop k.
    rewrite (IH _ _ _ _ _ Hloop), nlu_emits_cons.
    apply nlu_step_spec in Hstep
      as (c & cls & s & frag & He & Hc & Hs & -> & Hkeys & _).
    rewrite update_dom, elem_of_union, Hkeys. split.
    + intros [[?|?]|?]; eauto 10.
    + intros [?|[(c' & cls' & s' & He' & Hc' & Hs' & Hk)|?]]; auto.
      simplify_eq. auto.
Qed.

(** With [only_process], neither task name of a pure train entry is
    emitted: the names of other entries differ in the index. *)
Lemma skipped_not_emitted ns l i e c cls k0 :
  l !! i = Some e → e !! "name" = Some (PStr c) →
  get_component_class c = Some cls → meta cls = Some train →
  k0 ∈ ["train_" +:+ unique_name ns c i;
        "process_" +:+ unique_name ns c i] →
  ¬ nlu_emits ns true 0 l k0.
Proof.
  intros Hi He Hc Hs Hk0 (j & e' & c' & cls' & s' & Hj & He' & Hc' & Hs' & Hk).
  assert (unique_name ns c i = unique_name ns c' (0 + j) → s' = train)
    as Hu.
  { intros [-> ->]%unique_name_inj. simpl in Hi. by simplify_eq. }
  apply elem_of_cons in Hk0 as [->|Hk0%list_elem_of_singleton]; subst;
    destruct s'; simpl in Hk;
    repeat match goal with
      | H : _ ∈ _ :: _ |- _ => apply elem_of_cons in H as [H|H]
      | H : _ ∈ [] |- _ => by apply elem_of_nil in H
      | H : "train_" +:+ _ = "process_" +:+ _ |- _ =>
          by apply train_ne_process in H
      | H : "process_" +:+ _ = "train_" +:+ _ |- _ =>
          symmetry in H; by apply train_ne_process in H
      | H : "train_" +:+ _ = "train_" +:+ _ |- _ =>
          by apply train_inj, Hu in H
      | H : "process_" +:+ _ = "process_" +:+ _ |- _ =>
          by apply process_inj, Hu in H
      end.
Qed.

Lemma nlu_emits_name ns only i l k :
  nlu_emits ns only i l k →
  ∃ j e c,
    l !! j = Some e ∧ e !! "name" = Some (PStr c) ∧
    (k = "train_" +:+ unique_name ns c (i + j) ∨
     k = "process_" +:+ unique_name ns c (i + j)).
Proof.
  intros (j & e & c & cls & s & Hj & He & _ & _ & Hk%step_keys_cases).
  by exists j, e, c.
Qed.

(** An emitted name is none of the fixed task names. *)
Lemma emitted_not_fixed ns only i l k :
  nlu_emits ns only i l k →
  k ∉ ["load_domain"; "load_stories"; "generate_trackers";
       "convert_stories_for_nlu"; "create_e2e_lookup"; "load_data"].
Proof.
  intros (j & e & c & _ & _ & [-> | ->])%nlu_emits_name H;
    repeat (apply elem_of_cons in H as [H|H]);
    by (discriminate H || apply elem_of_nil in H).
Qed.

(** A policy's task name is not emitted when the names are apart. *)
Lemma policy_key_not_emitted ns only policies l p i pe :
  names_apart ns policies l →
  policies !! i = Some pe → pe !! "name" = Some (PStr p) →
  ¬ nlu_emits ns only 0 l (p +:+ "_" +:+ str i).
Proof.
  intros Hap Hi Hpe (j & e & c & Hj & He & Hk)%nlu_emits_name.
  simpl in Hk.
  rewrite train_unique_name_eq, process_unique_name_eq in Hk.
  destruct Hk as [[-> ->]%indexed_name_inj|[-> ->]%indexed_name_inj];
    by destruct (Hap _ _ _ _ _ Hi Hpe Hj He).
Qed.

Abbreviation nlu_compile :=
  (nlu_config_to_train_graph_schema get_component_class).

Lemma nlu_compile_Some project cfg ns input only schema out :
  nlu_compile project cfg ns input only = Some (schema, out) ↔
  ∃ pipeline g,
    cfg_pipeline cfg = Some pipeline ∧
    nlu_loop ns only 0 pipeline (nlu_initial project input) = Some (g, out) ∧
    schema = fill_defaults g.
Proof.
  unfold nlu_config_to_train_graph_schema.
  destruct (cfg_pipeline cfg) as [pipeline|]; simpl.
  2: { split; [done|]. by intros (? & ? & ? & _). }
  destruct (nlu_loop ns only 0 pipeline _) as [[g o]|] eqn:Hl; simpl.
  - split.
    + intros [= <- <-]. by exists pipeline, g.
    + intros (p' & g' & [= <-] & Hl' & ->). congruence.
  - split; [done|]. intros (p' & g' & [= <-] & Hl' & _). congruence.
Qed.

Lemma nlu_initial_load_data project input :
  truthy input = false →
  nlu_initial project input =
  ({["load_data" := load_data_task project]}, "load_data").
Proof. by destruct input as [[|a t]|]. Qed.

Lemma nlu_initial_input project t :
  truthy (Some t) = true → nlu_initial project (Some t) = (∅, t).
Proof. unfold nlu_initial. by intros ->. Qed.

Lemma closed_upto_load_data ext project :
  closed_upto ext {["load_data" := load_data_task project]}.
Proof. by intros k t p v [<- <-]%lookup_singleton_Some. Qed.

Lemma closed_upto_nil ext : closed_upto ext ∅.
Proof. by intros k t p v. Qed.

(** Without an external input task the compiled schema is closed and
    the output is one of its tasks. *)
Lemma nlu_compile_closed project cfg ns input only schema out :
  truthy input = false →
  nlu_compile project cfg ns input only = Some (schema, out) →
  closed schema ∧ out ∈ dom schema.
Proof.
  intros Hin (pipeline & g & _ & Hloop & ->)%nlu_compile_Some.
  rewrite (nlu_initial_load_data _ _ Hin) in Hloop.
  apply (nlu_loop_closed ∅) in Hloop as [Hg Hout].
  - split.
    + by apply closed_upto_empty, fill_defaults_closed_upto.
    + rewrite fill_defaults_dom. set_solver.
  - apply closed_upto_load_data.
  - left. rewrite dom_singleton_L. set_solver.
Qed.

(** With an external input task [t], every dependency is a task of the
    schema or [t] itself, and so is the output. *)
Lemma nlu_compile_closed_upto project cfg ns t only schema out :
  truthy (Some t) = true →
  nlu_compile project cfg ns (Some t) only = Some (schema, out) →
  closed_upto {[t]} schema ∧ (out ∈ dom schema ∨ out = t).
Proof.
  intros Hin (pipeline & g & _ & Hloop & ->)%nlu_compile_Some.
  rewrite (nlu_initial_input _ _ Hin) in Hloop.
  apply (nlu_loop_closed {[t]}) in Hloop as [Hg Hout].
  - split.
    + by apply fill_defaults_closed_upto.
    + rewrite fill_defaults_dom. set_solver.
  - apply closed_upto_nil.
  - right. set_solver.
Qed.

Lemma nlu_compile_keys project cfg ns input only schema out pipeline :
  cfg_pipeline cfg = Some pipeline →
  nlu_compile project cfg ns input only = Some (schema, out) →
  ∀ k, k ∈ dom schema ↔
       (truthy input = false ∧ k = "load_data") ∨
       nlu_emits ns only 0 pipeline k.
Proof.
  intros Hp (pipeline' & g & Hp' & Hloop & ->)%nlu_compile_Some k.
  simplify_eq. rewrite fill_defaults_dom.
  destruct (nlu_initial project input) as [g0 out0] eqn:Hg0.
  rewrite (nlu_loop_keys _ _ _ _ _ _ _ _ Hloop).
  unfold nlu_initial in Hg0.
  destruct input as [[|a t0]|]; simplify_eq/=;
    rewrite ?dom_singleton_L, ?dom_empty_L; set_solver.
Qed.

End NluCompiler.

(** ** The Core/policy compiler *)

Section CoreCompiler.

Variable get_component_class : string → option component_class.
Variable policy_from_module_path : string → option policy_class.

Abbreviation core_step := (core_step policy_from_module_path).
Abbreviation core_loop := (core_loop policy_from_module_path).
Abbreviation core_emits := (core_emits policy_from_module_path).

Lemma core_step_Some i e g names e2e st :
  core_step i e (g, names, e2e) = Some st ↔
  ∃ p cls,
    e !! "name" = Some (PStr p) ∧ policy_from_module_path p = Some cls ∧
    st = (update g {[p +:+ "_" +:+ str i :=
                       policy_task cls (delete "name" e)]},
          names ++ [p +:+ "_" +:+ str i],
          if declares_e2e_features cls then true else e2e).
Proof.
  unfold core_step, core_body.
  destruct (pop_name e) as [[p e']|] eqn:Hpop; cbn [mbind option_bind].
  - apply pop_name_Some in Hpop as [Hp ->].
    destruct (policy_from_module_path p) as [cls|] eqn:Hcls;
      cbn [mbind option_bind].
    + split.
      * intros [= <-]. by exists p, cls.
      * intros (p' & cls' & ? & ? & ->). by simplify_eq.
    + split; [done|]. intros (p' & cls' & ? & ? & _). by simplify_eq.
  - split; [done|]. intros (p' & cls' & Hp & _).
    unfold pop_name in Hpop. by rewrite Hp in Hpop.
Qed.

Lemma core_emits_nil i k cls rest : ¬ core_emits i [] k cls rest.
Proof. by intros (j & e & p & ? & _). Qed.

Lemma core_emits_cons i e l k cls rest :
  core_emits i (e :: l) k cls rest ↔
  (∃ p, e !! "name" = Some (PStr p) ∧
        policy_from_module_path p = Some cls ∧
        k = p +:+ "_" +:+ str i ∧ rest = delete "name" e) ∨
  core_emits (S i) l k cls rest.
Proof.
  split.
  - intros ([|j] & e' & p & Hj & He & Hc & Hk & Hr); simpl in Hj.
    + left. injection Hj as <-. exists p. by rewrite Nat.add_0_r in Hk.
    + right. exists j, e', p. by rewrite Nat.add_succ_r in Hk.
  - intros [(p & He & Hc & Hk & Hr)|(j & e' & p & Hj & He & Hc & Hk & Hr)].
    + exists 0, e, p. by rewrite Nat.add_0_r.
    + exists (S j), e', p. by rewrite Nat.add_succ_r.
Qed.

Lemma core_emits_index i l k cls rest :
  core_emits i l k cls rest → ∃ p j, k = p +:+ "_" +:+ str (i + j).
Proof. intros (j & e & p & _ & _ & _ & -> & _). eauto. Qed.

(** Peel one iteration off a successful run of the policy loop. *)
Ltac core_loop_head p cls0 He Hc :=
  let Hstep := fresh "Hstep" in
  simpl;
  lazymatch goal with
  | |- context [core_step ?i ?e ?st] =>
      destruct (core_step i e st) as [[[? ?] ?]|] eqn:Hstep;
      cbn [mbind option_bind]; [|done];
      apply core_step_Some in Hstep as (p & cls0 & He & Hc & [= -> -> ->])
  end.

Lemma core_loop_keys l :
  ∀ i g names e2e g' names' e2e',
  core_loop i l (g, names, e2e) = Some (g', names', e2e') →
  ∀ k, k ∈ dom g' ↔ k ∈ dom g ∨ ∃ cls rest, core_emits i l k cls rest.
Proof.
  induction l as [|e l IH]; intros i g names e2e g' names' e2e'.
  - intros [= <- <- <-] k. split; [auto|].
    intros [?|(cls & rest & []%core_emits_nil)]; done.
  - core_loop_head p cls0 He Hc. intros Hloop k.
    rewrite (IH _ _ _ _ _ _ _ Hloop), update_dom, dom_singleton_L,
      elem_of_union, elem_of_singleton.
    setoid_rewrite core_emits_cons. split.
    + intros [[?| ->]|(cls & rest & ?)]; [auto| |eauto].
      right. exists cls0, (delete "name" e). left. by exists p.
    + intros [?|(cls & rest & [(p' & ? & ? & -> & ->)|?])];
        [auto| |eauto].
      left. right. by simplify_eq.
Qed.

(** A name the loop does not emit keeps its task. *)
Lemma core_loop_other l :
  ∀ i g names e2e g' names' e2e',
  core_loop i l (g, names, e2e) = Some (g', names', e2e') →
  ∀ k, (∀ cls rest, ¬ core_emits i l k cls rest) → g' !! k = g !! k.
Proof.
  induction l as [|e l IH]; intros i g names e2e g' names' e2e'.
  - by intros [= <- <- <-].
  - core_loop_head p cls0 He Hc. intros Hloop k Hk.
    rewrite (IH _ _ _ _ _ _ _ Hloop k).
    + rewrite update_lookup, lookup_singleton_ne; [done|].
      intros <-. apply (Hk cls0 (delete "name" e)), core_emits_cons.
      left. by exists p.
    + intros cls rest Hem. apply (Hk cls rest), core_emits_cons. auto.
Qed.

(** Each policy's task is the one built for it: the index makes the names
    of different policies differ. *)
Lemma core_loop_lookup l :
  ∀ i g names e2e g' names' e2e',
  core_loop i l (g, names, e2e) = Some (g', names', e2e') →
  ∀ k cls rest, core_emits i l k cls rest →
  g' !! k = Some (policy_task cls rest).
Proof.
  induction l as [|e l IH]; intros i g names e2e g' names' e2e'.
  - by intros _ k cls rest []%core_emits_nil.
  - core_loop_head p cls0 He Hc. intros Hloop k cls rest.
    intros [(p' & He' & Hc' & -> & ->)|Hem]%core_emits_cons;
      [|by eapply IH].
    simplify_eq.
    rewrite (core_loop_other _ _ _ _ _ _ _ _ Hloop).
    + by rewrite update_lookup, lookup_singleton_eq.
    + intros cls' rest' (j & e' & p' & _ & _ & _ & [_ E]%indexed_name_inj & _).
      lia.
Qed.

Lemma core_loop_e2e l :
  ∀ i g names e2e g' names' e2e',
  core_loop i l (g, names, e2e) = Some (g', names', e2e') →
  e2e' = true ↔
  e2e = true ∨
  ∃ k cls rest, core_emits i l k cls rest ∧ declares_e2e_features cls = true.
Proof.
  induction l as [|e l IH]; intros i g names e2e g' names' e2e'.
  - intros [= <- <- <-]. split; [auto|].
    intros [?|(k & cls & rest & []%core_emits_nil & _)]; done.
  - core_loop_head p cls0 He Hc. intros Hloop.
    rewrite (IH _ _ _ _ _ _ _ Hloop).
    setoid_rewrite core_emits_cons. split.
    + intros [Hd|(k & cls & rest & ? & ?)]; [|eauto 10].
      destruct (declares_e2e_features cls0) eqn:Hdec; [|auto].
      right. exists (p +:+ "_" +:+ str i), cls0, (delete "name" e).
      split; [left; by exists p|done].
    + intros [ ->|(k & cls & rest & [(p' & ? & ? & -> & ->)|?] & Hd)].
      * left. by destruct (declares_e2e_features cls0).
      * left. simplify_eq. by rewrite Hd.
      * right. eauto.
Qed.

Lemma core_loop_names l :
  ∀ i g names e2e g' names' e2e',
  core_loop i l (g, names, e2e) = Some (g', names', e2e') →
  names' = names ++ policy_task_names i l.
Proof.
  induction l as [|e l IH]; intros i g names e2e g' names' e2e'.
  - intros [= <- <- <-]. simpl. by rewrite app_nil_r.
  - core_loop_head p cls0 He Hc. intros ->%IH.
    by rewrite He, <- app_assoc.
Qed.

Lemma core_loop_closed l :
  ∀ i g names e2e g' names' e2e',
  closed_upto (e2e_ext e2e) g →
  "generate_trackers" ∈ dom g → "load_domain" ∈ dom g →
  core_loop i l (g, names, e2e) = Some (g', names', e2e') →
  closed_upto (e2e_ext e2e') g'.
Proof.
  induction l as [|e l IH]; intros i g names e2e g' names' e2e' Hg Hgt Hld.
  - by intros [= <- <- <-].
  - core_loop_head p cls0 He Hc. apply IH.
    + intros k t q v. rewrite update_lookup, update_dom.
      destruct (decide (k = p +:+ "_" +:+ str i)) as [->|Hne].
      * rewrite lookup_singleton_eq. intros [= <-].
        intros [->|[->|[-> ->]]]%policy_task_needs;
          [set_solver..|]. right. set_solver.
      * rewrite lookup_singleton_ne by done. intros Hk Hv.
        destruct (Hg _ _ _ _ Hk Hv) as [?|Hx]; [set_solver|].
        right. unfold e2e_ext in *.
        destruct e2e; [|set_solver].
        by destruct (declares_e2e_features cls0).
    + rewrite update_dom. set_solver.
    + rewrite update_dom. set_solver.
Qed.

Abbreviation nlu_sub_compile project cfg :=
  (nlu_config_to_train_graph_schema get_component_class project cfg
     (Some "core") (Some "convert_stories_for_nlu") true).
Abbreviation core_compile :=
  (core_config_to_train_graph_schema get_component_class
     policy_from_module_path).

Lemma core_compile_Some project cfg schema names :
  core_compile project cfg = Some (schema, names) ↔
  ∃ policies G e2e,
    cfg_policies cfg = Some policies ∧
    core_loop 0 policies (core_base project, [], false)
      = Some (G, names, e2e) ∧
    if e2e then
      ∃ nlu_schema nlu_out,
        nlu_sub_compile project cfg = Some (nlu_schema, nlu_out) ∧
        schema = fill_defaults
          (<["create_e2e_lookup" := create_e2e_lookup_task nlu_out]>
             (update (<["convert_stories_for_nlu" :=
                          convert_stories_for_nlu_task]> G) nlu_schema))
    else schema = fill_defaults G.
Proof.
  unfold core_config_to_train_graph_schema.
  destruct (cfg_policies cfg) as [policies|]; cbn [mbind option_bind].
  2: { split; [done|]. by intros (? & ? & ? & ? & _). }
  destruct (core_loop 0 policies _) as [[[G names0] e2e]|] eqn:Hloop;
    cbn [mbind option_bind].
  2: { split; [done|]. intros (? & ? & ? & [= <-] & ? & _). congruence. }
  destruct e2e.
  - destruct (nlu_sub_compile project cfg) as [[nlu_schema nlu_out]|]
      eqn:Hnlu; cbn [mbind option_bind].
    + split.
      * intros [= <- <-]. exists policies, G, true. split_and!; [done..|].
        by exists nlu_schema, nlu_out.
      * intros (? & ? & e2e & [= <-] & Hl & H). rewrite Hloop in Hl.
        simplify_eq. destruct H as (? & ? & [= <- <-] & ->). done.
    + split; [done|]. intros (? & ? & e2e & [= <-] & Hl & H).
      rewrite Hloop in Hl. simplify_eq. by destruct H as (? & ? & ? & _).
  - split.
    + intros [= <- <-]. by exists policies, G, false.
    + intros (? & ? & e2e & [= <-] & Hl & H). rewrite Hloop in Hl.
      by simplify_eq.
Qed.

Lemma core_base_dom project :
  dom (core_base project)
  = {["generate_trackers"; "load_stories"; "load_domain"]}.
Proof.
  unfold core_base. rewrite !dom_insert_L, dom_singleton_L. set_solver.
Qed.

Lemma core_base_closed project : closed_upto ∅ (core_base project).
Proof.
  intros k t p v. unfold core_base.
  rewrite !lookup_insert_Some, lookup_singleton_Some.
  rewrite !dom_insert_L, dom_singleton_L.
  intros [[_ <-]|[_ [[_ <-]|[_ [_ <-]]]]]; simpl;
    rewrite ?lookup_insert_Some, ?lookup_singleton_Some, ?lookup_empty;
    [|done..].
  intros [[_ <-]|[_ [_ <-]]]; set_solver.
Qed.

(** The Core schema is closed. *)
Lemma core_compile_closed project cfg schema names :
  core_compile project cfg = Some (schema, names) → closed schema.
Proof.
  intros (policies & G & e2e & _ & Hloop & Hfin)%core_compile_Some.
  pose proof (core_loop_keys _ _ _ _ _ _ _ _ Hloop) as Hkeys.
  assert ({["generate_trackers"; "load_stories"; "load_domain"]} ⊆ dom G)
    as Hbase.
  { intros k Hk. apply Hkeys. left. by rewrite core_base_dom. }
  apply core_loop_closed in Hloop;
    [|apply core_base_closed|rewrite core_base_dom; set_solver..].
  destruct e2e; simpl in Hloop.
  - destruct Hfin as (nlu_schema & nlu_out & Hnlu & ->).
    apply nlu_compile_closed_upto in Hnlu as [Hn Hout]; [|done].
    apply closed_upto_empty, fill_defaults_closed_upto.
    rewrite !insert_update.
    eapply closed_upto_weaken.
    { apply closed_upto_update; [apply closed_upto_update|];
        [apply closed_upto_update| |]; [exact Hloop| | exact Hn |];
        apply closed_upto_singleton. }
    intros v Hv. left. rewrite !update_dom, !dom_singleton_L.
    revert Hv. simpl. rewrite !map_to_list_singleton. simpl.
    set_solver.
  - subst. by apply closed_upto_empty, fill_defaults_closed_upto.
Qed.

Abbreviation fixed_core_tasks :=
  ({["generate_trackers"; "load_stories"; "load_domain"]} : gset string).

(** What a successful Core compile went through, with the E2E flag read
    off the policies. *)
Lemma core_compile_inv project cfg schema names :
  core_compile project cfg = Some (schema, names) →
  ∃ policies G,
    cfg_policies cfg = Some policies ∧
    names = policy_task_names 0 policies ∧
    (∀ k, k ∈ dom G ↔
          k ∈ fixed_core_tasks ∨ ∃ cls rest, core_emits 0 policies k cls rest) ∧
    (∀ k cls rest, core_emits 0 policies k cls rest →
                   G !! k = Some (policy_task cls rest)) ∧
    ((¬ some_policy_declares_e2e policy_from_module_path policies ∧
      schema = fill_defaults G) ∨
     (some_policy_declares_e2e policy_from_module_path policies ∧
      ∃ nlu_schema nlu_out,
        nlu_sub_compile project cfg = Some (nlu_schema, nlu_out) ∧
        schema = fill_defaults
          (<["create_e2e_lookup" := create_e2e_lookup_task nlu_out]>
             (update (<["convert_stories_for_nlu" :=
                          convert_stories_for_nlu_task]> G) nlu_schema)))).
Proof.
  intros (policies & G & e2e & Hp & Hloop & Hfin)%core_compile_Some.
  exists policies, G. split_and!; [done|..].
  - by rewrite (core_loop_names _ _ _ _ _ _ _ _ Hloop).
  - intros k. rewrite (core_loop_keys _ _ _ _ _ _ _ _ Hloop k).
    by rewrite core_base_dom.
  - by apply (core_loop_lookup _ _ _ _ _ _ _ _ Hloop).
  - pose proof (core_loop_e2e _ _ _ _ _ _ _ _ Hloop) as He2e.
    destruct e2e.
    + right. split; [|done]. destruct He2e as [[?|?] _]; done.
    + left. split; [|done]. intros H.
      destruct He2e as [_ He2e]. by discriminate He2e; right.
Qed.

Lemma core_emits_key k policies cls rest :
  core_emits 0 policies k cls rest →
  ∃ i pe p, policies !! i = Some pe ∧ pe !! "name" = Some (PStr p) ∧
            k = p +:+ "_" +:+ str i.
Proof. intros (j & e & p & ? & ? & _ & -> & _). by exists j, e, p. Qed.

Lemma nlu_sub_compile_keys project cfg nlu_schema nlu_out k :
  nlu_sub_compile project cfg = Some (nlu_schema, nlu_out) →
  k ∈ dom nlu_schema ↔
  ∃ pipeline, cfg_pipeline cfg = Some pipeline ∧
              nlu_emits get_component_class (Some "core") true 0 pipeline k.
Proof.
  intros Hnlu.
  destruct (proj1 (nlu_compile_Some _ _ _ _ _ _ _ _) Hnlu)
    as (pipeline & _ & Hp & _).
  rewrite (nlu_compile_keys _ _ _ _ _ _ _ _ _ Hp Hnlu). split.
  - intros [[[=] _]|?]. by exists pipeline.
  - intros (pipeline' & ? & ?). right. by simplify_eq.
Qed.

(** The keys of the Core schema. *)
Lemma core_compile_keys project cfg schema names policies k :
  core_compile project cfg = Some (schema, names) →
  cfg_policies cfg = Some policies →
  k ∈ dom schema ↔
  k ∈ fixed_core_tasks ∨
  (∃ cls rest, core_emits 0 policies k cls rest) ∨
  (some_policy_declares_e2e policy_from_module_path policies ∧
   (k = "convert_stories_for_nlu" ∨ k = "create_e2e_lookup" ∨
    ∃ pipeline, cfg_pipeline cfg = Some pipeline ∧
                nlu_emits get_component_class (Some "core") true 0
                  pipeline k)).
Proof.
  intros (policies' & G & Hp & _ & Hdom & _ & Hfin)%core_compile_inv Hp'.
  simplify_eq.
  destruct Hfin as [[Hno ->]|(He2e & nlu_schema & nlu_out & Hnlu & ->)];
    rewrite fill_defaults_dom.
  - rewrite Hdom. tauto.
  - rewrite dom_insert_L, update_dom, dom_insert_L, !elem_of_union,
      !elem_of_singleton, Hdom,
      (nlu_sub_compile_keys _ _ _ _ _ Hnlu), !elem_of_union,
      !elem_of_singleton.
    tauto.
Qed.

(** A policy's task is a task of the Core schema. *)
Lemma core_schema_policy_dom project cfg schema names policies k cls rest :
  core_compile project cfg = Some (schema, names) →
  cfg_policies cfg = Some policies →
  core_emits 0 policies k cls rest → k ∈ dom schema.
Proof.
  intros Hc Hp Hem. rewrite (core_compile_keys _ _ _ _ _ _ Hc Hp). eauto.
Qed.

(** ... and it is the task built for the policy, unless a task of the E2E
    sub-compile bears the same name. *)
Lemma core_schema_policy project cfg schema names policies k cls rest :
  core_compile project cfg = Some (schema, names) →
  cfg_policies cfg = Some policies →
  (∀ pipeline, cfg_pipeline cfg = Some pipeline →
               names_apart (Some "core") policies pipeline) →
  core_emits 0 policies k cls rest →
  schema !! k = Some (fill_task (policy_task cls rest)).
Proof.
  intros (policies' & G & Hp & _ & _ & HG & Hfin)%core_compile_inv Hp'
    Hap Hem.
  simplify_eq. specialize (HG _ _ _ Hem).
  destruct Hfin as [[Hno ->]|(He2e & nlu_schema & nlu_out & Hnlu & ->)];
    apply fill_defaults_lookup_Some; [done|].
  destruct (core_emits_key _ _ _ _ Hem) as (i & pe & p & Hi & Hpe & ->).
  pose proof (policy_key_fixed p i) as Hfix.
  rewrite lookup_insert_ne by set_solver.
  rewrite update_lookup.
  destruct (nlu_schema !! _) as [t|] eqn:Ht.
  - apply (elem_of_dom_2 nlu_schema) in Ht.
    apply (nlu_sub_compile_keys _ _ _ _ _ Hnlu) in Ht
      as (pipeline & Hpl & Ht).
    by apply (policy_key_not_emitted _ _ _ _ _ _ _ _ (Hap _ Hpl) Hi Hpe)
      in Ht.
  - by rewrite lookup_insert_ne by set_solver.
Qed.

(** The two auxiliary tasks of an E2E-enabled compile. *)
Lemma core_schema_e2e project cfg schema names policies :
  core_compile project cfg = Some (schema, names) →
  cfg_policies cfg = Some policies →
  some_policy_declares_e2e policy_from_module_path policies →
  schema !! "convert_stories_for_nlu"
    = Some (fill_task convert_stories_for_nlu_task) ∧
  ∃ nlu_schema nlu_out,
    nlu_sub_compile project cfg = Some (nlu_schema, nlu_out) ∧
    schema !! "create_e2e_lookup"
      = Some (fill_task (create_e2e_lookup_task nlu_out)).
Proof.
  intros (policies' & G & Hp & _ & _ & _ & Hfin)%core_compile_inv Hp' He2e.
  simplify_eq.
  destruct Hfin as [[Hno ->]|(_ & nlu_schema & nlu_out & Hnlu & ->)];
    [done|].
  split.
  - apply fill_defaults_lookup_Some.
    rewrite lookup_insert_ne by done. rewrite update_lookup.
    destruct (nlu_schema !! _) as [t|] eqn:Ht.
    + apply (elem_of_dom_2 nlu_schema) in Ht.
      apply (nlu_sub_compile_keys _ _ _ _ _ Hnlu) in Ht
        as (pipeline & _ & Ht%emitted_not_fixed).
      set_solver.
    + by rewrite lookup_insert_eq.
  - exists nlu_schema, nlu_out. split; [done|].
    apply fill_defaults_lookup_Some. by rewrite lookup_insert_eq.
Qed.

Lemma core_schema_no_e2e project cfg schema names policies :
  core_compile project cfg = Some (schema, names) →
  cfg_policies cfg = Some policies →
  ¬ some_policy_declares_e2e policy_from_module_path policies →
  ("convert_stories_for_nlu" ∉ dom schema) ∧
  ("create_e2e_lookup" ∉ dom schema).
Proof.
  intros Hc Hp Hno.
  rewrite !(core_compile_keys _ _ _ _ _ _ Hc Hp).
  split; intros [?|[(cls & rest & (i & pe & p & _ & _ & Hk)%core_emits_key)
                   |[? _]]];
    try done; try set_solver;
    pose proof (policy_key_fixed p i) as Hfix; rewrite <- Hk in Hfix;
    set_solver.
Qed.

(** The Core schema and the top-level NLU schema share no task name when
    no policy is named like a task of the pipeline entry at its index. *)
Lemma schemas_disjoint project cfg core_schema core_outs nlu_schema nlu_out
    policies pipeline :
  core_compile project cfg = Some (core_schema, core_outs) →
  nlu_config_to_train_graph_schema get_component_class project cfg
    None None false = Some (nlu_schema, nlu_out) →
  cfg_policies cfg = Some policies → cfg_pipeline cfg = Some pipeline →
  names_apart None policies pipeline →
  dom core_schema ## dom nlu_schema.
Proof.
  intros Hc Hn Hpo Hpl Hap k.
  rewrite (core_compile_keys _ _ _ _ _ k Hc Hpo),
    (nlu_compile_keys _ _ _ _ _ _ _ _ _ Hpl Hn k).
  intros Hcore [[_ ->]|Hem].
  - destruct Hcore
      as [?|[(cls & rest & (i & pe & p & _ & _ & Hk)%core_emits_key)
            |[_ [?|[?|(pl & _ & Hs%emitted_not_fixed)]]]]];
      try done; try set_solver.
    pose proof (policy_key_fixed p i) as Hfix. rewrite <- Hk in Hfix.
    set_solver.
  - destruct Hcore
      as [?|[(cls & rest & (i & pe & p & Hi & Hpe & ->)%core_emits_key)
            |[_ [ ->|[ ->|(pl & Hpl' & Hs)]]]]].
    + apply emitted_not_fixed in Hem. set_solver.
    + by apply (policy_key_not_emitted _ _ _ _ _ _ _ _ Hap Hi Hpe) in Hem.
    + apply emitted_not_fixed in Hem. set_solver.
    + apply emitted_not_fixed in Hem. set_solver.
    + simplify_eq.
      apply nlu_emits_name in Hem as (j & e & c & Hj & He & Hk).
      apply nlu_emits_name in Hs as (j' & e' & c' & Hj' & He' & Hk').
      assert (unique_name None c (0 + j)
              = unique_name (Some "core") c' (0 + j') → False) as Hu.
      { intros Heq. symmetry in Heq.
        apply unique_name_core_ne in Heq as [Hcc Hjj].
        simpl in Hjj. simplify_eq. by eapply core_prefix_ne. }
      destruct Hk as [ ->| ->], Hk' as [Hk'|Hk'];
        first [ by apply train_inj, Hu in Hk'
              | by apply process_inj, Hu in Hk'
              | by apply train_ne_process in Hk'
              | symmetry in Hk'; by apply train_ne_process in Hk' ].
Qed.

End CoreCompiler.

(** ** The compilers over the store *)

Section Store.

Abbreviation nlu_by_value := nlu_config_to_train_graph_schema.
Abbreviation core_by_value := core_config_to_train_graph_schema.
Abbreviation old_by_value := old_config_to_graph_schema.
Abbreviation pipeline_by_value := cfg_pipeline.
Abbreviation policies_by_value := cfg_policies.

Import Heap.

Implicit Types (h : heap) (l : loc) (memo : gmap loc loc).

Lemma bind_fst {A B} (m : M A) (f : A → M B) h :
  (bind m f h).1 = match (m h).1 with
                   | Some a => (f a (m h).2).1
                   | None => None
                   end.
Proof. unfold bind. by destruct (m h) as [[a|] h']. Qed.

Lemma bind_snd {A B} (m : M A) (f : A → M B) h :
  (bind m f h).2 = match (m h).1 with
                   | Some a => (f a (m h).2).2
                   | None => (m h).2
                   end.
Proof. unfold bind. by destruct (m h) as [[a|] h']. Qed.

(** *** The store only grows under the original entries *)

Lemma alloc_frame h0 h e : h0 ⊆ h → h0 ⊆ (alloc e h).2.
Proof.
  intros Hsub. unfold alloc. simpl.
  etrans; [exact Hsub|]. apply insert_subseteq.
  apply not_elem_of_dom, is_fresh.
Qed.

Lemma alloc_fresh h0 h : h0 ⊆ h → fresh (dom h) ∉ dom h0.
Proof.
  intros Hsub Hin. apply (is_fresh (dom h)).
  by apply (subseteq_dom _ _ Hsub).
Qed.

Lemma pop_frame h0 h l key : h0 ⊆ h → l ∉ dom h0 → h0 ⊆ (pop l key h).2.
Proof.
  intros Hsub Hl. unfold pop.
  destruct (h !! l) as [e|] eqn:He; [|done].
  destruct (e !! key) as [v|]; [|done]. simpl.
  apply map_subseteq_spec. intros k x Hk.
  rewrite lookup_insert_ne.
  - by eapply lookup_weaken.
  - intros ->. by apply Hl, elem_of_dom.
Qed.

Lemma deepcopy_frame h0 ls :
  ∀ memo h,
  h0 ⊆ h → (∀ l l', memo !! l = Some l' → l' ∉ dom h0) →
  h0 ⊆ (deepcopy ls memo h).2 ∧
  ∀ ls', (deepcopy ls memo h).1 = Some ls' → ∀ l', l' ∈ ls' → l' ∉ dom h0.
Proof.
  induction ls as [|l ls IH]; intros memo h Hsub Hmemo; simpl.
  - split; [done|]. intros ls' [= <-] l' Hl'. by apply elem_of_nil in Hl'.
  - destruct (memo !! l) as [l1|] eqn:Hl.
    + destruct (IH memo h Hsub Hmemo) as [Hfr Hout].
      rewrite bind_fst, bind_snd.
      destruct (deepcopy ls memo h).1 as [rest'|]; [|done].
      split; [done|]. intros ls' [= <-] l' [->|Hl']%elem_of_cons; eauto.
    + rewrite !bind_fst, !bind_snd. unfold read at 1 2 3 4. simpl.
      destruct (h !! l) as [e|] eqn:He; [|done].
      rewrite !bind_fst, !bind_snd. simpl.
      set (l1 := fresh (dom h)). set (h1 := <[l1 := e]> h).
      assert (h0 ⊆ h1) as Hsub1 by by apply (alloc_frame h0 h e).
      assert (l1 ∉ dom h0) as Hl1 by by apply (alloc_fresh h0 h).
      destruct (IH (<[l := l1]> memo) h1 Hsub1) as [Hfr Hout].
      { intros k k' [[_ <-]|[_ ?]]%lookup_insert_Some; eauto. }
      rewrite !bind_fst, !bind_snd.
      destruct (deepcopy ls (<[l := l1]> memo) h1).1 as [rest'|]; [|done].
      split; [done|]. intros ls' [= <-] l' [->|Hl']%elem_of_cons; eauto.
Qed.

Lemma step_frame {St} (body : string → entry → St → option St) h0 h l st :
  h0 ⊆ h → l ∉ dom h0 → h0 ⊆ (step body l st h).2.
Proof.
  intros Hsub Hl. unfold step. rewrite bind_snd.
  pose proof (pop_frame h0 h l "name" Hsub Hl) as Hpop.
  destruct (pop l "name" h).1 as [[n| | |]|]; try done.
  rewrite bind_snd. unfold read. simpl. by destruct (_ !! l).
Qed.

Lemma loop_frame {St} (body : nat → string → entry → St → option St) h0 ls :
  ∀ i st h,
  h0 ⊆ h → (∀ l, l ∈ ls → l ∉ dom h0) → h0 ⊆ (loop body i ls st h).2.
Proof.
  induction ls as [|l ls IH]; intros i st h Hsub Hls; simpl; [done|].
  rewrite bind_snd.
  pose proof (step_frame (body i) h0 h l st Hsub) as Hstep.
  destruct (step (body i) l st h).1 as [st'|].
  - apply IH; [|set_solver]. apply Hstep. set_solver.
  - apply Hstep. set_solver.
Qed.

(** *** What the copy is *)

Lemma deepcopy_spec h0 ls :
  ∀ memo h,
  copy_inv h0 memo h → (∀ l, l ∈ ls → l ∈ dom h0) →
  ∃ memo',
    (deepcopy ls memo h).1 = Some (copy_of memo' <$> ls) ∧
    copy_inv h0 memo' (deepcopy ls memo h).2 ∧
    memo ⊆ memo' ∧ ∀ l, l ∈ ls → is_Some (memo' !! l).
Proof.
  induction ls as [|l ls IH]; intros memo h Hinv Hwf; simpl.
  - exists memo. split_and!; [done..|].
    intros l Hl. by apply elem_of_nil in Hl.
  - destruct (memo !! l) as [l1|] eqn:Hl.
    + destruct (IH memo h Hinv) as (memo' & Hres & Hinv' & Hsub & Hall);
        [set_solver|].
      exists memo'. rewrite bind_fst, bind_snd, Hres. simpl.
      assert (memo' !! l = Some l1) as Hl' by by eapply lookup_weaken.
      split_and!; [|done..|].
      * assert (copy_of memo' l = l1) as Hcopy
          by (unfold copy_of; by rewrite Hl').
        by rewrite Hcopy.
      * intros k [->|Hk]%elem_of_cons; eauto.
    + assert (is_Some (h0 !! l)) as [e He].
      { apply elem_of_dom, Hwf. set_solver. }
      destruct Hinv as [Hsub Hmemo].
      assert (h !! l = Some e) as Hhl by by eapply lookup_weaken.
      rewrite !bind_fst, !bind_snd. unfold read at 1 2 3 4. simpl.
      rewrite Hhl. rewrite !bind_fst, !bind_snd. simpl.
      set (l1 := fresh (dom h)). set (h1 := <[l1 := e]> h).
      assert (l1 ∉ dom h) as Hfresh by apply is_fresh.
      assert (h ⊆ h1) as Hsub1.
      { apply insert_subseteq. by apply not_elem_of_dom. }
      destruct (IH (<[l := l1]> memo) h1)
        as (memo' & Hres & Hinv' & Hsub' & Hall); [|set_solver|].
      { split; [by etrans|].
        intros k k' [[-> <-]|[Hne Hk]]%lookup_insert_Some.
        - split_and!.
          + by rewrite He.
          + intros Hin. apply Hfresh.
            by apply (subseteq_dom _ _ Hsub).
          + unfold h1. by rewrite lookup_insert_eq, He.
          + intros l2 [[-> _]|[_ Hl2]]%lookup_insert_Some; [done|].
            destruct (Hmemo _ _ Hl2) as ([e2 He2] & _ & Hc & _).
            exfalso. apply Hfresh, elem_of_dom. rewrite Hc, He2. eauto.
        - destruct (Hmemo _ _ Hk) as (Hs & Hk' & Hc & Hinj).
          assert (k' ≠ l1) as Hkl.
          { intros ->. apply Hfresh, elem_of_dom.
            rewrite Hc. by destruct Hs as [? ->]. }
          split_and!; [done..| |].
          + unfold h1. by rewrite lookup_insert_ne.
          + intros l2 [[_ ?]|[_ Hl2]]%lookup_insert_Some; [done|eauto]. }
      exists memo'. rewrite !bind_fst, !bind_snd, Hres. simpl.
      assert (memo' !! l = Some l1) as Hl'.
      { eapply lookup_weaken; [|done]. apply lookup_insert_eq. }
      split_and!; [|done| |].
      * assert (copy_of memo' l = l1) as Hcopy
          by (unfold copy_of; by rewrite Hl').
        by rewrite Hcopy.
      * etrans; [|done]. by apply insert_subseteq.
      * intros k [->|Hk]%elem_of_cons; eauto.
Qed.

(** The copy of a list of entries of the store: new cells with the same
    contents and the same sharing. *)
Lemma copy_spec h ls :
  (∀ l, l ∈ ls → l ∈ dom h) →
  ∃ ls',
    (deepcopy ls ∅ h).1 = Some ls' ∧
    (NoDup ls' ↔ NoDup ls) ∧
    contents (deepcopy ls ∅ h).2 ls' = contents h ls ∧
    ∀ l', l' ∈ ls' → is_Some ((deepcopy ls ∅ h).2 !! l').
Proof.
  intros Hwf.
  destruct (deepcopy_spec h ls ∅ h) as (memo & Hres & [_ Hinv] & _ & Hall);
    [by split|done|].
  exists (copy_of memo <$> ls). split_and!; [done| | |].
  - split; [apply NoDup_fmap_1|].
    apply NoDup_fmap_2_strong. intros l1 l2 [l1' H1]%Hall [l2' H2]%Hall.
    unfold copy_of. rewrite H1, H2. simpl. intros ->.
    destruct (Hinv _ _ H2) as (_ & _ & _ & Hinj). by apply Hinj.
  - unfold contents. rewrite <- list_fmap_compose.
    apply list_fmap_ext. intros i l Hl. simpl.
    destruct (Hall l) as [l' Hl']; [by eapply list_elem_of_lookup_2|].
    unfold copy_of. rewrite Hl'. simpl.
    destruct (Hinv _ _ Hl') as (_ & _ & Hc & _).
    by rewrite !lookup_total_alt, Hc.
  - intros l' (l & -> & Hl)%list_elem_of_fmap.
    destruct (Hall l Hl) as [l1 Hl1]. unfold copy_of. rewrite Hl1. simpl.
    destruct (Hinv _ _ Hl1) as (Hs & _ & Hc & _). by rewrite Hc.
Qed.

(** *** What the loop computes *)

Lemma step_run {St} (body : string → entry → St → option St) h l st :
  step body l st h =
  match h !! l with
  | Some e =>
      match e !! "name" with
      | Some (PStr n) =>
          (body n (delete "name" e) st, <[l := delete "name" e]> h)
      | Some _ => (None, <[l := delete "name" e]> h)
      | None => (None, h)
      end
  | None => (None, h)
  end.
Proof.
  unfold step, bind, pop, read, lift, raise.
  destruct (h !! l) as [e|]; [|done].
  destruct (e !! "name") as [[]|]; simpl; by rewrite ?lookup_insert_eq.
Qed.

Lemma loop_cons {St} (body : nat → string → entry → St → option St)
    i l ls st h :
  (loop body i (l :: ls) st h).1 =
  match (step (body i) l st h).1 with
  | Some st' => (loop body (S i) ls st' (step (body i) l st h).2).1
  | None => None
  end.
Proof. simpl. by rewrite bind_fst. Qed.

(** The loop over the cells [ls], none of them popped yet except those of
    [D], computes what the loop over their contents computes, unless a
    cell occurs twice or is already popped: then some [pop] raises. *)
Lemma loop_spec {St} (body : nat → string → entry → St → option St)
    (c : loc → entry) ls :
  ∀ i st h (D : gset loc),
  (∀ l, l ∈ D → ∃ e, h !! l = Some e ∧ e !! "name" = None) →
  (∀ l, l ∈ ls → l ∉ D → h !! l = Some (c l)) →
  (loop body i ls st h).1 =
  if decide (NoDup ls ∧ Forall (λ l, l ∉ D) ls)
  then for_entries body i (c <$> ls) st
  else None.
Proof.
  induction ls as [|l ls IH]; intros i st h D HD Hc.
  - case_decide as Hd; [done|].
    exfalso. apply Hd. split; constructor.
  - rewrite loop_cons, step_run.
    destruct (decide (l ∈ D)) as [Hl|Hl].
    { destruct (HD l Hl) as (e & -> & ->). simpl.
      case_decide as Hd; [|done].
      destruct Hd as [_ Hd]. by apply Forall_cons_1 in Hd as [? _]. }
    rewrite (Hc l) by (done || set_solver).
    assert (pop_name (c l) =
            match c l !! "name" with
            | Some (PStr n) => Some (n, delete "name" (c l))
            | _ => None
            end) as Hpop by done.
    cbn [for_entries fmap list_fmap]. rewrite Hpop.
    destruct (c l !! "name") as [[n| | |]|] eqn:Hname;
      cbn [fst snd mbind option_bind]; try by case_decide.
    destruct (body i n (delete "name" (c l)) st) as [st'|] eqn:Hb;
      cbn [mbind option_bind]; [|by case_decide].
    rewrite (IH (S i) st' _ (D ∪ {[l]})).
    + case_decide as H1; case_decide as H2; try done; exfalso.
      * apply H2. destruct H1 as [Hnd HF]. split.
        -- apply NoDup_cons_2; [|done].
           intros Hin. rewrite list.Forall_forall in HF.
           apply (HF l Hin). set_solver.
        -- constructor; [done|].
           eapply list.Forall_impl; [exact HF|]. set_solver.
      * apply H1. destruct H2 as [Hnd HF].
        pose proof (NoDup_cons_1_1 _ _ Hnd) as Hnl.
        apply NoDup_cons_1_2 in Hnd. apply Forall_cons_1 in HF as [_ HF].
        split; [done|]. rewrite list.Forall_forall in HF |- *.
        intros k Hk. specialize (HF k Hk). set_solver.
    + intros k [Hk|Hk%elem_of_singleton]%elem_of_union.
      * destruct (HD k Hk) as (e & He & Hn). exists e.
        rewrite lookup_insert_ne by (intros ->; done). done.
      * subst k. exists (delete "name" (c l)).
        by rewrite lookup_insert_eq, lookup_delete_eq.
    + intros k Hk Hnk.
      rewrite lookup_insert_ne by set_solver.
      apply Hc; set_solver.
Qed.

Variable get_component_class : string → option component_class.
Variable policy_from_module_path : string → option policy_class.

Abbreviation nlu_run :=
  (Heap.nlu_config_to_train_graph_schema get_component_class).
Abbreviation core_run :=
  (Heap.core_config_to_train_graph_schema get_component_class
     policy_from_module_path).
Abbreviation old_run :=
  (Heap.old_config_to_graph_schema get_component_class
     policy_from_module_path).

(** *** The runs against the compilers by value *)

Lemma nlu_loop_for_entries ns only es :
  ∀ i st,
  nlu_loop get_component_class ns only i es st
  = for_entries (nlu_body get_component_class ns only) i es st.
Proof.
  induction es as [|e es IH]; intros i st; simpl; [done|].
  unfold nlu_step.
  destruct (pop_name e ≫= _) as [st'|]; simpl; [apply IH|done].
Qed.

Lemma core_loop_for_entries es :
  ∀ i st,
  core_loop policy_from_module_path i es st
  = for_entries (core_body policy_from_module_path) i es st.
Proof.
  induction es as [|e es IH]; intros i st; simpl; [done|].
  unfold core_step.
  destruct (pop_name e ≫= _) as [st'|]; simpl; [apply IH|done].
Qed.

(** Copy, then loop: the loop over the contents, unless an entry is
    shared. *)
Lemma copy_loop_spec {St}
    (body : nat → string → entry → St → option St) ls st h :
  (∀ l, l ∈ ls → l ∈ dom h) →
  (bind (deepcopy ls ∅) (λ ls', loop body 0 ls' st) h).1 =
  if decide (NoDup ls) then for_entries body 0 (contents h ls) st
  else None.
Proof.
  intros Hwf. rewrite bind_fst.
  destruct (copy_spec h ls Hwf) as (ls' & -> & Hnd & Hc & Hsome).
  set (h' := (deepcopy ls ∅ h).2) in *.
  rewrite (loop_spec body (λ l, h' !!! l) ls' 0 st h' ∅).
  - fold (contents h' ls'). rewrite Hc.
    case_decide as H1; case_decide as H2; try done; exfalso.
    + apply H2, Hnd, H1.
    + apply H1. split; [by apply Hnd|].
      apply list.Forall_forall. set_solver.
  - set_solver.
  - intros l Hl _. destruct (Hsome l Hl) as [e He].
    by rewrite (lookup_total_correct _ _ _ He).
Qed.

Lemma contents_weaken h h' ls :
  h ⊆ h' → (∀ l, l ∈ ls → l ∈ dom h) → contents h' ls = contents h ls.
Proof.
  intros Hsub Hwf. apply list_fmap_ext. intros i l Hl.
  destruct (proj1 (elem_of_dom h l)) as [e He].
  { eapply Hwf, list_elem_of_lookup_2, Hl. }
  rewrite (lookup_total_correct _ _ _ He).
  apply lookup_total_correct. by eapply lookup_weaken.
Qed.

Lemma observed_weaken h h' config :
  h ⊆ h' → well_formed h config → observed h' config = observed h config.
Proof.
  intros Hsub [Hpl Hpo]. unfold observed. f_equal.
  - destruct (Heap.cfg_pipeline config) as [ls|] eqn:E; simpl; [|done].
    case_decide; [|done]. f_equal. apply contents_weaken; eauto.
  - destruct (Heap.cfg_policies config) as [ls|] eqn:E; simpl; [|done].
    case_decide; [|done]. f_equal. apply contents_weaken; eauto.
Qed.

Lemma well_formed_weaken h h' config :
  h ⊆ h' → well_formed h config → well_formed h' config.
Proof.
  intros Hsub [Hpl Hpo].
  split; intros ls l Hls Hl; eapply (subseteq_dom _ _ Hsub); eauto.
Qed.

Lemma observed_unshared h config :
  unshared config → observed h config = deref h config.
Proof.
  intros [Hpl Hpo]. unfold observed, deref. f_equal.
  - destruct (Heap.cfg_pipeline config) as [ls|] eqn:E; simpl; [|done].
    case_decide as Hd; [done|]. by destruct Hd; apply Hpl.
  - destruct (Heap.cfg_policies config) as [ls|] eqn:E; simpl; [|done].
    case_decide as Hd; [done|]. by destruct Hd; apply Hpo.
Qed.

Lemma copy_loop_frame {St}
    (body : nat → string → entry → St → option St) ls st h :
  h ⊆ (bind (deepcopy ls ∅) (λ ls', loop body 0 ls' st) h).2.
Proof.
  rewrite bind_snd.
  destruct (deepcopy_frame h ls ∅ h) as [Hfr Hout]; [done..|].
  destruct (deepcopy ls ∅ h).1 as [ls'|]; [|done].
  apply loop_frame; eauto.
Qed.

Lemma nlu_frame project config ns input only h :
  h ⊆ (nlu_run project config ns input only h).2.
Proof.
  unfold Heap.nlu_config_to_train_graph_schema.
  rewrite bind_snd. unfold lift at 1 2 3. simpl.
  destruct (Heap.cfg_pipeline config) as [ls|]; [|done].
  pose proof (copy_loop_frame
                (nlu_body get_component_class ns only) ls
                (nlu_initial project input) h) as Hfr.
  rewrite bind_snd in Hfr. rewrite bind_snd.
  destruct (deepcopy ls ∅ h).1 as [ls'|]; [|done].
  rewrite bind_snd.
  by destruct (loop _ 0 ls' _ _).1.
Qed.

Lemma core_frame project config h :
  h ⊆ (core_run project config h).2.
Proof.
  unfold Heap.core_config_to_train_graph_schema.
  rewrite bind_snd. unfold lift at 1 2 3. simpl.
  destruct (Heap.cfg_policies config) as [ls|]; [|done].
  pose proof (copy_loop_frame (core_body policy_from_module_path) ls
                (core_base project, [], false) h) as Hfr.
  rewrite bind_snd in Hfr. rewrite bind_snd.
  destruct (deepcopy ls ∅ h).1 as [ls'|]; [|done].
  rewrite bind_snd.
  destruct (loop _ 0 ls' _ _).1 as [[[g names] [|]]|]; [| |done].
  - rewrite !bind_snd, !bind_fst.
    set (h1 := (loop _ 0 ls' _ _).2) in *.
    pose proof (nlu_frame project config (Some "core")
                  (Some "convert_stories_for_nlu") true h1) as Hn.
    destruct (nlu_run _ _ _ _ _ h1).1; simpl; by etrans.
  - by rewrite bind_snd.
Qed.

Lemma old_frame project config h :
  h ⊆ (old_run project config h).2.
Proof.
  unfold Heap.old_config_to_graph_schema. rewrite bind_snd.
  pose proof (nlu_frame project config None None false h) as Hn.
  destruct (nlu_run _ _ _ _ _ h).1 as [n|]; [|done].
  rewrite bind_snd.
  set (h1 := (nlu_run _ _ _ _ _ h).2) in *.
  pose proof (core_frame project config h1) as Hc.
  destruct (core_run _ _ h1).1; simpl; by etrans.
Qed.

Lemma nlu_refines project config ns input only h :
  well_formed h config →
  (nlu_run project config ns input only h).1
  = nlu_by_value get_component_class project (observed h config)
      ns input only.
Proof.
  intros [Hwf _].
  unfold Heap.nlu_config_to_train_graph_schema, nlu_by_value, observed.
  rewrite bind_fst. unfold lift at 1 2. cbn [fst snd].
  destruct (Heap.cfg_pipeline config) as [ls|] eqn:Hls;
    cbn [pipeline_by_value mbind option_bind]; [|done].
  pose proof (copy_loop_spec
                (nlu_body get_component_class ns only) ls
                (nlu_initial project input) h
                (λ l, Hwf ls l eq_refl)) as Hspec.
  rewrite bind_fst in Hspec. rewrite bind_fst.
  destruct (deepcopy ls ∅ h).1 as [ls'|].
  - rewrite bind_fst, Hspec by eauto.
    case_decide; cbn [mbind option_bind]; [|done].
    rewrite nlu_loop_for_entries.
    by destruct (for_entries _ 0 _ _) as [[g out]|].
  - case_decide; cbn [mbind option_bind]; [|done].
    by rewrite nlu_loop_for_entries, <- Hspec.
Qed.

Lemma core_refines project config h :
  well_formed h config →
  (core_run project config h).1
  = core_by_value get_component_class policy_from_module_path project
      (observed h config).
Proof.
  intros Hwf. pose proof Hwf as [_ Hpo].
  unfold Heap.core_config_to_train_graph_schema, core_by_value.
  assert (policies_by_value (observed h config)
          = (ls ← Heap.cfg_policies config;
             if decide (NoDup ls) then Some (contents h ls) else None))
    as -> by done.
  rewrite bind_fst. unfold lift at 1 2. cbn [fst snd].
  destruct (Heap.cfg_policies config) as [ls|] eqn:Hls;
    cbn [mbind option_bind]; [|done].
  pose proof (copy_loop_spec (core_body policy_from_module_path) ls
                (core_base project, [], false) h
                (λ l, Hpo ls l eq_refl)) as Hspec.
  pose proof (copy_loop_frame (core_body policy_from_module_path) ls
                (core_base project, [], false) h) as Hfr.
  rewrite bind_fst in Hspec. rewrite bind_snd in Hfr. rewrite bind_fst.
  destruct (deepcopy ls ∅ h).1 as [ls'|].
  - rewrite bind_fst, Hspec.
    case_decide; cbn [mbind option_bind]; [|done].
    rewrite core_loop_for_entries.
    destruct (for_entries _ 0 _ _) as [[[g names] e2e]|] eqn:Hfor;
      cbn [mbind option_bind]; [|done].
    set (h2 := (loop _ 0 ls' _ _).2) in *.
    destruct e2e.
    + rewrite !bind_fst.
      rewrite (nlu_refines _ _ _ _ _ h2)
        by by eapply well_formed_weaken.
      rewrite (observed_weaken h h2) by done.
      by destruct (nlu_by_value _ _ _ _ _ _) as [[nlu_schema nlu_out]|].
    + by rewrite bind_fst.
  - case_decide; cbn [mbind option_bind]; [|done].
    by rewrite core_loop_for_entries, <- Hspec.
Qed.

Lemma old_refines project config h :
  well_formed h config →
  (old_run project config h).1
  = old_by_value get_component_class policy_from_module_path project
      (observed h config).
Proof.
  intros Hwf.
  unfold Heap.old_config_to_graph_schema, old_by_value.
  rewrite bind_fst, nlu_refines by done.
  pose proof (nlu_frame project config None None false h) as Hfr.
  destruct (nlu_by_value _ _ _ _ _ _) as [[nlu_schema nlu_out]|];
    cbn [mbind option_bind]; [|done].
  rewrite bind_fst, core_refines by by eapply well_formed_weaken.
  rewrite (observed_weaken h) by done.
  by destruct (core_by_value _ _ _ _) as [[core_schema core_outs]|].
Qed.

Lemma deref_weaken h h' config :
  h ⊆ h' → well_formed h config → deref h' config = deref h config.
Proof.
  intros Hsub [Hpl Hpo]. unfold deref. f_equal.
  - destruct (Heap.cfg_pipeline config) as [ls|] eqn:E; simpl; [|done].
    f_equal. apply contents_weaken; eauto.
  - destruct (Heap.cfg_policies config) as [ls|] eqn:E; simpl; [|done].
    f_equal. apply contents_weaken; eauto.
Qed.

(** A second run from the store the first run leaves computes the same. *)
Lemma rerun {A} (run : M A) (by_value : _ → option A) config h :
  (∀ h', well_formed h' config → (run h').1 = by_value (observed h' config)) →
  (∀ h', h' ⊆ (run h').2) →
  well_formed h config →
  (run (run h).2).1 = (run h).1.
Proof.
  intros Href Hfr Hwf.
  rewrite (Href h Hwf), (Href (run h).2).
  - by rewrite (observed_weaken h _ _ (Hfr h) Hwf).
  - eapply well_formed_weaken; [apply Hfr|done].
Qed.

End Store.

(** ** When a compile returns *)

Section Returns.

Variable get_component_class : string → option component_class.
Variable policy_from_module_path : string → option policy_class.

Lemma entry_kind_Some e s :
  entry_kind get_component_class e = Some s ↔
  ∃ c cls, e !! "name" = Some (PStr c) ∧
           get_component_class c = Some cls ∧ meta cls = Some s.
Proof.
  unfold entry_kind, pop_name.
  destruct (e !! "name") as [[c| | |]|]; cbn [mbind option_bind];
    try (split; [done|by intros (? & ? & ? & _)]).
  destruct (get_component_class c) as [cls|] eqn:Hc; cbn [mbind option_bind].
  - split; [by exists c, cls|]. intros (c' & cls' & ? & ? & ?). by simplify_eq.
  - split; [done|]. intros (c' & cls' & ? & ? & ?). by simplify_eq.
Qed.

Lemma nlu_step_succeeds ns only i e st :
  succeeds (nlu_step get_component_class ns only i e st)
  = succeeds (entry_kind get_component_class e).
Proof.
  destruct st as [g out].
  destruct (entry_kind get_component_class e) as [s|] eqn:Hk.
  - apply entry_kind_Some in Hk as (c & cls & He & Hc & Hs).
    by rewrite (nlu_step_eq _ _ _ _ _ _ _ _ _ _ He Hc Hs).
  - destruct (nlu_step _ _ _ _ _ _) as [[g' out']|] eqn:Hstep; [|done].
    apply nlu_step_spec in Hstep as (c & cls & s & _ & He & Hc & Hs & _).
    assert (entry_kind get_component_class e = Some s) as Hk'
      by (apply entry_kind_Some; eauto).
    by rewrite Hk in Hk'.
Qed.

Lemma nlu_loop_succeeds ns only l :
  ∀ i st,
  succeeds (nlu_loop get_component_class ns only i l st)
  = forallb (λ e, succeeds (entry_kind get_component_class e)) l.
Proof.
  induction l as [|e l IH]; intros i st; simpl; [done|].
  rewrite <- (nlu_step_succeeds ns only i e st).
  destruct (nlu_step _ _ _ _ _ _) as [st'|]; simpl; [apply IH|done].
Qed.

Lemma nlu_compile_succeeds project cfg ns input only :
  succeeds (nlu_config_to_train_graph_schema get_component_class project cfg
              ns input only)
  = match cfg_pipeline cfg with
    | Some l => forallb (λ e, succeeds (entry_kind get_component_class e)) l
    | None => false
    end.
Proof.
  unfold nlu_config_to_train_graph_schema.
  destruct (cfg_pipeline cfg) as [l|]; cbn [mbind option_bind]; [|done].
  rewrite <- (nlu_loop_succeeds ns only l 0 (nlu_initial project input)).
  by destruct (nlu_loop _ _ _ _ _ _) as [[g out]|].
Qed.

Lemma entry_policy_Some e cls :
  entry_policy policy_from_module_path e = Some cls ↔
  ∃ p, e !! "name" = Some (PStr p) ∧ policy_from_module_path p = Some cls.
Proof.
  unfold entry_policy, pop_name.
  destruct (e !! "name") as [[p| | |]|]; cbn [mbind option_bind];
    try (split; [done|by intros (? & ? & _)]).
  split; [by exists p|]. intros (p' & ? & ?). by simplify_eq.
Qed.

Lemma core_step_succeeds i e st :
  succeeds (core_step policy_from_module_path i e st)
  = succeeds (entry_policy policy_from_module_path e).
Proof.
  destruct st as [[g names] e2e].
  destruct (entry_policy policy_from_module_path e) as [cls|] eqn:Hk.
  - apply entry_policy_Some in Hk as (p & He & Hp).
    destruct (core_step _ _ _ _) as [st'|] eqn:Hstep; [done|].
    assert (is_Some (core_step policy_from_module_path i e (g, names, e2e)))
      as [st' Hst']; [|by rewrite Hstep in Hst'].
    eexists. apply core_step_Some. by exists p, cls.
  - destruct (core_step _ _ _ _) as [st'|] eqn:Hstep; [|done].
    apply core_step_Some in Hstep as (p & cls & He & Hp & _).
    assert (entry_policy policy_from_module_path e = Some cls) as Hk'
      by (apply entry_policy_Some; eauto).
    by rewrite Hk in Hk'.
Qed.

Lemma core_loop_succeeds l :
  ∀ i st,
  succeeds (core_loop policy_from_module_path i l st)
  = forallb (λ e, succeeds (entry_policy policy_from_module_path e)) l.
Proof.
  induction l as [|e l IH]; intros i st; simpl; [done|].
  rewrite <- (core_step_succeeds i e st).
  destruct (core_step _ _ _ _) as [st'|]; simpl; [apply IH|done].
Qed.

Lemma core_loop_flag l :
  ∀ i g names e2e g' names' e2e',
  core_loop policy_from_module_path i l (g, names, e2e)
    = Some (g', names', e2e') →
  e2e' = e2e || existsb (entry_declares_e2e policy_from_module_path) l.
Proof.
  induction l as [|e l IH]; intros i g names e2e g' names' e2e' Hloop;
    simpl in Hloop.
  - injection Hloop as <- <- <-. simpl. by rewrite orb_false_r.
  - destruct (core_step _ _ _ _) as [[[g1 names1] e1]|] eqn:Hstep;
      cbn [mbind option_bind] in Hloop; [|done].
    apply core_step_Some in Hstep as (p & cls & He & Hp & [= -> -> ->]).
    apply IH in Hloop as ->. simpl. unfold entry_declares_e2e at 2.
    assert (entry_policy policy_from_module_path e = Some cls) as ->
      by (apply entry_policy_Some; eauto).
    destruct (declares_e2e_features cls), e2e; simpl; done.
Qed.

Lemma core_compile_succeeds project cfg :
  succeeds (core_config_to_train_graph_schema get_component_class
              policy_from_module_path project cfg)
  = match cfg_policies cfg with
    | Some ps =>
        forallb (λ e, succeeds (entry_policy policy_from_module_path e)) ps
        && (if existsb (entry_declares_e2e policy_from_module_path) ps
            then match cfg_pipeline cfg with
                 | Some l =>
                     forallb
                       (λ e, succeeds (entry_kind get_component_class e)) l
                 | None => false
                 end
            else true)
    | None => false
    end.
Proof.
  unfold core_config_to_train_graph_schema.
  destruct (cfg_policies cfg) as [ps|]; cbn [mbind option_bind]; [|done].
  rewrite <- (core_loop_succeeds ps 0 (core_base project, [], false)).
  destruct (core_loop _ _ _ _) as [[[G names] e2e]|] eqn:Hloop;
    cbn [mbind option_bind]; [|done].
  apply core_loop_flag in Hloop as ->. simpl.
  destruct (existsb _ ps); [|done].
  rewrite <- (nlu_compile_succeeds project cfg (Some "core")
                (Some "convert_stories_for_nlu") true).
  by destruct (nlu_config_to_train_graph_schema _ _ _ _ _ _) as [[g out]|].
Qed.

Lemma old_compile_succeeds project cfg :
  succeeds (old_config_to_graph_schema get_component_class
              policy_from_module_path project cfg)
  = match cfg_pipeline cfg, cfg_policies cfg with
    | Some l, Some ps =>
        forallb (λ e, succeeds (entry_kind get_component_class e)) l
        && forallb (λ e, succeeds (entry_policy policy_from_module_path e))
             ps
    | _, _ => false
    end.
Proof.
  assert (succeeds (old_config_to_graph_schema get_component_class
                      policy_from_module_path project cfg)
          = succeeds (nlu_config_to_train_graph_schema get_component_class
                        project cfg None None false)
            && succeeds (core_config_to_train_graph_schema
                           get_component_class policy_from_module_path
                           project cfg)) as ->.
  { unfold old_config_to_graph_schema.
    destruct (nlu_config_to_train_graph_schema _ _ _ _ _ _) as [[g out]|];
      cbn [mbind option_bind]; [|done].
    by destruct (core_config_to_train_graph_schema _ _ _ _) as [[G outs]|]. }
  rewrite nlu_compile_succeeds, core_compile_succeeds.
  destruct (cfg_pipeline cfg) as [l|], (cfg_policies cfg) as [ps|];
    simpl; try done.
  - by destruct (forallb _ l), (forallb _ ps), (existsb _ ps).
  - by destruct (forallb _ l).
Qed.

End Returns.

(** ** Prefixes of a pipeline *)

Section Prefixes.

Variable get_component_class : string → option component_class.

Abbreviation nlu_loop := (nlu_loop get_component_class).
Abbreviation nlu_emits := (nlu_emits get_component_class).

Lemma nlu_loop_app ns only l1 l2 :
  ∀ i st,
  nlu_loop ns only i (l1 ++ l2) st
  = nlu_loop ns only i l1 st ≫= nlu_loop ns only (i + length l1) l2.
Proof.
  induction l1 as [|e l1 IH]; intros i st; simpl.
  - by rewrite Nat.add_0_r.
  - destruct (nlu_step _ _ _ _ _ _) as [st'|]; cbn [mbind option_bind];
      [|done].
    rewrite IH. by rewrite Nat.add_succ_r.
Qed.

(** Two entries that contribute the same task name sit at the same index
    and have the same name. *)
Lemma step_keys_apart only only' s s' ns c c' i j (k : string) :
  k ∈ step_keys only s (unique_name ns c i) →
  k ∈ step_keys only' s' (unique_name ns c' j) →
  c = c' ∧ i = j.
Proof.
  intros H1 H2. apply step_keys_cases in H1, H2.
  destruct H1 as [-> | ->], H2 as [H2|H2].
  - by apply train_inj, unique_name_inj in H2.
  - by apply train_ne_process in H2.
  - symmetry in H2. by apply train_ne_process in H2.
  - by apply process_inj, unique_name_inj in H2.
Qed.

Lemma emits_later ns only only' i i' l s c (k : string) :
  i < i' → k ∈ step_keys only s (unique_name ns c i) →
  ¬ nlu_emits ns only' i' l k.
Proof.
  intros Hlt Hk (j & e & c' & cls & s' & _ & _ & _ & _ & Hk').
  destruct (step_keys_apart _ _ _ _ _ _ _ _ _ _ Hk Hk') as [_ ->]. lia.
Qed.

Lemma nlu_emits_lt ns only only' i l1 l2 (k : string) :
  nlu_emits ns only i l1 k → ¬ nlu_emits ns only' (i + length l1) l2 k.
Proof.
  intros (j & e & c & cls & s & Hj & _ & _ & _ & Hk).
  apply lookup_lt_Some in Hj.
  eapply emits_later; [|exact Hk]. lia.
Qed.

Lemma nlu_emits_only ns only i l (k : string) :
  nlu_emits ns only i l k → nlu_emits ns false i l k.
Proof.
  intros (j & e & c & cls & s & Hj & He & Hc & Hs & Hk).
  exists j, e, c, cls, s. split_and!; try done.
  destruct s, only; simpl in *; set_solver.
Qed.

Lemma nlu_loop_other ns only l :
  ∀ i g out g' out',
  nlu_loop ns only i l (g, out) = Some (g', out') →
  ∀ k, ¬ nlu_emits ns only i l k → g' !! k = g !! k.
Proof.
  induction l as [|e l IH]; intros i g out g' out' Hloop k Hk;
    simpl in Hloop.
  - by injection Hloop as <- <-.
  - destruct (nlu_step _ _ _ _ _ _) as [[g1 out1]|] eqn:Hstep;
      cbn [mbind option_bind] in Hloop; [|done].
    apply nlu_step_spec in Hstep
      as (c & cls & s & frag & He & Hc & Hs & -> & Hdom & _ & _).
    rewrite (IH _ _ _ _ _ Hloop k).
    + rewrite update_lookup.
      destruct (frag !! k) as [t|] eqn:Hfrag; [|done].
      exfalso. apply Hk, nlu_emits_cons. left. exists c, cls, s.
      split_and!; try done. apply Hdom, elem_of_dom. eauto.
    + intros Hl. apply Hk, nlu_emits_cons. by right.
Qed.

Lemma nlu_loop_mono ns only l i g out g' out' :
  nlu_loop ns only i l (g, out) = Some (g', out') →
  (∀ k, k ∈ dom g → ¬ nlu_emits ns only i l k) → g ⊆ g'.
Proof.
  intros Hloop Hfresh. apply map_subseteq_spec. intros k t Hk.
  rewrite (nlu_loop_other _ _ _ _ _ _ _ _ Hloop k); [done|].
  apply Hfresh, elem_of_dom. eauto.
Qed.

Lemma nlu_initial_fresh project input ns only i l (k : string) :
  k ∈ dom (nlu_initial project input).1 → ¬ nlu_emits ns only i l k.
Proof.
  intros Hk Hemit. apply emitted_not_fixed in Hemit.
  assert (k = "load_data") as ->; [|set_solver].
  unfold nlu_initial in Hk.
  destruct input as [t|]; [destruct (truthy (Some t))|]; simpl in Hk;
    set_solver.
Qed.

Lemma fill_defaults_mono (g g' : Schema) :
  g ⊆ g' → fill_defaults g ⊆ fill_defaults g'.
Proof. apply map_fmap_mono. Qed.

(** The loop over a pipeline goes through the state of the loop over a
    prefix of it, and keeps every task the prefix built. *)
Lemma nlu_loop_prefix project input ns only l1 l2 g out :
  nlu_loop ns only 0 (l1 ++ l2) (nlu_initial project input) = Some (g, out) →
  ∃ g1 out1,
    nlu_loop ns only 0 l1 (nlu_initial project input) = Some (g1, out1) ∧
    nlu_loop ns only (length l1) l2 (g1, out1) = Some (g, out) ∧
    g1 ⊆ g.
Proof.
  rewrite nlu_loop_app. intros Hloop.
  destruct (nlu_loop ns only 0 l1 _) as [[g1 out1]|] eqn:H1;
    cbn [mbind option_bind] in Hloop; [|done].
  simpl in Hloop. exists g1, out1. split_and!; try done.
  eapply nlu_loop_mono; [exact Hloop|]. intros k Hk.
  destruct (nlu_initial project input) as [g0 out0] eqn:Hinit.
  apply (nlu_loop_keys _ _ _ _ _ _ _ _ _ H1) in Hk as [Hk|Hk].
  - eapply nlu_initial_fresh. by rewrite Hinit.
  - exact (nlu_emits_lt _ _ only 0 l1 l2 k Hk).
Qed.

Lemma config_or_empty_component (component : entry) :
  config_or_empty (Some {["component_config" := CDict component]})
  = {["component_config" := CDict component]}.
Proof.
  unfold config_or_empty. case_decide as Hempty; [|done].
  apply (f_equal (λ m : gmap string cfgvalue, m !! "component_config"))
    in Hempty.
  by rewrite lookup_singleton_eq, lookup_empty in Hempty.
Qed.

(** The tasks the loop builds for the entry after a prefix are in the final
    graph, as the builder made them from the prefix's output. *)
Lemma nlu_loop_entry project input ns only l1 e l2 c cls s g out :
  nlu_loop ns only 0 (l1 ++ e :: l2) (nlu_initial project input)
    = Some (g, out) →
  e !! "name" = Some (PStr c) → get_component_class c = Some cls →
  meta cls = Some s → (s = train → only = false) →
  ∃ g1 out1,
    nlu_loop ns only 0 l1 (nlu_initial project input) = Some (g1, out1) ∧
    ∀ k t,
      (builder s (Component cls) out1
         (Some (unique_name ns c (length l1)))
         (Some {["component_config" := CDict (delete "name" e)]})).1 !! k
      = Some t →
      g !! k = Some t.
Proof.
  intros Hloop He Hc Hs Honly.
  apply nlu_loop_prefix in Hloop as (g1 & out1 & H1 & H2 & _).
  exists g1, out1. split; [done|]. intros k t Hk.
  simpl in H2.
  destruct (nlu_step _ _ _ _ _ _) as [[g2 out2]|] eqn:Hstep;
    cbn [mbind option_bind] in H2; [|done].
  rewrite (nlu_step_eq _ _ _ _ _ _ _ _ _ _ He Hc Hs) in Hstep.
  assert (k ∈ step_keys false s (unique_name ns c (length l1))) as Hkeys
    by (eapply builder_keys, elem_of_dom; eauto).
  rewrite (nlu_loop_other _ _ _ _ _ _ _ _ H2 k).
  - destruct (builder s _ _ _ _) as [frag out3] eqn:Hb.
    assert ((g2, out2) = (update g1 frag, out3)) as [= -> ->].
    { destruct s, only; try (by injection Hstep as <- <-).
      by specialize (Honly eq_refl). }
    rewrite update_lookup. simpl in Hk. by rewrite Hk.
  - eapply emits_later; [|exact Hkeys]. lia.
Qed.

Lemma nlu_loop_train_out ns only l :
  ∀ i g out g' out',
  Forall (λ e, entry_kind get_component_class e = Some train) l →
  nlu_loop ns only i l (g, out) = Some (g', out') → out' = out.
Proof.
  induction l as [|e l IH]; intros i g out g' out' Hall Hloop;
    simpl in Hloop.
  - by injection Hloop as <- <-.
  - apply Forall_cons_1 in Hall as [He Hall].
    apply entry_kind_Some in He as (c & cls & He & Hc & Hs).
    rewrite (nlu_step_eq _ _ _ _ _ _ _ _ _ _ He Hc Hs) in Hloop.
    destruct only; cbn [mbind option_bind] in Hloop.
    + by apply IH in Hloop.
    + rewrite (surjective_pairing (builder _ _ _ _ _)) in Hloop.
      rewrite builder_out in Hloop. by apply IH in Hloop.
Qed.

End Prefixes.

(** ** Process-only compiles *)

Section OnlyProcess.

Variable get_component_class : string → option component_class.

Abbreviation nlu_loop := (nlu_loop get_component_class).
Abbreviation nlu_emits := (nlu_emits get_component_class).

(** The process-only loop and the full loop, run side by side: the first
    builds a sub-graph of the second and both move the same pointer. *)
Lemma nlu_loop_only_process ns l :
  ∀ i gt gf out gt' gf' out_t out_f,
  gt ⊆ gf → (∀ k, k ∈ dom gt → ¬ nlu_emits ns false i l k) →
  nlu_loop ns true i l (gt, out) = Some (gt', out_t) →
  nlu_loop ns false i l (gf, out) = Some (gf', out_f) →
  gt' ⊆ gf' ∧ out_t = out_f.
Proof.
  induction l as [|e l IH];
    intros i gt gf out gt' gf' out_t out_f Hsub Hfresh Ht Hf;
    simpl in Ht, Hf.
  - injection Ht as <- <-. by injection Hf as <- <-.
  - destruct (nlu_step _ ns true _ _ _) as [[gt1 ot1]|] eqn:Hst;
      cbn [mbind option_bind] in Ht; [|done].
    destruct (nlu_step _ ns false _ _ _) as [[gf1 of1]|] eqn:Hsf;
      cbn [mbind option_bind] in Hf; [|done].
    pose proof Hst as Hspec.
    apply nlu_step_spec in Hspec as (c & cls & s & _ & He & Hc & Hs & _).
    rewrite (nlu_step_eq _ _ _ _ _ _ _ _ _ _ He Hc Hs) in Hst.
    rewrite (nlu_step_eq _ _ _ _ _ _ _ _ _ _ He Hc Hs) in Hsf.
    destruct (builder s (Component cls) out (Some (unique_name ns c i))
                (Some {["component_config" := CDict (delete "name" e)]}))
      as [frag out1] eqn:Hb.
    assert (∀ k, k ∈ dom frag →
                 k ∈ step_keys false s (unique_name ns c i)) as Hkeys.
    { intros k Hk. eapply builder_keys. by rewrite Hb. }
    assert (∀ k, k ∈ dom frag → nlu_emits ns false i (e :: l) k) as Hemit.
    { intros k Hk. apply nlu_emits_cons. left. exists c, cls, s.
      split_and!; try done. by apply Hkeys. }
    assert ((gf1, of1) = (update gf frag, out1)) as [= -> ->]
      by (destruct s; by injection Hsf as <- <-).
    assert (∀ k, k ∈ dom gt → ¬ nlu_emits ns false (S i) l k) as Hfresh'.
    { intros k Hk Hl. apply (Hfresh k Hk), nlu_emits_cons. by right. }
    assert (s = train ∨ s ≠ train) as [-> |Hne] by (destruct s; auto).
    + injection Hst as <- <-.
      assert (out1 = out) as ->.
      { pose proof (builder_out train (Component cls) out ns c i
          (Some {["component_config" := CDict (delete "name" e)]})) as Ho.
        by rewrite Hb in Ho. }
      eapply IH; [| |exact Ht|exact Hf]; [|done].
      apply map_subseteq_spec. intros k t Hk. rewrite update_lookup.
      destruct (frag !! k) as [t'|] eqn:Hfrag.
      * exfalso. apply (Hfresh k); [apply elem_of_dom; eauto|].
        apply Hemit, elem_of_dom. eauto.
      * by eapply lookup_weaken.
    + assert ((gt1, ot1) = (update gt frag, out1)) as [= -> ->]
        by (destruct s; try done; by injection Hst as <- <-).
      eapply IH; [| |exact Ht|exact Hf].
      * by apply map_union_mono_l.
      * intros k Hk. rewrite update_dom in Hk.
        apply elem_of_union in Hk as [Hk|Hk]; [by apply Hfresh'|].
        eapply emits_later; [|by apply Hkeys]. lia.
Qed.

End OnlyProcess.

(** ** Root tasks and outputs *)

Section Roots.

Variable get_component_class : string → option component_class.
Variable policy_from_module_path : string → option policy_class.

Lemma fill_task_idemp t : fill_task (fill_task t) = fill_task t.
Proof. by destruct t as [? ? ? ? []]. Qed.

Lemma fill_defaults_idemp (g : Schema) :
  fill_defaults (fill_defaults g) = fill_defaults g.
Proof.
  unfold fill_defaults. rewrite <- map_fmap_compose.
  apply map_fmap_ext. intros k t _. apply fill_task_idemp.
Qed.

Lemma nlu_schema_filled project cfg ns input only schema out :
  nlu_config_to_train_graph_schema get_component_class project cfg
    ns input only = Some (schema, out) →
  fill_defaults schema = schema.
Proof.
  intros Hrun. apply nlu_compile_Some in Hrun as (l & g & _ & _ & ->).
  apply fill_defaults_idemp.
Qed.

Lemma policy_task_names_elem l :
  ∀ i (k : string), k ∈ policy_task_names i l →
  ∃ j e p, l !! j = Some e ∧ e !! "name" = Some (PStr p) ∧
           k = p +:+ "_" +:+ str (i + j).
Proof.
  induction l as [|e l IH]; intros i k Hk; simpl in Hk; [set_solver|].
  apply elem_of_app in Hk as [Hk|Hk].
  - destruct (e !! "name") as [[p| | |]|] eqn:He; try set_solver.
    apply list_elem_of_singleton in Hk as ->.
    exists 0, e, p. by rewrite Nat.add_0_r.
  - apply IH in Hk as (j & e' & p & Hj & He' & ->).
    exists (S j), e', p. by rewrite Nat.add_succ_r.
Qed.

Lemma policy_task_names_NoDup l : ∀ i, NoDup (policy_task_names i l).
Proof.
  induction l as [|e l IH]; intros i; simpl; [constructor|].
  apply list.NoDup_app. split_and!; [| |apply IH].
  - destruct (e !! "name") as [[p| | |]|]; try constructor.
    + set_solver.
    + constructor.
  - intros k Hk Hl.
    destruct (e !! "name") as [[p| | |]|]; try set_solver.
    apply list_elem_of_singleton in Hk as ->.
    apply policy_task_names_elem in Hl as (j & e' & p' & _ & _ & Heq).
    apply indexed_name_inj in Heq as [_ Heq]. lia.
Qed.

Lemma core_loop_length l :
  ∀ i st st',
  core_loop policy_from_module_path i l st = Some st' →
  length (policy_task_names i l) = length l.
Proof.
  induction l as [|e l IH]; intros i [[g names] e2e] st' Hloop;
    simpl in Hloop; [done|].
  destruct (core_step _ _ _ _) as [st1|] eqn:Hstep;
    cbn [mbind option_bind] in Hloop; [|done].
  apply core_step_Some in Hstep as (p & cls & He & _ & _).
  simpl. rewrite He. simpl. f_equal. by eapply IH.
Qed.

(** The three tasks the Core graph starts from are in every Core schema,
    with their defaults filled in. *)
Lemma core_compile_base project cfg schema names :
  core_config_to_train_graph_schema get_component_class
    policy_from_module_path project cfg = Some (schema, names) →
  fill_defaults (core_base project) ⊆ schema.
Proof.
  intros Hrun.
  apply core_compile_Some in Hrun as (ps & G & e2e & _ & Hloop & Hrest).
  assert (∀ k, k ∈ dom (core_base project) →
               G !! k = core_base project !! k) as HG.
  { intros k Hk. apply (core_loop_other _ _ _ _ _ _ _ _ _ Hloop).
    intros cls rest Hemit.
    apply core_emits_index in Hemit as (p & j & ->).
    pose proof (policy_key_fixed p (0 + j)) as Hfix.
    rewrite core_base_dom in Hk. set_solver. }
  apply map_subseteq_spec. intros k t Hk.
  apply lookup_fmap_Some in Hk as (t0 & <- & Hk).
  assert (k ∈ dom (core_base project)) as Hdom
    by (apply elem_of_dom; eauto).
  pose proof Hdom as Hfixed. rewrite core_base_dom in Hfixed.
  destruct e2e.
  - destruct Hrest as (nlu_schema & nlu_out & Hnlu & ->).
    apply fill_defaults_lookup_Some.
    rewrite lookup_insert_ne by set_solver.
    rewrite update_lookup.
    assert (nlu_schema !! k = None) as ->.
    { apply not_elem_of_dom. intros Hin.
      apply (nlu_sub_compile_keys _ _ _ _ _ _ Hnlu) in Hin
        as (l & _ & Hemit).
      apply emitted_not_fixed in Hemit. set_solver. }
    rewrite lookup_insert_ne by set_solver.
    by rewrite HG.
  - subst schema. apply fill_defaults_lookup_Some. by rewrite HG.
Qed.

(** The process-only sub-schema of the end-to-end branch is in the Core
    schema as it was compiled. *)
Lemma core_compile_sub project cfg schema names nlu_schema nlu_out ps :
  core_config_to_train_graph_schema get_component_class
    policy_from_module_path project cfg = Some (schema, names) →
  cfg_policies cfg = Some ps →
  existsb (entry_declares_e2e policy_from_module_path) ps = true →
  nlu_config_to_train_graph_schema get_component_class project cfg
    (Some "core") (Some "convert_stories_for_nlu") true
    = Some (nlu_schema, nlu_out) →
  nlu_schema ⊆ schema.
Proof.
  intros Hrun Hps He2e Hnlu.
  apply core_compile_Some in Hrun as (ps' & G & e2e & Hps' & Hloop & Hrest).
  assert (ps' = ps) as -> by congruence.
  apply core_loop_flag in Hloop as ->. rewrite He2e in Hrest. simpl in Hrest.
  destruct Hrest as (nlu_schema' & nlu_out' & Hnlu' & ->).
  assert (nlu_schema' = nlu_schema ∧ nlu_out' = nlu_out) as [-> ->]
    by (split; congruence).
  rewrite <- (nlu_schema_filled _ _ _ _ _ _ _ Hnlu) at 1.
  apply fill_defaults_mono, map_subseteq_spec. intros k t Hk.
  rewrite lookup_insert_ne.
  - rewrite update_lookup. by rewrite Hk.
  - intros <-.
    assert ("create_e2e_lookup" ∈ dom nlu_schema) as Hin
      by (apply elem_of_dom; eauto).
    apply (nlu_sub_compile_keys _ _ _ _ _ _ Hnlu) in Hin as (l & _ & Hemit).
    apply emitted_not_fixed in Hemit. set_solver.
Qed.

Lemma core_loop_names_emitted l :
  ∀ i st st',
  core_loop policy_from_module_path i l st = Some st' →
  ∀ k, k ∈ policy_task_names i l →
  ∃ cls rest, core_emits policy_from_module_path i l k cls rest.
Proof.
  induction l as [|e l IH]; intros i [[g names] e2e] st' Hloop k Hk;
    simpl in Hloop, Hk; [set_solver|].
  destruct (core_step _ _ _ _) as [st1|] eqn:Hstep;
    cbn [mbind option_bind] in Hloop; [|done].
  apply core_step_Some in Hstep as (p & cls & He & Hp & _).
  rewrite He in Hk. apply elem_of_app in Hk as [Hk|Hk].
  - apply list_elem_of_singleton in Hk as ->.
    exists cls, (delete "name" e). apply core_emits_cons. left. by exists p.
  - destruct (IH _ _ _ Hloop k Hk) as (cls' & rest & Hemit).
    exists cls', rest. apply core_emits_cons. by right.
Qed.

Lemma core_loop_size l :
  ∀ i g names e2e g' names' e2e',
  core_loop policy_from_module_path i l (g, names, e2e)
    = Some (g', names', e2e') →
  (∀ k cls rest, k ∈ dom g →
                 ¬ core_emits policy_from_module_path i l k cls rest) →
  size g' = size g + length l.
Proof.
  induction l as [|e l IH]; intros i g names e2e g' names' e2e' Hloop Hfresh;
    simpl in Hloop.
  - injection Hloop as <- <- <-. simpl. lia.
  - destruct (core_step _ _ _ _) as [[[g1 names1] e1]|] eqn:Hstep;
      cbn [mbind option_bind] in Hloop; [|done].
    apply core_step_Some in Hstep as (p & cls & He & Hp & [= -> -> ->]).
    rewrite (IH _ _ _ _ _ _ _ Hloop).
    + rewrite <- insert_update, map_size_insert_None; [simpl; lia|].
      apply not_elem_of_dom. intros Hin.
      apply (Hfresh _ cls (delete "name" e) Hin), core_emits_cons.
      left. by exists p.
    + intros k cls' rest Hk Hemit. rewrite update_dom in Hk.
      apply elem_of_union in Hk as [Hk|Hk].
      * apply (Hfresh k cls' rest Hk), core_emits_cons. by right.
      * rewrite dom_singleton_L in Hk. apply elem_of_singleton in Hk as ->.
        apply core_emits_index in Hemit as (p' & j & Heq).
        apply indexed_name_inj in Heq as [_ Heq]. lia.
Qed.

(** The task under a policy's name is the policy's task, unless the
    end-to-end branch runs and its sub-schema has a task of that name, which
    then takes its place. *)
Lemma core_schema_policy_exact project cfg schema names policies k cls rest :
  core_config_to_train_graph_schema get_component_class
    policy_from_module_path project cfg = Some (schema, names) →
  cfg_policies cfg = Some policies →
  core_emits policy_from_module_path 0 policies k cls rest →
  (¬ some_policy_declares_e2e policy_from_module_path policies ∧
   schema !! k = Some (fill_task (policy_task cls rest))) ∨
  (some_policy_declares_e2e policy_from_module_path policies ∧
   ∃ nlu_schema nlu_out,
     nlu_config_to_train_graph_schema get_component_class project cfg
       (Some "core") (Some "convert_stories_for_nlu") true
       = Some (nlu_schema, nlu_out) ∧
     schema !! k = match nlu_schema !! k with
                   | Some t => Some t
                   | None => Some (fill_task (policy_task cls rest))
                   end).
Proof.
  intros Hrun Hp Hem.
  apply core_compile_inv in Hrun
    as (policies' & G & Hp' & _ & _ & HG & Hfin).
  assert (policies' = policies) as -> by congruence.
  specialize (HG _ _ _ Hem).
  destruct Hfin as [[Hno ->]|(He2e & nlu_schema & nlu_out & Hnlu & ->)].
  { left. split; [done|]. by apply fill_defaults_lookup_Some. }
  right. split; [done|]. exists nlu_schema, nlu_out. split; [done|].
  destruct (core_emits_key _ _ _ _ _ Hem) as (i & pe & p & Hi & Hpe & ->).
  pose proof (policy_key_fixed p i) as Hfix.
  destruct (nlu_schema !! _) as [t|] eqn:Ht.
  - assert (fill_defaults nlu_schema !! (p +:+ "_" +:+ str i) = Some t)
      as Hfilled by (by rewrite (nlu_schema_filled _ _ _ _ _ _ _ Hnlu)).
    unfold fill_defaults in Hfilled |- *.
    rewrite lookup_fmap in Hfilled. rewrite lookup_fmap.
    rewrite lookup_insert_ne by set_solver.
    rewrite update_lookup, Ht. by rewrite Ht in Hfilled.
  - apply fill_defaults_lookup_Some.
    rewrite lookup_insert_ne by set_solver.
    rewrite update_lookup, Ht.
    by rewrite lookup_insert_ne by set_solver.
Qed.

Lemma builder_component_tasks s cls out name cfg (k : string) t :
  (builder s (Component cls) out name cfg).1 !! k = Some t →
  (∃ c, uses t = Component c) ∧ needs t !! "e2e_features" = None.
Proof.
  destruct s;
    cbv beta iota zeta delta
      [builder process_component train_component train_and_process_component];
    cbn [fst]; intros Hk.
  - apply lookup_singleton_Some in Hk as [_ <-]. simpl.
    split; [by eexists|]. by apply lookup_singleton_ne.
  - apply lookup_singleton_Some in Hk as [_ <-]. simpl.
    split; [by eexists|]. by apply lookup_singleton_ne.
  - apply lookup_insert_Some in Hk as [[_ <-]|[_ Hk]].
    + simpl. split; [by eexists|].
      rewrite lookup_insert_ne by done. by apply lookup_singleton_ne.
    + apply lookup_singleton_Some in Hk as [_ <-]. simpl.
      split; [by eexists|]. by apply lookup_singleton_ne.
Qed.

Lemma nlu_loop_component_tasks ns only l :
  ∀ i g out g' out',
  nlu_loop get_component_class ns only i l (g, out) = Some (g', out') →
  (∀ k t, g !! k = Some t →
          (∃ c, uses t = Component c) ∧ needs t !! "e2e_features" = None) →
  ∀ k t, g' !! k = Some t →
         (∃ c, uses t = Component c) ∧ needs t !! "e2e_features" = None.
Proof.
  induction l as [|e l IH]; intros i g out g' out' Hloop Hg;
    simpl in Hloop.
  - by injection Hloop as <- <-.
  - destruct (nlu_step _ _ _ _ _ _) as [[g1 out1]|] eqn:Hstep;
      cbn [mbind option_bind] in Hloop; [|done].
    apply (IH _ _ _ _ _ Hloop). intros k t Hk.
    pose proof Hstep as Hspec.
    apply nlu_step_spec in Hspec as (c & cls & s & _ & He & Hc & Hs & _).
    rewrite (nlu_step_eq _ _ _ _ _ _ _ _ _ _ He Hc Hs) in Hstep.
    destruct (builder s (Component cls) out (Some (unique_name ns c i))
                (Some {["component_config" := CDict (delete "name" e)]}))
      as [frag out2] eqn:Hb.
    assert (g1 = g ∨ g1 = update g frag) as [-> | ->]
      by (destruct s, only; injection Hstep as <- <-; auto).
    + by apply (Hg k).
    + rewrite update_lookup in Hk.
      destruct (frag !! k) as [t'|] eqn:Hfrag; [|by apply (Hg k)].
      injection Hk as <-. eapply (builder_component_tasks _ _ _ _ _ k).
      by rewrite Hb.
Qed.

(** Every task of a schema compiled from an input task is a component's
    task, and none of them reads [e2e_features]. *)
Lemma nlu_schema_component_tasks project cfg ns input only schema out
    (k : string) t :
  truthy (Some input) = true →
  nlu_config_to_train_graph_schema get_component_class project cfg
    ns (Some input) only = Some (schema, out) →
  schema !! k = Some t →
  (∃ c, uses t = Component c) ∧ needs t !! "e2e_features" = None.
Proof.
  intros Hin Hrun Hk.
  apply nlu_compile_Some in Hrun as (l & g & _ & Hloop & ->).
  rewrite (nlu_initial_input _ _ Hin) in Hloop.
  apply fill_defaults_lookup in Hk
    as (t0 & Hk & Hneeds & Huses & _).
  rewrite Hneeds, Huses.
  eapply nlu_loop_component_tasks; [exact Hloop| |exact Hk].
  intros k' t' Hk'. by rewrite lookup_empty in Hk'.
Qed.



End Roots.

(** * The specified properties *)

(** A concrete run is evaluated through small observations of it. *)
Ltac evaluated := vm_compute; reflexivity.

(** [names_apart] of two concrete lists, index by index. *)
Ltac names_apart_by_cases :=
  let i := fresh "i" in
  let Hi := fresh "Hi" in let Hpe := fresh "Hpe" in
  let Hj := fresh "Hj" in let Hce := fresh "Hce" in
  intros i ? ? ? ? Hi Hpe Hj Hce;
  repeat (destruct i as [|i];
          [ rewrite list_lookup_head in Hi, Hj;
            injection Hi as <-; injection Hj as <-;
            vm_compute in Hpe; vm_compute in Hce;
            injection Hpe as <-; injection Hce as <-;
            split; discriminate
          | rewrite list_lookup_tail in Hi, Hj ]);
  first [ rewrite lookup_nil in Hi; discriminate Hi
        | rewrite lookup_nil in Hj; discriminate Hj ].

Ltac returns run r :=
  let Hs := fresh "Hs" in
  assert (succeeds run = true) as Hs by evaluated;
  destruct run as [r|] eqn:?; [clear Hs|discriminate Hs].

(** The outputs of the test config: the policy tasks, then the last process
    task of the pipeline (the three train-only steps after it do not advance
    the output). *)
Example default_config_outputs :
  output_of (old_config_to_graph_schema registered_components sample_policies
               "examples/moodbot" default_config)
  = Some ["MemoizationPolicy_0"; "TEDPolicy_1"; "RulePolicy_2";
          "process_CountVectorsFeaturizer_4"].
Proof. evaluated. Qed.

(** ** Step builders *)

(** C2.  The train-only builder hands back the upstream task name it was
    given, and a pure train entry folded by the NLU compiler leaves the
    current output where it was, whether the entry is compiled or skipped. *)
Theorem C2_train_only_pointer :
  (∀ component_class input_task_name config name train_function param,
     (train_component component_class input_task_name config name
        train_function param).2 = input_task_name) ∧
  (∀ get_component_class ns only i e c cls g out,
     e !! "name" = Some (PStr c) → get_component_class c = Some cls →
     meta cls = Some train →
     ∃ g', nlu_step get_component_class ns only i e (g, out) = Some (g', out)).
Proof.
  split; [done|].
  intros get ns only i e c cls g out He Hc Hs.
  rewrite (nlu_step_eq get ns only i e c cls train g out He Hc Hs).
  destruct only; [by exists g|].
  unfold builder, train_component. eauto.
Qed.

Lemma C2_witness :
  ∃ g', nlu_step registered_components None false 5
          (named "DIETClassifier")
          ({["load_data" := load_data_task "moodbot"]}, "load_data")
        = Some (g', "load_data").
Proof.
  apply (proj2 C2_train_only_pointer registered_components None false 5
           (named "DIETClassifier") "DIETClassifier" DIETClassifier);
    vm_compute; reflexivity.
Defined.

(** C10.  The train-and-process builder leaves [persist] unset on both of
    its tasks, so the defaulting pass makes both persisted, its process
    (output) task included; the process-only builder sets [persist] to false
    and the defaulting pass keeps it. *)
Theorem C10_persist_of_builders :
  (∀ cls input cfg name tf pf param k t,
     (train_and_process_component cls input cfg name tf pf param).1 !! k
       = Some t → persist t = None) ∧
  (∀ cls input cfg name tf pf param,
     let r := train_and_process_component cls input cfg name tf pf param in
     (∃ t, fill_defaults r.1 !! r.2 = Some t ∧ persist t = Some true) ∧
     (∀ k t, fill_defaults r.1 !! k = Some t → persist t = Some true)) ∧
  (∀ cls input cfg name pf param,
     let r := process_component cls input cfg name pf param in
     (∃ t, r.1 !! r.2 = Some t ∧ persist t = Some false) ∧
     (∀ k t, r.1 !! k = Some t → persist t = Some false) ∧
     (∃ t, fill_defaults r.1 !! r.2 = Some t ∧ persist t = Some false) ∧
     (∀ k t, fill_defaults r.1 !! k = Some t → persist t = Some false)).
Proof.
  assert (∀ cls input cfg name tf pf param k t,
     (train_and_process_component cls input cfg name tf pf param).1 !! k
       = Some t → persist t = None) as Htp.
  { intros cls input cfg name tf pf param k t.
    unfold train_and_process_component. cbn [fst].
    by intros [[_ <-]|[_ [_ <-]%lookup_singleton_Some]]%lookup_insert_Some. }
  assert (∀ cls input cfg name pf param k t,
     (process_component cls input cfg name pf param).1 !! k = Some t →
     persist t = Some false) as Hp.
  { intros cls input cfg name pf param k t.
    unfold process_component. cbn [fst].
    by intros [_ <-]%lookup_singleton_Some. }
  split_and!; [exact Htp| |].
  - intros cls input cfg name tf pf param r. split.
    + unfold fill_defaults, r, train_and_process_component. cbn [fst snd].
      rewrite lookup_fmap, lookup_insert_eq. simpl. eauto.
    + intros k t (t0 & Hk & _ & _ & _ & _ & ->)%fill_defaults_lookup.
      by rewrite (Htp _ _ _ _ _ _ _ _ _ Hk).
  - intros cls input cfg name pf param r. split_and!.
    + unfold r, process_component. cbn [fst snd].
      rewrite lookup_singleton_eq. eauto.
    + apply Hp.
    + unfold fill_defaults, r, process_component. cbn [fst snd].
      rewrite lookup_fmap, lookup_singleton_eq. simpl. eauto.
    + intros k t (t0 & Hk & _ & _ & _ & _ & ->)%fill_defaults_lookup.
      by rewrite (Hp _ _ _ _ _ _ _ _ Hk).
Qed.

Lemma C10_witness :
  let r := train_and_process_component (Component RegexFeaturizer)
             "process_WhitespaceTokenizer_0" None
             (Some "RegexFeaturizer_1") "train" "process_training_data"
             "training_data" in
  persist <$> fill_defaults r.1 !! "train_RegexFeaturizer_1"
  = Some (Some true).
Proof.
  intros r.
  returns (fill_defaults r.1 !! "train_RegexFeaturizer_1") t.
  simpl. f_equal.
  exact (proj2 (proj1 (proj2 C10_persist_of_builders)
                  (Component RegexFeaturizer) "process_WhitespaceTokenizer_0"
                  None (Some "RegexFeaturizer_1") "train"
                  "process_training_data" "training_data")
           "train_RegexFeaturizer_1" t ltac:(eassumption)).
Defined.

(** ** Referential closure *)

(** C1, as the code has it.  The schemas of the NLU compiler run without an
    external input task, of the Core compiler and of the top-level merge are
    closed.  Run with an external input task [t], the NLU compiler starts from
    an empty graph: its schema is closed up to [t], which the caller provides. *)
Theorem C1_referential_closure get_component_class policy_from_module_path
    project cfg :
  (∀ ns input only schema out,
     truthy input = false →
     nlu_config_to_train_graph_schema get_component_class project cfg
       ns input only = Some (schema, out) →
     closed schema) ∧
  (∀ ns t only schema out,
     truthy (Some t) = true →
     nlu_config_to_train_graph_schema get_component_class project cfg
       ns (Some t) only = Some (schema, out) →
     closed_upto {[t]} schema) ∧
  (∀ schema names,
     core_config_to_train_graph_schema get_component_class
       policy_from_module_path project cfg = Some (schema, names) →
     closed schema) ∧
  (∀ schema outs,
     old_config_to_graph_schema get_component_class policy_from_module_path
       project cfg = Some (schema, outs) →
     closed schema).
Proof.
  split_and!.
  - intros ns input only schema out Hin Hc.
    by destruct (nlu_compile_closed _ _ _ _ _ _ _ _ Hin Hc).
  - intros ns t only schema out Hin Hc.
    by destruct (nlu_compile_closed_upto _ _ _ _ _ _ _ _ Hin Hc).
  - intros schema names. apply core_compile_closed.
  - intros schema outs. unfold old_config_to_graph_schema.
    destruct (nlu_config_to_train_graph_schema _ _ _ _ _ _)
      as [[nlu_schema nlu_out]|] eqn:Hnlu; cbn [mbind option_bind]; [|done].
    destruct (core_config_to_train_graph_schema _ _ _ _)
      as [[core_schema core_outs]|] eqn:Hcore; cbn [mbind option_bind];
      [|done].
    intros [= <- <-].
    apply nlu_compile_closed in Hnlu as [Hn _]; [|done].
    apply core_compile_closed in Hcore.
    apply closed_upto_empty. rewrite <- (left_id_L ∅ (∪) ∅).
    by apply closed_upto_update; apply closed_upto_empty.
Qed.

Lemma C1_witness :
  match old_config_to_graph_schema registered_components sample_policies
          "examples/moodbot" default_config with
  | Some (schema, _) => closed schema
  | None => False
  end.
Proof.
  returns (old_config_to_graph_schema registered_components sample_policies
             "examples/moodbot" default_config) r.
  destruct r as [schema outs].
  exact (proj2 (proj2 (proj2
           (C1_referential_closure registered_components sample_policies
              "examples/moodbot" default_config))) schema outs
           ltac:(eassumption)).
Defined.

(** The E2E sub-compile of the Core compiler, on a one-step pipeline:
    the only task depends on [convert_stories_for_nlu], which is not a task
    of the returned schema. *)
Lemma C1_counterexample :
  ∃ schema out,
    nlu_config_to_train_graph_schema registered_components "examples/moodbot"
      {| cfg_pipeline := Some [named "WhitespaceTokenizer"];
         cfg_policies := Some [] |}
      (Some "core") (Some "convert_stories_for_nlu") true
    = Some (schema, out) ∧
    ¬ closed schema.
Proof.
  set (run := nlu_config_to_train_graph_schema _ _ _ _ _ _).
  assert (needs_of run "process_core_WhitespaceTokenizer_0" "training_data"
          = Some "convert_stories_for_nlu") as Hneeds by evaluated.
  assert (succeeds (task_of run "convert_stories_for_nlu") = false)
    as Hkey by evaluated.
  destruct run as [[schema out]|]; [|done].
  exists schema, out. split; [done|]. intros Hclosed.
  unfold needs_of, task_of in *. simpl in *.
  destruct (schema !! "process_core_WhitespaceTokenizer_0") as [t|] eqn:Ht;
    [|done].
  apply (Hclosed _ _ _ _ Ht), elem_of_dom in Hneeds as [t' Ht'].
  by rewrite Ht' in Hkey.
Qed.

(** ** The output pointer *)

(** C6, as the code has it.  Without an external input task the returned
    output is a task of the returned schema.  With an external input task
    [t] the graph starts empty, and the output is a task of the schema or
    [t] itself. *)
Theorem C6_output_membership get_component_class project cfg ns only :
  (∀ input schema out,
     truthy input = false →
     nlu_config_to_train_graph_schema get_component_class project cfg
       ns input only = Some (schema, out) →
     out ∈ dom schema) ∧
  (∀ t schema out,
     truthy (Some t) = true →
     nlu_config_to_train_graph_schema get_component_class project cfg
       ns (Some t) only = Some (schema, out) →
     out ∈ dom schema ∨ out = t).
Proof.
  split.
  - intros input schema out Hin Hc.
    by destruct (nlu_compile_closed _ _ _ _ _ _ _ _ Hin Hc).
  - intros t schema out Hin Hc.
    by destruct (nlu_compile_closed_upto _ _ _ _ _ _ _ _ Hin Hc).
Qed.

Lemma C6_witness :
  match nlu_config_to_train_graph_schema registered_components
          "examples/moodbot" default_config None None false with
  | Some (schema, out) => out ∈ dom schema
  | None => False
  end.
Proof.
  returns (nlu_config_to_train_graph_schema registered_components
             "examples/moodbot" default_config None None false) r.
  destruct r as [schema out].
  exact (proj1 (C6_output_membership registered_components
                  "examples/moodbot" default_config None false)
           None schema out eq_refl ltac:(eassumption)).
Defined.

(** The E2E sub-compile on a pipeline of one pure train step: the step is
    skipped, the schema is empty, and the output is the caller's input task. *)
Lemma C6_counterexample :
  ∃ schema out,
    nlu_config_to_train_graph_schema registered_components "examples/moodbot"
      {| cfg_pipeline := Some [named "DIETClassifier"];
         cfg_policies := Some [] |}
      (Some "core") (Some "convert_stories_for_nlu") true
    = Some (schema, out) ∧
    out ∉ dom schema.
Proof.
  set (run := nlu_config_to_train_graph_schema _ _ _ _ _ _).
  assert (output_of run = Some "convert_stories_for_nlu") as Hout
    by evaluated.
  assert (succeeds (task_of run "convert_stories_for_nlu") = false) as Hkey
    by evaluated.
  destruct run as [[schema out]|]; [|done].
  exists schema, out. split; [done|].
  injection Hout as ->. apply succeeds_false in Hkey.
  by apply not_elem_of_dom.
Qed.

(** ** The scenario *)

(** C3, as the code has it.  For the pipeline [Tokenizer (process),
    Featurizer (train_process), Classifier (train)] without an external input
    task, the schema has the tasks [load_data], [process_Tokenizer_0],
    [train_Featurizer_1], [process_Featurizer_1] and [train_Classifier_2];
    [train_Classifier_2] reads its [training_data] from
    [process_Featurizer_1]; there is no [process_Classifier_2]; and the
    returned output is [process_Featurizer_1], the last process task: the
    train-only step does not advance it. *)
Theorem C3_scenario get_component_class project tok feat clf :
  get_component_class "Tokenizer" = Some tok → meta tok = Some process →
  get_component_class "Featurizer" = Some feat →
  meta feat = Some train_process →
  get_component_class "Classifier" = Some clf → meta clf = Some train →
  let run := nlu_config_to_train_graph_schema get_component_class project
               scenario_config None None false in
  Forall (λ k, succeeds (task_of run k) = true)
    ["load_data"; "process_Tokenizer_0"; "train_Featurizer_1";
     "process_Featurizer_1"; "train_Classifier_2"] ∧
  needs_of run "train_Classifier_2" "training_data"
    = Some "process_Featurizer_1" ∧
  succeeds (task_of run "process_Classifier_2") = false ∧
  output_of run = Some "process_Featurizer_1".
Proof.
  intros Htok Hmtok Hfeat Hmfeat Hclf Hmclf run.
  assert (∀ n, named n !! "name" = Some (PStr n)) as Hnamed.
  { intros n. apply lookup_singleton_eq. }
  subst run. unfold nlu_config_to_train_graph_schema, scenario_config.
  cbn [cfg_pipeline mbind option_bind nlu_loop].
  rewrite (nlu_initial_load_data project None eq_refl).
  rewrite (nlu_step_eq _ _ _ _ _ _ _ _ _ _ (Hnamed _) Htok Hmtok).
  cbn [mbind option_bind].
  destruct (builder process _ _ _ _) as [d0 o0] eqn:Hb0.
  rewrite (nlu_step_eq _ _ _ _ _ _ _ _ _ _ (Hnamed _) Hfeat Hmfeat).
  cbn [mbind option_bind].
  destruct (builder train_process _ _ _ _) as [d1 o1] eqn:Hb1.
  rewrite (nlu_step_eq _ _ _ _ _ _ _ _ _ _ (Hnamed _) Hclf Hmclf).
  cbn [mbind option_bind].
  destruct (builder train _ _ _ _) as [d2 o2] eqn:Hb2.
  injection Hb0 as <- <-. injection Hb1 as <- <-. injection Hb2 as <- <-.
  split_and!; [repeat constructor|..]; evaluated.
Qed.

Lemma C3_witness :
  needs_of (nlu_config_to_train_graph_schema scenario_components
              "examples/moodbot" scenario_config None None false)
    "train_Classifier_2" "training_data" = Some "process_Featurizer_1".
Proof.
  exact (proj1 (proj2
           (C3_scenario scenario_components "examples/moodbot"
              WhitespaceTokenizer RegexFeaturizer DIETClassifier
              eq_refl eq_refl eq_refl eq_refl eq_refl eq_refl))).
Defined.

(** The returned output of the scenario is not [train_Classifier_2]. *)
Lemma C3_counterexample :
  ∃ schema out,
    nlu_config_to_train_graph_schema scenario_components "examples/moodbot"
      scenario_config None None false = Some (schema, out) ∧
    out ≠ "train_Classifier_2".
Proof.
  set (run := nlu_config_to_train_graph_schema _ _ _ _ _ _).
  assert (output_of run = Some "process_Featurizer_1") as Hout by evaluated.
  destruct run as [[schema out]|]; [|done].
  exists schema, out. split; [done|]. by injection Hout as ->.
Qed.

(** ** only_process filtering *)

(** C4, as the code has it.  Compiled with [only_process], a pure train
    entry contributes no task: neither task name of the entry is a key of the
    schema.  No [needs] value is such a name either, unless the caller's own
    input task already bears that name, in which case the next step reads
    from it. *)
Theorem C4_only_process_filtering get_component_class project cfg ns input
    schema out pipeline i e c cls k0 :
  nlu_config_to_train_graph_schema get_component_class project cfg
    ns input true = Some (schema, out) →
  cfg_pipeline cfg = Some pipeline →
  pipeline !! i = Some e → e !! "name" = Some (PStr c) →
  get_component_class c = Some cls → meta cls = Some train →
  k0 ∈ ["train_" +:+ unique_name ns c i;
        "process_" +:+ unique_name ns c i] →
  (k0 ∉ dom schema) ∧
  (input ≠ Some k0 →
   ∀ k t p v, schema !! k = Some t → needs t !! p = Some v → v ≠ k0).
Proof.
  intros Hrun Hp Hi He Hc Hs Hk0.
  assert (k0 ∉ dom schema) as Hdom.
  { rewrite (nlu_compile_keys _ _ _ _ _ _ _ _ _ Hp Hrun).
    intros [[_ ->]|Hem].
    - apply elem_of_cons in Hk0 as [Hk0|Hk0%list_elem_of_singleton].
      + symmetry in Hk0. by apply train_ne_load_data in Hk0.
      + symmetry in Hk0. by apply process_ne_load_data in Hk0.
    - by eapply skipped_not_emitted. }
  split; [done|].
  intros Hin k t p v Hk Hv ->.
  destruct (truthy input) eqn:Htr.
  - destruct input as [t0|]; [|done].
    apply nlu_compile_closed_upto in Hrun as [Hcl _]; [|done].
    destruct (Hcl _ _ _ _ Hk Hv) as [?|Heq%elem_of_singleton]; [done|].
    by subst.
  - apply nlu_compile_closed in Hrun as [Hcl _]; [|done].
    by apply Hdom, (Hcl _ _ _ _ Hk Hv).
Qed.

(** The E2E sub-compile of the test config: [DIETClassifier] at index 5 is
    skipped. *)
Lemma C4_witness :
  match nlu_config_to_train_graph_schema registered_components
          "examples/moodbot" default_config
          (Some "core") (Some "convert_stories_for_nlu") true with
  | Some (schema, _) => "train_core_DIETClassifier_5" ∉ dom schema
  | None => False
  end.
Proof.
  returns (nlu_config_to_train_graph_schema registered_components
             "examples/moodbot" default_config
             (Some "core") (Some "convert_stories_for_nlu") true) r.
  destruct r as [schema out].
  refine (proj1 (C4_only_process_filtering registered_components
                   "examples/moodbot" default_config (Some "core")
                   (Some "convert_stories_for_nlu") schema out _ 5 _
                   "DIETClassifier" DIETClassifier
                   "train_core_DIETClassifier_5"
                   ltac:(eassumption) eq_refl eq_refl _ eq_refl eq_refl _)).
  - evaluated.
  - apply list_elem_of_here.
Defined.

(** An input task that bears the name of the skipped entry's train task:
    the tokenizer that follows reads from that name. *)
Lemma C4_counterexample :
  ∃ schema out,
    nlu_config_to_train_graph_schema registered_components "examples/moodbot"
      {| cfg_pipeline :=
           Some [named "DIETClassifier"; named "WhitespaceTokenizer"];
         cfg_policies := Some [] |}
      None (Some "train_DIETClassifier_0") true
    = Some (schema, out) ∧
    registered_components "DIETClassifier" = Some DIETClassifier ∧
    meta DIETClassifier = Some train ∧
    ∃ t, schema !! "process_WhitespaceTokenizer_1" = Some t ∧
         needs t !! "training_data"
         = Some ("train_" +:+ unique_name None "DIETClassifier" 0).
Proof.
  set (run := nlu_config_to_train_graph_schema _ _ _ _ _ _).
  assert (needs_of run "process_WhitespaceTokenizer_1" "training_data"
          = Some "train_DIETClassifier_0") as Hneeds by evaluated.
  destruct run as [[schema out]|]; [|done].
  exists schema, out. split_and!; [done..|].
  unfold needs_of, task_of in Hneeds. simpl in Hneeds.
  destruct (schema !! "process_WhitespaceTokenizer_1") as [t|]; [|done].
  by exists t.
Qed.

(** ** The Core compiler *)

(** C5, as the code has it.  When some policy trains with [e2e_features],
    the Core schema has [convert_stories_for_nlu] (reading [story_graph] from
    [load_stories]) and [create_e2e_lookup], which reads [training_data] from
    the output of the E2E sub-compile; when none does, it has neither.  The
    task under a policy's name is the policy's task, with the entry
    [e2e_features -> create_e2e_lookup] exactly when the policy declares the
    parameter, unless the end-to-end branch runs and its sub-schema has a
    task of that very name: then the schema holds that component task under
    the name, and it has no [e2e_features] entry. *)
Theorem C5_e2e_fan_out get_component_class policy_from_module_path project
    cfg schema names policies :
  core_config_to_train_graph_schema get_component_class
    policy_from_module_path project cfg = Some (schema, names) →
  cfg_policies cfg = Some policies →
  (some_policy_declares_e2e policy_from_module_path policies →
   (∃ t, schema !! "convert_stories_for_nlu" = Some t ∧
         needs t = {["story_graph" := "load_stories"]}) ∧
   (∃ nlu_schema nlu_out t,
      nlu_config_to_train_graph_schema get_component_class project cfg
        (Some "core") (Some "convert_stories_for_nlu") true
      = Some (nlu_schema, nlu_out) ∧
      schema !! "create_e2e_lookup" = Some t ∧
      needs t = {["training_data" := nlu_out]})) ∧
  (∀ i pe p cls,
     policies !! i = Some pe → pe !! "name" = Some (PStr p) →
     policy_from_module_path p = Some cls →
     let k := p +:+ "_" +:+ str i in
     (¬ e2e_replaces get_component_class policy_from_module_path project cfg
          policies k →
      ∃ t, schema !! k = Some t ∧
           uses t = Policy cls ∧
           needs t !! "e2e_features"
           = if declares_e2e_features cls then Some "create_e2e_lookup"
             else None) ∧
     (e2e_replaces get_component_class policy_from_module_path project cfg
        policies k →
      ∃ nlu_schema nlu_out t c,
        nlu_config_to_train_graph_schema get_component_class project cfg
          (Some "core") (Some "convert_stories_for_nlu") true
        = Some (nlu_schema, nlu_out) ∧
        nlu_schema !! k = Some t ∧ schema !! k = Some t ∧
        uses t = Component c ∧ needs t !! "e2e_features" = None)) ∧
  (¬ some_policy_declares_e2e policy_from_module_path policies →
   ("convert_stories_for_nlu" ∉ dom schema) ∧
   ("create_e2e_lookup" ∉ dom schema)).
Proof.
  intros Hc Hp. split_and!.
  - intros He2e.
    destruct (core_schema_e2e _ _ _ _ _ _ _ Hc Hp He2e)
      as (Hconv & nlu_schema & nlu_out & Hnlu & Hcreate).
    split; [by eexists|]. by exists nlu_schema, nlu_out; eexists.
  - intros i pe p cls Hi Hpe Hcls k.
    assert (core_emits policy_from_module_path 0 policies k cls
              (delete "name" pe)) as Hem.
    { exists i, pe, p. split_and!; done. }
    assert (∀ t, t = fill_task (policy_task cls (delete "name" pe)) →
                 uses t = Policy cls ∧
                 needs t !! "e2e_features"
                 = if declares_e2e_features cls
                   then Some "create_e2e_lookup" else None) as Hpolicy.
    { intros t ->. split; [done|]. simpl. unfold declares_e2e_features.
      by destruct (bool_decide _). }
    destruct (core_schema_policy_exact _ _ _ _ _ _ _ _ _ _ Hc Hp Hem)
      as [[Hno Hk]|(He2e & nlu_schema & nlu_out & Hnlu & Hk)].
    + split; [|by intros [He2e _]].
      intros _. eexists. split; [exact Hk|]. by apply Hpolicy.
    + split.
      * intros Hnot.
        assert (nlu_schema !! k = None) as Hnone.
        { apply not_elem_of_dom. intros Hin. apply Hnot.
          split; [done|]. by exists nlu_schema, nlu_out. }
        rewrite Hnone in Hk.
        eexists. split; [exact Hk|]. by apply Hpolicy.
      * intros (_ & nlu_schema' & nlu_out' & Hnlu' & Hin).
        assert (nlu_schema' = nlu_schema) as -> by congruence.
        apply elem_of_dom in Hin as [t Ht]. rewrite Ht in Hk.
        destruct (nlu_schema_component_tasks _ _ _ _
                    "convert_stories_for_nlu" _ _ _ _ _
                    eq_refl Hnlu Ht) as [[c Huses] Hneeds].
        by exists nlu_schema, nlu_out, t, c.
  - intros Hno. exact (core_schema_no_e2e _ _ _ _ _ _ _ Hc Hp Hno).
Qed.

Lemma C5_witness :
  match core_config_to_train_graph_schema registered_components
          sample_policies "examples/moodbot" default_config with
  | Some (schema, _) =>
      ∃ t, schema !! "TEDPolicy_1" = Some t ∧
           needs t !! "e2e_features" = Some "create_e2e_lookup"
  | None => False
  end.
Proof.
  returns (core_config_to_train_graph_schema registered_components
             sample_policies "examples/moodbot" default_config) r.
  destruct r as [schema names].
  assert (¬ e2e_replaces registered_components sample_policies
              "examples/moodbot" default_config
              (default (@nil entry) (cfg_policies default_config))
              "TEDPolicy_1") as Hnot.
  { clear. intros (_ & nlu_schema & nlu_out & Hsub & Hin).
    assert (succeeds
              (task_of (nlu_config_to_train_graph_schema
                          registered_components "examples/moodbot"
                          default_config (Some "core")
                          (Some "convert_stories_for_nlu") true)
                 "TEDPolicy_1") = false) as Hno by evaluated.
    rewrite Hsub in Hno. apply elem_of_dom in Hin as [t Ht].
    unfold task_of in Hno. cbn [fst] in Hno. by rewrite Ht in Hno. }
  destruct (proj1 (proj1 (proj2
              (C5_e2e_fan_out registered_components sample_policies
                 "examples/moodbot" default_config schema names _
                 ltac:(eassumption) eq_refl))
              1 _ "TEDPolicy" _ eq_refl ltac:(clear; evaluated) eq_refl)
              Hnot)
    as (t & Ht & _ & Hneeds).
  by exists t.
Defined.

(** A policy that trains with [e2e_features] and whose task name is also
    the name of the tokenizer's E2E process task: that task replaces the
    policy's, and carries no [e2e_features]. *)
Lemma C5_counterexample :
  ∃ schema names cls,
    core_config_to_train_graph_schema registered_components e2e_policies
      "examples/moodbot" e2e_clash_config = Some (schema, names) ∧
    names = ["process_core_WhitespaceTokenizer_0"] ∧
    e2e_policies "process_core_WhitespaceTokenizer" = Some cls ∧
    declares_e2e_features cls = true ∧
    ∃ t, schema !! "process_core_WhitespaceTokenizer_0" = Some t ∧
         needs t !! "e2e_features" = None.
Proof.
  set (run := core_config_to_train_graph_schema _ _ _ _).
  assert (output_of run = Some ["process_core_WhitespaceTokenizer_0"])
    as Hout by evaluated.
  assert (succeeds (task_of run "process_core_WhitespaceTokenizer_0") = true)
    as Htask by evaluated.
  assert (needs_of run "process_core_WhitespaceTokenizer_0" "e2e_features"
          = None) as Hneeds by evaluated.
  destruct run as [[schema names]|]; [|done].
  injection Hout as ->. unfold needs_of, task_of in *. simpl in *.
  destruct (schema !! "process_core_WhitespaceTokenizer_0") as [t|] eqn:Ht;
    [|done].
  eexists schema, _, _.
  split_and!; [reflexivity|reflexivity|reflexivity|evaluated|].
  by exists t.
Qed.

(** A policy that trains with [e2e_features] and is named like the train
    task a tokenizer would have under [core]: the tokenizer only processes,
    the E2E sub-schema has no task of that name, and the policy's task stays
    as it was built. *)
Example lookalike_policy_intact :
  needs_of (core_config_to_train_graph_schema registered_components
              e2e_policies "examples/moodbot" e2e_lookalike_config)
    "train_core_WhitespaceTokenizer_0" "e2e_features"
  = Some "create_e2e_lookup".
Proof. evaluated. Qed.

(** C7, as the code has it.  The Core compiler builds the task of the policy
    at index [i] inline, under the name [<policy-name>_<i>] (the train-only
    step builder would name it [train_<policy-name>_<i>]).  The returned
    names are these names, each is a task of the schema, and the task uses the
    policy class, has fn [train], the entry without its name as config, and
    needs [{training_trackers: generate_trackers, domain: load_domain}], plus
    [e2e_features: create_e2e_lookup] for a policy that declares it, as long
    as no task of the E2E sub-compile bears the same name. *)
Theorem C7_policy_tasks get_component_class policy_from_module_path project
    cfg schema names policies :
  core_config_to_train_graph_schema get_component_class
    policy_from_module_path project cfg = Some (schema, names) →
  cfg_policies cfg = Some policies →
  names = policy_task_names 0 policies ∧
  ∀ i pe p cls,
    policies !! i = Some pe → pe !! "name" = Some (PStr p) →
    policy_from_module_path p = Some cls →
    let k := p +:+ "_" +:+ str i in
    k ∈ dom schema ∧
    (¬ e2e_replaces get_component_class policy_from_module_path project cfg
         policies k →
     schema !! k =
     Some {| uses := Policy cls; fn := "train";
             config := CVal <$> delete "name" pe;
             needs :=
               if declares_e2e_features cls
               then <["e2e_features" := "create_e2e_lookup"]>
                      (<["domain" := "load_domain"]>
                         {["training_trackers" := "generate_trackers"]})
               else <["domain" := "load_domain"]>
                      {["training_trackers" := "generate_trackers"]};
             persist := Some true |}) ∧
    (∀ input config train_function param,
       dom (train_component (Policy cls) input config (Some k)
              train_function param).1 = {["train_" +:+ k]}).
Proof.
  intros Hc Hp. split.
  - apply core_compile_inv in Hc as (? & ? & ? & -> & _). by simplify_eq.
  - intros i pe p cls Hi Hpe Hcls k.
    assert (core_emits policy_from_module_path 0 policies k cls
              (delete "name" pe)) as Hem.
    { exists i, pe, p. split_and!; done. }
    split_and!.
    + by eapply core_schema_policy_dom.
    + intros Hnot.
      destruct (core_schema_policy_exact _ _ _ _ _ _ _ _ _ _ Hc Hp Hem)
        as [[_ ->]|(He2e & nlu_schema & nlu_out & Hnlu & ->)]; [done|].
      assert (nlu_schema !! k = None) as ->; [|done].
      apply not_elem_of_dom. intros Hin. apply Hnot.
      split; [done|]. by exists nlu_schema, nlu_out.
    + intros input config train_function param.
      unfold train_component. cbn [fst].
      rewrite dom_singleton_L. do 2 f_equal.
      unfold name_or_class, k. by destruct p.
Qed.

Lemma C7_witness :
  match core_config_to_train_graph_schema registered_components
          sample_policies "examples/moodbot" default_config with
  | Some (schema, names) =>
      names = ["MemoizationPolicy_0"; "TEDPolicy_1"; "RulePolicy_2"] ∧
      "RulePolicy_2" ∈ dom schema ∧
      ∃ t, schema !! "RulePolicy_2" = Some t ∧ fn t = "train" ∧
           needs t !! "training_trackers" = Some "generate_trackers" ∧
           needs t !! "e2e_features" = None
  | None => False
  end.
Proof.
  returns (core_config_to_train_graph_schema registered_components
             sample_policies "examples/moodbot" default_config) r.
  destruct r as [schema names].
  pose proof (C7_policy_tasks registered_components sample_policies
                "examples/moodbot" default_config schema names _
                ltac:(eassumption) eq_refl) as [Hnames Htasks].
  assert (¬ e2e_replaces registered_components sample_policies
              "examples/moodbot" default_config
              (default (@nil entry) (cfg_policies default_config))
              "RulePolicy_2") as Hnot.
  { clear. intros (_ & nlu_schema & nlu_out & Hsub & Hin).
    assert (succeeds
              (task_of (nlu_config_to_train_graph_schema
                          registered_components "examples/moodbot"
                          default_config (Some "core")
                          (Some "convert_stories_for_nlu") true)
                 "RulePolicy_2") = false) as Hno by evaluated.
    rewrite Hsub in Hno. apply elem_of_dom in Hin as [t Ht].
    unfold task_of in Hno. cbn [fst] in Hno. by rewrite Ht in Hno. }
  destruct (Htasks 2 _ "RulePolicy" _ eq_refl ltac:(clear; evaluated) eq_refl)
    as (Hdom & Htask & _).
  split_and!.
  - rewrite Hnames. clear. evaluated.
  - exact Hdom.
  - eexists. split; [exact (Htask Hnot)|]. clear. split_and!; reflexivity.
Defined.

(** The policy [MemoizationPolicy] at index 0 of the test config: the Core
    schema has no task [train_MemoizationPolicy_0]; its task is
    [MemoizationPolicy_0]. *)
Lemma C7_counterexample :
  ∃ schema names,
    core_config_to_train_graph_schema registered_components sample_policies
      "examples/moodbot" default_config = Some (schema, names) ∧
    ("train_MemoizationPolicy_0" ∉ dom schema) ∧
    ("MemoizationPolicy_0" ∈ dom schema).
Proof.
  set (run := core_config_to_train_graph_schema _ _ _ _).
  assert (succeeds (task_of run "train_MemoizationPolicy_0") = false) as Hno
    by evaluated.
  assert (succeeds (task_of run "MemoizationPolicy_0") = true) as Hyes
    by evaluated.
  destruct run as [[schema names]|]; [|done].
  exists schema, names. split_and!; [done| |].
  - by apply not_elem_of_dom, succeeds_false.
  - by apply elem_of_dom, succeeds_is_Some.
Qed.

(** ** The top-level merge *)

(** C8, as the code has it.  The top-level compile succeeds exactly when
    both compilers do, and returns the union of the two schemas in which the
    NLU task wins a shared name, with the Core policy task names followed by
    the NLU output.  The two schemas share no task name, and the union is the
    same whichever side wins, as long as no policy is named [train_<c>] or
    [process_<c>] for the pipeline entry [c] at its own index. *)
Theorem C8_merge_union get_component_class policy_from_module_path project
    cfg :
  old_config_to_graph_schema get_component_class policy_from_module_path
    project cfg
  = match nlu_config_to_train_graph_schema get_component_class project cfg
            None None false,
          core_config_to_train_graph_schema get_component_class
            policy_from_module_path project cfg with
    | Some (nlu_schema, nlu_out), Some (core_schema, core_outs) =>
        Some (nlu_schema ∪ core_schema, core_outs ++ [nlu_out])
    | _, _ => None
    end ∧
  ∀ nlu_schema nlu_out core_schema core_outs policies pipeline,
    nlu_config_to_train_graph_schema get_component_class project cfg
      None None false = Some (nlu_schema, nlu_out) →
    core_config_to_train_graph_schema get_component_class
      policy_from_module_path project cfg = Some (core_schema, core_outs) →
    cfg_policies cfg = Some policies → cfg_pipeline cfg = Some pipeline →
    names_apart None policies pipeline →
    dom core_schema ## dom nlu_schema ∧
    nlu_schema ∪ core_schema = core_schema ∪ nlu_schema.
Proof.
  split.
  - unfold old_config_to_graph_schema.
    destruct (nlu_config_to_train_graph_schema _ _ _ _ _ _) as [[n no]|];
      cbn [mbind option_bind]; [|done].
    by destruct (core_config_to_train_graph_schema _ _ _ _) as [[c co]|].
  - intros n no c co policies pipeline Hn Hc Hpo Hpl Hap.
    pose proof (schemas_disjoint _ _ _ _ _ _ _ _ _ _ Hc Hn Hpo Hpl Hap)
      as Hdisj.
    split; [done|].
    apply map_union_comm, map_disjoint_dom. by symmetry.
Qed.

Lemma C8_witness :
  match nlu_config_to_train_graph_schema registered_components
          "examples/moodbot" default_config None None false,
        core_config_to_train_graph_schema registered_components
          sample_policies "examples/moodbot" default_config with
  | Some (nlu_schema, _), Some (core_schema, _) =>
      dom core_schema ## dom nlu_schema
  | _, _ => False
  end.
Proof.
  returns (nlu_config_to_train_graph_schema registered_components
             "examples/moodbot" default_config None None false) n.
  returns (core_config_to_train_graph_schema registered_components
             sample_policies "examples/moodbot" default_config) c.
  destruct n as [nlu_schema nlu_out], c as [core_schema core_outs].
  refine (proj1 (proj2 (C8_merge_union registered_components sample_policies
                          "examples/moodbot" default_config)
                   nlu_schema nlu_out core_schema core_outs _ _
                   ltac:(eassumption) ltac:(eassumption) eq_refl eq_refl _)).
  clear. names_apart_by_cases.
Defined.

(** A policy named [train_RegexFeaturizer] at the index of the
    [RegexFeaturizer]: both schemas have a task [train_RegexFeaturizer_0]. *)
Lemma C8_counterexample :
  ∃ nlu_schema nlu_out core_schema core_outs,
    nlu_config_to_train_graph_schema registered_components
      "examples/moodbot" merge_clash_config None None false
    = Some (nlu_schema, nlu_out) ∧
    core_config_to_train_graph_schema registered_components sample_policies
      "examples/moodbot" merge_clash_config = Some (core_schema, core_outs) ∧
    ¬ (dom core_schema ## dom nlu_schema).
Proof.
  set (nlu_run := nlu_config_to_train_graph_schema _ _ _ _ _ _).
  set (core_run := core_config_to_train_graph_schema _ _ _ _).
  assert (succeeds (task_of nlu_run "train_RegexFeaturizer_0") = true) as Hn
    by evaluated.
  assert (succeeds (task_of core_run "train_RegexFeaturizer_0") = true) as Hc
    by evaluated.
  destruct nlu_run as [[nlu_schema nlu_out]|]; [|done].
  destruct core_run as [[core_schema core_outs]|]; [|done].
  exists nlu_schema, nlu_out, core_schema, core_outs.
  split_and!; [done..|].
  intros Hdisj.
  apply (Hdisj "train_RegexFeaturizer_0");
    by apply elem_of_dom, succeeds_is_Some.
Qed.

(** ** Mutation and determinism *)

(** C9.  In the store model, where [pop] mutates the dict it is applied to
    and the caller keeps its references: a run of the NLU or of the Core
    compiler leaves every dict that existed before the call as it was, also
    when it raises (the names are popped off the deep copies), so the config
    denotes the same mapping afterwards; a second run from the store the
    first one leaves returns the same result; and the result is the one of
    the compilers by value on the contents of the config. *)
Theorem C9_no_mutation_and_determinism get_component_class
    policy_from_module_path project config h :
  let nlu := Heap.nlu_config_to_train_graph_schema get_component_class
               project config in
  let core := Heap.core_config_to_train_graph_schema get_component_class
                policy_from_module_path project config in
  ((∀ ns input only, h ⊆ (nlu ns input only h).2) ∧ h ⊆ (core h).2) ∧
  (Heap.well_formed h config →
   (∀ ns input only,
      deref (nlu ns input only h).2 config = deref h config ∧
      (nlu ns input only (nlu ns input only h).2).1
      = (nlu ns input only h).1) ∧
   deref (core h).2 config = deref h config ∧
   (core (core h).2).1 = (core h).1) ∧
  (Heap.well_formed h config → Heap.unshared config →
   (∀ ns input only,
      (nlu ns input only h).1
      = nlu_config_to_train_graph_schema get_component_class project
          (deref h config) ns input only) ∧
   (core h).1
   = core_config_to_train_graph_schema get_component_class
       policy_from_module_path project (deref h config)).
Proof.
  intros nlu core. split_and!.
  - intros ns input only. apply nlu_frame.
  - apply core_frame.
  - intros Hwf. split_and!.
    + intros ns input only. split.
      * apply deref_weaken; [apply nlu_frame|done].
      * apply (rerun (nlu ns input only)
                 (λ c, nlu_config_to_train_graph_schema get_component_class
                         project c ns input only) config);
          [|intros; apply nlu_frame|done].
        intros h' Hwf'. by apply nlu_refines.
    + apply deref_weaken; [apply core_frame|done].
    + apply (rerun core
               (core_config_to_train_graph_schema get_component_class
                  policy_from_module_path project) config);
        [|intros; apply core_frame|done].
      intros h' Hwf'. by apply core_refines.
  - intros Hwf Hun. split.
    + intros ns input only. unfold nlu.
      by rewrite nlu_refines, observed_unshared.
    + unfold core. by rewrite core_refines, observed_unshared.
Qed.

Lemma C9_witness :
  let core := Heap.core_config_to_train_graph_schema registered_components
                sample_policies "examples/moodbot" sample_heap_config in
  succeeds (core sample_heap).1 = true ∧
  (core (core sample_heap).2).1 = (core sample_heap).1 ∧
  deref (core sample_heap).2 sample_heap_config
  = deref sample_heap sample_heap_config.
Proof.
  intros core. split; [evaluated|].
  assert (Heap.well_formed sample_heap sample_heap_config) as Hwf.
  { split; intros ls l [= <-] Hl; apply elem_of_dom;
      repeat (apply elem_of_cons in Hl as [->|Hl]);
      try (by apply elem_of_nil in Hl); apply succeeds_is_Some; evaluated. }
  destruct (proj1 (proj2 (C9_no_mutation_and_determinism
                            registered_components sample_policies
                            "examples/moodbot" sample_heap_config
                            sample_heap)) Hwf)
    as (_ & Hderef & Hrerun).
  by split.
Defined.

(** An entry object that occurs twice in the pipeline is copied once, and
    the second [pop("name")] on the copy raises. *)
Example shared_entry_raises :
  (Heap.nlu_config_to_train_graph_schema registered_components
     "examples/moodbot"
     {| Heap.cfg_pipeline := Some [1; 1]%positive;
        Heap.cfg_policies := Some [] |}
     None None false sample_heap).1 = None.
Proof. apply succeeds_false. evaluated. Qed.

(** * Further properties of the compilers *)

(** ** When a compile returns *)

Ltac entries_in_store :=
  split; intros ls l [= <-] Hl; apply elem_of_dom;
  repeat (apply elem_of_cons in Hl as [->|Hl]);
  try (by apply elem_of_nil in Hl); apply succeeds_is_Some; evaluated.

(** X1.  The NLU compiler, run on a config whose entries are dict objects in
    a store, returns exactly when the config has a [pipeline], no entry
    object occurs twice in it, and every entry has a text [name] that the
    registry resolves to a class of [meta].  The namespace, the input task
    and [only_process] play no part: a pure train entry that [only_process]
    skips is popped and resolved all the same, and raises if it does not
    resolve. *)
Theorem X1_nlu_returns get_component_class project config ns input only h :
  Heap.well_formed h config →
  succeeds (Heap.nlu_config_to_train_graph_schema get_component_class
              project config ns input only h).1
  = match Heap.cfg_pipeline config with
    | Some nlu_pipeline =>
        bool_decide (NoDup nlu_pipeline)
        && forallb (λ e, succeeds (entry_kind get_component_class e))
             (contents h nlu_pipeline)
    | None => false
    end.
Proof.
  intros Hwf. rewrite nlu_refines by done.
  rewrite nlu_compile_succeeds. unfold observed. simpl.
  destruct (Heap.cfg_pipeline config) as [ls|]; simpl; [|done].
  by destruct (decide (NoDup ls));
    [rewrite bool_decide_eq_true_2|rewrite bool_decide_eq_false_2].
Qed.

Lemma X1_witness :
  succeeds (Heap.nlu_config_to_train_graph_schema registered_components
              "examples/moodbot" sample_heap_config None None false
              sample_heap).1 = true ∧
  succeeds (Heap.nlu_config_to_train_graph_schema registered_components
              "examples/moodbot" shared_heap_config None None false
              sample_heap).1 = false.
Proof.
  assert (Heap.well_formed sample_heap sample_heap_config) as Hwf
    by entries_in_store.
  assert (Heap.well_formed sample_heap shared_heap_config) as Hwf'
    by entries_in_store.
  split.
  - rewrite (X1_nlu_returns registered_components "examples/moodbot"
               sample_heap_config None None false sample_heap Hwf).
    clear. evaluated.
  - rewrite (X1_nlu_returns registered_components "examples/moodbot"
               shared_heap_config None None false sample_heap Hwf').
    clear. evaluated.
Defined.

(** X2.  The Core compiler, run on a config in a store, returns exactly when
    the config has [policies], no policy entry object occurs twice, every
    policy entry has a text [name] that the policy registry resolves, and,
    only if some policy trains with [e2e_features], the config has a
    [pipeline] without a repeated entry object whose entries all resolve.
    Without such a policy the [pipeline] key is never read. *)
Theorem X2_core_returns get_component_class policy_from_module_path project
    config h :
  Heap.well_formed h config →
  succeeds (Heap.core_config_to_train_graph_schema get_component_class
              policy_from_module_path project config h).1
  = match Heap.cfg_policies config with
    | Some policies =>
        bool_decide (NoDup policies)
        && forallb (λ e, succeeds (entry_policy policy_from_module_path e))
             (contents h policies)
        && (if existsb (entry_declares_e2e policy_from_module_path)
                 (contents h policies)
            then match Heap.cfg_pipeline config with
                 | Some nlu_pipeline =>
                     bool_decide (NoDup nlu_pipeline)
                     && forallb
                          (λ e, succeeds (entry_kind get_component_class e))
                          (contents h nlu_pipeline)
                 | None => false
                 end
            else true)
    | None => false
    end.
Proof.
  intros Hwf. rewrite core_refines by done.
  rewrite core_compile_succeeds. unfold observed. simpl.
  destruct (Heap.cfg_policies config) as [ps|]; simpl; [|done].
  destruct (decide (NoDup ps));
    [rewrite bool_decide_eq_true_2 by done
    |by rewrite bool_decide_eq_false_2].
  simpl. destruct (forallb _ (contents h ps)); simpl; [|done].
  destruct (existsb _ (contents h ps)); [|done].
  destruct (Heap.cfg_pipeline config) as [ls|]; simpl; [|done].
  by destruct (decide (NoDup ls));
    [rewrite bool_decide_eq_true_2|rewrite bool_decide_eq_false_2].
Qed.

Lemma X2_witness :
  succeeds (Heap.core_config_to_train_graph_schema registered_components
              sample_policies "examples/moodbot" sample_heap_config
              sample_heap).1 = true ∧
  succeeds (Heap.core_config_to_train_graph_schema registered_components
              sample_policies "examples/moodbot" shared_heap_config
              sample_heap).1 = false.
Proof.
  assert (Heap.well_formed sample_heap sample_heap_config) as Hwf
    by entries_in_store.
  assert (Heap.well_formed sample_heap shared_heap_config) as Hwf'
    by entries_in_store.
  split.
  - rewrite (X2_core_returns registered_components sample_policies
               "examples/moodbot" sample_heap_config sample_heap Hwf).
    clear. evaluated.
  - rewrite (X2_core_returns registered_components sample_policies
               "examples/moodbot" shared_heap_config sample_heap Hwf').
    clear. evaluated.
Defined.

(** X3.  The merged compile, run on a config in a store, returns exactly
    when the config has both lists, no entry object occurs twice in either,
    and every entry of both resolves; whether a policy trains with
    [e2e_features] makes no difference to that. *)
Theorem X3_merge_returns get_component_class policy_from_module_path project
    config h :
  Heap.well_formed h config →
  succeeds (Heap.old_config_to_graph_schema get_component_class
              policy_from_module_path project config h).1
  = match Heap.cfg_pipeline config, Heap.cfg_policies config with
    | Some nlu_pipeline, Some policies =>
        bool_decide (NoDup nlu_pipeline)
        && forallb (λ e, succeeds (entry_kind get_component_class e))
             (contents h nlu_pipeline)
        && (bool_decide (NoDup policies)
            && forallb
                 (λ e, succeeds (entry_policy policy_from_module_path e))
                 (contents h policies))
    | _, _ => false
    end.
Proof.
  intros Hwf. rewrite old_refines by done.
  rewrite old_compile_succeeds. unfold observed. simpl.
  destruct (Heap.cfg_pipeline config) as [ls|]; simpl; [|done].
  destruct (decide (NoDup ls));
    [rewrite bool_decide_eq_true_2 by done
    |rewrite bool_decide_eq_false_2 by done;
     by destruct (Heap.cfg_policies config)].
  destruct (Heap.cfg_policies config) as [ps|]; simpl; [|done].
  destruct (decide (NoDup ps));
    [by rewrite bool_decide_eq_true_2
    |rewrite bool_decide_eq_false_2 by done].
  by destruct (forallb _ (contents h ls)).
Qed.

Lemma X3_witness :
  succeeds (Heap.old_config_to_graph_schema registered_components
              sample_policies "examples/moodbot" sample_heap_config
              sample_heap).1 = true ∧
  succeeds (Heap.old_config_to_graph_schema registered_components
              sample_policies "examples/moodbot" shared_heap_config
              sample_heap).1 = false.
Proof.
  assert (Heap.well_formed sample_heap sample_heap_config) as Hwf
    by entries_in_store.
  assert (Heap.well_formed sample_heap shared_heap_config) as Hwf'
    by entries_in_store.
  split.
  - rewrite (X3_merge_returns registered_components sample_policies
               "examples/moodbot" sample_heap_config sample_heap Hwf).
    clear. evaluated.
  - rewrite (X3_merge_returns registered_components sample_policies
               "examples/moodbot" shared_heap_config sample_heap Hwf').
    clear. evaluated.
Defined.

(** ** Prefixes, wiring and outputs of the NLU compile *)

(** X4.  Compiling a pipeline goes through compiling each of its prefixes:
    when the compile of a pipeline returns, so does the compile of any
    prefix of it, and every task of the prefix's schema is in the schema of
    the whole pipeline unchanged.  Later entries never overwrite a task of
    an earlier one, whatever the entries are named. *)
Theorem X4_prefix_stable get_component_class project cfg ns input only
    l1 l2 schema out :
  cfg_pipeline cfg = Some (l1 ++ l2) →
  nlu_config_to_train_graph_schema get_component_class project cfg
    ns input only = Some (schema, out) →
  ∃ schema1 out1,
    nlu_config_to_train_graph_schema get_component_class project
      {| cfg_pipeline := Some l1; cfg_policies := cfg_policies cfg |}
      ns input only = Some (schema1, out1) ∧
    schema1 ⊆ schema.
Proof.
  intros Hl Hrun.
  apply nlu_compile_Some in Hrun as (l & g & Hl' & Hloop & ->).
  assert (l = l1 ++ l2) as -> by congruence.
  apply nlu_loop_prefix in Hloop as (g1 & out1 & H1 & _ & Hsub).
  exists (fill_defaults g1), out1. split.
  - apply nlu_compile_Some. by exists l1, g1.
  - by apply fill_defaults_mono.
Qed.

Lemma X4_witness :
  match nlu_config_to_train_graph_schema scenario_components
          "examples/moodbot" scenario_config None None false with
  | Some (schema, _) =>
      ∃ schema1 out1,
        nlu_config_to_train_graph_schema scenario_components
          "examples/moodbot"
          {| cfg_pipeline := Some [named "Tokenizer"];
             cfg_policies := Some [] |}
          None None false = Some (schema1, out1) ∧
        schema1 ⊆ schema
  | None => False
  end.
Proof.
  returns (nlu_config_to_train_graph_schema scenario_components
             "examples/moodbot" scenario_config None None false) r.
  destruct r as [schema out].
  exact (X4_prefix_stable scenario_components "examples/moodbot"
           scenario_config None None false
           [named "Tokenizer"] [named "Featurizer"; named "Classifier"]
           schema out eq_refl ltac:(eassumption)).
Defined.

(** X5.  The tasks of a pipeline entry are in the schema as the builder of
    its step kind made them, wired to the output of the compile of the
    entries before it: a process entry gives one process task that is not
    persisted; a train-and-process entry gives a train task and a process
    task that reads the train task as [resource_name], both persisted; a
    pure train entry gives one persisted train task unless [only_process]
    is set.  Each task's config is the entry without its name under
    [component_config]. *)
Theorem X5_entry_tasks get_component_class project cfg ns input only
    l1 e l2 c cls s schema out :
  cfg_pipeline cfg = Some (l1 ++ e :: l2) →
  nlu_config_to_train_graph_schema get_component_class project cfg
    ns input only = Some (schema, out) →
  e !! "name" = Some (PStr c) → get_component_class c = Some cls →
  meta cls = Some s →
  ∃ schema1 out1,
    nlu_config_to_train_graph_schema get_component_class project
      {| cfg_pipeline := Some l1; cfg_policies := cfg_policies cfg |}
      ns input only = Some (schema1, out1) ∧
    let u := unique_name ns c (length l1) in
    let component_config : gmap string cfgvalue :=
      {["component_config" := CDict (delete "name" e)]} in
    let train_task :=
      {| uses := Component cls; fn := "train"; config := component_config;
         needs := {["training_data" := out1]}; persist := Some true |} in
    match s with
    | process =>
        schema !! ("process_" +:+ u) =
        Some {| uses := Component cls; fn := "process_training_data";
                config := component_config;
                needs := {["training_data" := out1]};
                persist := Some false |}
    | train =>
        only = false → schema !! ("train_" +:+ u) = Some train_task
    | train_process =>
        schema !! ("train_" +:+ u) = Some train_task ∧
        schema !! ("process_" +:+ u) =
        Some {| uses := Component cls; fn := "process_training_data";
                config := component_config;
                needs := <["training_data" := out1]>
                           {["resource_name" := "train_" +:+ u]};
                persist := Some true |}
    end.
Proof.
  intros Hl Hrun He Hc Hs.
  apply nlu_compile_Some in Hrun as (l & g & Hl' & Hloop & ->).
  assert (l = l1 ++ e :: l2) as -> by congruence.
  pose proof Hloop as Hpre.
  apply nlu_loop_prefix in Hpre as (g1 & out1 & H1 & _ & _).
  exists (fill_defaults g1), out1. split.
  { apply nlu_compile_Some. by exists l1, g1. }
  intros u component_config train_task.
  assert (∀ k t,
    (s = train → only = false) →
    (builder s (Component cls) out1 (Some u) (Some component_config)).1 !! k
      = Some t →
    fill_defaults g !! k = Some (fill_task t)) as Htask.
  { intros k t Honly Hk. apply fill_defaults_lookup_Some.
    destruct (nlu_loop_entry _ _ _ _ _ _ _ _ _ _ _ _ _ Hloop He Hc Hs Honly)
      as (g1' & out1' & H1' & Hin).
    assert (out1' = out1) as -> by congruence.
    by apply Hin. }
  subst u component_config train_task.
  destruct s;
    cbv beta iota zeta delta
      [builder process_component train_component train_and_process_component]
      in Htask;
    rewrite name_or_class_unique, config_or_empty_component in Htask;
    cbn [fst] in Htask.
  - exact (Htask _ _ ltac:(done) (lookup_singleton_eq _ _)).
  - intros Honly. exact (Htask _ _ (λ _, Honly) (lookup_singleton_eq _ _)).
  - split.
    + specialize (Htask ("train_" +:+ unique_name ns c (length l1))).
      rewrite lookup_insert_ne, lookup_singleton_eq in Htask
        by (intros H; symmetry in H; by apply train_ne_process in H).
      exact (Htask _ ltac:(done) eq_refl).
    + exact (Htask _ _ ltac:(done) (lookup_insert_eq _ _ _)).
Qed.

Lemma X5_witness :
  match nlu_config_to_train_graph_schema scenario_components
          "examples/moodbot" scenario_config None None false with
  | Some (schema, _) =>
      ∃ t, schema !! "process_Featurizer_1" = Some t ∧
           needs t !! "resource_name" = Some "train_Featurizer_1" ∧
           needs t !! "training_data" = Some "process_Tokenizer_0"
  | None => False
  end.
Proof.
  returns (nlu_config_to_train_graph_schema scenario_components
             "examples/moodbot" scenario_config None None false) r.
  destruct r as [schema out].
  assert (named "Featurizer" !! "name" = Some (PStr "Featurizer")) as He
    by evaluated.
  destruct (X5_entry_tasks scenario_components "examples/moodbot"
              scenario_config None None false
              [named "Tokenizer"] (named "Featurizer") [named "Classifier"]
              "Featurizer" RegexFeaturizer train_process schema out
              eq_refl ltac:(eassumption) He eq_refl eq_refl)
    as (schema1 & out1 & Hprefix & _ & Hprocess).
  assert (out1 = "process_Tokenizer_0") as ->.
  { assert (output_of (nlu_config_to_train_graph_schema scenario_components
                         "examples/moodbot"
                         {| cfg_pipeline := Some [named "Tokenizer"];
                            cfg_policies := cfg_policies scenario_config |}
                         None None false)
            = Some "process_Tokenizer_0") as Hout by evaluated.
    rewrite Hprefix in Hout. by injection Hout. }
  eexists. split; [exact Hprocess|]. split; reflexivity.
Defined.

(** X6.  The output of the NLU compile is the process task of the last entry
    that is not a pure train entry, at its index; when every entry is a pure
    train entry (or the pipeline is empty) it is the initial pointer: the
    caller's input task, or [load_data].  [only_process] does not enter. *)
Theorem X6_last_output get_component_class project cfg ns input only
    schema out :
  nlu_config_to_train_graph_schema get_component_class project cfg
    ns input only = Some (schema, out) →
  (∀ l1 e l2 c cls s,
     cfg_pipeline cfg = Some (l1 ++ e :: l2) →
     e !! "name" = Some (PStr c) → get_component_class c = Some cls →
     meta cls = Some s → s ≠ train →
     Forall (λ e', entry_kind get_component_class e' = Some train) l2 →
     out = "process_" +:+ unique_name ns c (length l1)) ∧
  (∀ l,
     cfg_pipeline cfg = Some l →
     Forall (λ e', entry_kind get_component_class e' = Some train) l →
     out = (nlu_initial project input).2).
Proof.
  intros Hrun.
  apply nlu_compile_Some in Hrun as (l & g & Hl & Hloop & ->).
  split.
  - intros l1 e l2 c cls s Hl' He Hc Hs Hne Hall.
    assert (l = l1 ++ e :: l2) as -> by congruence.
    apply nlu_loop_prefix in Hloop as (g1 & out1 & _ & H2 & _).
    simpl in H2.
    destruct (nlu_step _ _ _ _ _ _) as [[g2 out2]|] eqn:Hstep;
      cbn [mbind option_bind] in H2; [|done].
    apply (nlu_loop_train_out _ _ _ _ _ _ _ _ _ Hall) in H2 as ->.
    apply nlu_step_spec in Hstep
      as (c' & cls' & s' & frag & He' & Hc' & Hs' & _ & _ & _ & ->).
    assert (c' = c) as -> by congruence.
    assert (s' = s) as -> by congruence.
    by destruct s.
  - intros l' Hl' Hall. assert (l' = l) as -> by congruence.
    destruct (nlu_initial project input) as [g0 out0].
    by apply (nlu_loop_train_out _ _ _ _ _ _ _ _ _ Hall) in Hloop.
Qed.

Lemma X6_witness :
  output_of (nlu_config_to_train_graph_schema scenario_components
               "examples/moodbot" scenario_config None None false)
  = Some "process_Featurizer_1".
Proof.
  returns (nlu_config_to_train_graph_schema scenario_components
             "examples/moodbot" scenario_config None None false) r.
  destruct r as [schema out]. simpl. f_equal.
  refine (proj1 (X6_last_output scenario_components "examples/moodbot"
                   scenario_config None None false schema out
                   ltac:(eassumption))
            [named "Tokenizer"] (named "Featurizer") [named "Classifier"]
            "Featurizer" RegexFeaturizer train_process
            eq_refl _ eq_refl eq_refl _ _).
  - evaluated.
  - discriminate.
  - repeat constructor.
Defined.

(** X7.  With [only_process] the compile returns a sub-graph of the compile
    without it, and the same output: the compile without [only_process]
    returns as well, every task of the process-only schema is in the full
    schema unchanged, and the tasks that are missing are exactly the train
    tasks of the pure train entries. *)
Theorem X7_only_process_subgraph get_component_class project cfg ns input
    schema out :
  nlu_config_to_train_graph_schema get_component_class project cfg
    ns input true = Some (schema, out) →
  ∃ full pipeline,
    nlu_config_to_train_graph_schema get_component_class project cfg
      ns input false = Some (full, out) ∧
    cfg_pipeline cfg = Some pipeline ∧
    schema ⊆ full ∧
    ∀ k, (k ∈ dom full ∧ k ∉ dom schema) ↔
         ∃ i e c cls,
           pipeline !! i = Some e ∧ e !! "name" = Some (PStr c) ∧
           get_component_class c = Some cls ∧ meta cls = Some train ∧
           k = "train_" +:+ unique_name ns c i.
Proof.
  intros Hrun.
  assert (succeeds (nlu_config_to_train_graph_schema get_component_class
                      project cfg ns input false) = true) as Hfull.
  { rewrite nlu_compile_succeeds.
    rewrite <- (nlu_compile_succeeds _ project cfg ns input true).
    by rewrite Hrun. }
  destruct (nlu_config_to_train_graph_schema _ _ _ _ _ false)
    as [[full out']|] eqn:Hrun'; [clear Hfull|done].
  pose proof Hrun as Ht. pose proof Hrun' as Hf.
  apply nlu_compile_Some in Ht as (l & gt & Hl & Hloop & Hst).
  apply nlu_compile_Some in Hf as (l' & gf & Hl' & Hloop' & Hsf).
  assert (l' = l) as -> by congruence.
  destruct (nlu_initial project input) as [g0 out0] eqn:Hinit.
  destruct (nlu_loop_only_process get_component_class ns l 0 g0 g0 out0
              gt gf out out') as [Hsub ->]; [done| |done|done|].
  { intros k Hk. eapply nlu_initial_fresh. by rewrite Hinit. }
  exists full, l. split_and!; try done.
  { subst. by apply fill_defaults_mono. }
  intros k.
  rewrite (nlu_compile_keys _ _ _ _ _ _ _ _ _ Hl Hrun').
  rewrite (nlu_compile_keys _ _ _ _ _ _ _ _ _ Hl Hrun).
  split.
  - intros [[Hk|Hk] Hnot]; [by destruct Hnot; left|].
    destruct Hk as (j & e & c & cls & s & Hj & He & Hc & Hs & Hk).
    assert (s = train) as ->.
    { destruct s; try done; destruct Hnot; right;
        exists j, e, c, cls; [exists process|exists train_process];
        by split_and!. }
    exists j, e, c, cls. split_and!; try done.
    simpl in Hk. by apply list_elem_of_singleton in Hk.
  - intros (i & e & c & cls & Hi & He & Hc & Hs & ->). split.
    + right. exists i, e, c, cls, train. split_and!; try done.
      simpl. apply list_elem_of_here.
    + intros [[_ Hk]|Hk]; [by apply train_ne_load_data in Hk|].
      eapply skipped_not_emitted; [exact Hi|exact He|exact Hc|exact Hs| |
                                   exact Hk].
      apply list_elem_of_here.
Qed.

Lemma X7_witness :
  match nlu_config_to_train_graph_schema registered_components
          "examples/moodbot" default_config
          (Some "core") (Some "convert_stories_for_nlu") true with
  | Some (schema, out) =>
      ∃ full,
        nlu_config_to_train_graph_schema registered_components
          "examples/moodbot" default_config
          (Some "core") (Some "convert_stories_for_nlu") false
        = Some (full, out) ∧
        schema ⊆ full
  | None => False
  end.
Proof.
  returns (nlu_config_to_train_graph_schema registered_components
             "examples/moodbot" default_config
             (Some "core") (Some "convert_stories_for_nlu") true) r.
  destruct r as [schema out].
  destruct (X7_only_process_subgraph registered_components
              "examples/moodbot" default_config
              (Some "core") (Some "convert_stories_for_nlu") schema out
              ltac:(eassumption))
    as (full & pipeline & Hfull & _ & Hsub & _).
  by exists full.
Defined.

(** ** The Core schema and the merged schema *)

(** X8.  When some policy trains with [e2e_features], the Core schema
    contains the whole process-only NLU schema of the end-to-end branch,
    task for task as the NLU compiler returned it: the tasks merged before
    it give way to it, and the lookup task added after it does not touch
    it. *)
Theorem X8_core_contains_sub get_component_class policy_from_module_path
    project cfg schema names policies :
  core_config_to_train_graph_schema get_component_class
    policy_from_module_path project cfg = Some (schema, names) →
  cfg_policies cfg = Some policies →
  existsb (entry_declares_e2e policy_from_module_path) policies = true →
  ∃ nlu_schema nlu_out,
    nlu_config_to_train_graph_schema get_component_class project cfg
      (Some "core") (Some "convert_stories_for_nlu") true
      = Some (nlu_schema, nlu_out) ∧
    nlu_schema ⊆ schema.
Proof.
  intros Hrun Hps He2e.
  pose proof Hrun as Hinv.
  apply core_compile_Some in Hinv as (ps & G & e2e & Hps' & Hloop & Hrest).
  assert (ps = policies) as -> by congruence.
  apply core_loop_flag in Hloop as ->. rewrite He2e in Hrest.
  destruct Hrest as (nlu_schema & nlu_out & Hnlu & _).
  exists nlu_schema, nlu_out. split; [done|].
  by eapply core_compile_sub.
Qed.

Lemma X8_witness :
  match core_config_to_train_graph_schema registered_components
          sample_policies "examples/moodbot" default_config with
  | Some (schema, _) =>
      ∃ nlu_schema nlu_out,
        nlu_config_to_train_graph_schema registered_components
          "examples/moodbot" default_config
          (Some "core") (Some "convert_stories_for_nlu") true
          = Some (nlu_schema, nlu_out) ∧
        nlu_schema ⊆ schema
  | None => False
  end.
Proof.
  returns (core_config_to_train_graph_schema registered_components
             sample_policies "examples/moodbot" default_config) r.
  destruct r as [schema names].
  refine (X8_core_contains_sub registered_components sample_policies
            "examples/moodbot" default_config schema names _
            ltac:(eassumption) eq_refl _).
  evaluated.
Defined.

(** X9.  The root tasks are never overwritten.  Every Core schema has the
    three tasks the Core graph starts from ([load_domain], [load_stories],
    [generate_trackers]) with their defaults filled in, and every merged
    schema has these and the [load_data] task of the NLU graph, whatever the
    components and policies of the config are named. *)
Theorem X9_root_tasks get_component_class policy_from_module_path project
    cfg :
  (∀ schema names,
     core_config_to_train_graph_schema get_component_class
       policy_from_module_path project cfg = Some (schema, names) →
     fill_defaults (core_base project) ⊆ schema) ∧
  (∀ schema outs,
     old_config_to_graph_schema get_component_class policy_from_module_path
       project cfg = Some (schema, outs) →
     fill_defaults
       (<["load_data" := load_data_task project]> (core_base project))
     ⊆ schema).
Proof.
  split; [intros schema names; apply core_compile_base|].
  intros schema outs Hrun. unfold old_config_to_graph_schema in Hrun.
  destruct (nlu_config_to_train_graph_schema _ _ _ _ _ _)
    as [[nlu_schema nlu_out]|] eqn:Hnlu;
    cbn [mbind option_bind] in Hrun; [|done].
  destruct (core_config_to_train_graph_schema _ _ _ _)
    as [[core_schema core_outs]|] eqn:Hcore;
    cbn [mbind option_bind] in Hrun; [|done].
  injection Hrun as <- <-.
  pose proof (core_compile_base _ _ _ _ _ _ Hcore) as Hbase.
  pose proof Hnlu as Hinv.
  apply nlu_compile_Some in Hinv as (l & g & Hl & Hloop & ->).
  assert (g !! "load_data" = Some (load_data_task project)) as Hload.
  { assert ((nlu_initial project None).1 ⊆ g) as Hsub.
    { eapply nlu_loop_mono; [by rewrite <- surjective_pairing|].
      intros k. apply nlu_initial_fresh. }
    eapply lookup_weaken; [|exact Hsub]. apply lookup_singleton_eq. }
  apply map_subseteq_spec. intros k t Hk.
  apply lookup_fmap_Some in Hk as (t0 & <- & Hk). rewrite update_lookup.
  apply lookup_insert_Some in Hk as [[<- <-]|[Hne Hk]].
  - by rewrite (fill_defaults_lookup_Some _ _ _ Hload).
  - assert (fill_defaults g !! k = None) as ->.
    { apply not_elem_of_dom. intros Hin.
      apply (nlu_compile_keys _ _ _ _ _ _ _ _ _ Hl Hnlu) in Hin
        as [[_ ->]|Hemit]; [done|].
      apply emitted_not_fixed in Hemit.
      assert (k ∈ dom (core_base project)) as Hdom
        by (apply elem_of_dom; eauto).
      rewrite core_base_dom in Hdom. set_solver. }
    eapply lookup_weaken; [|exact Hbase].
    by apply fill_defaults_lookup_Some.
Qed.

Lemma X9_witness :
  match old_config_to_graph_schema registered_components sample_policies
          "examples/moodbot" default_config with
  | Some (schema, _) =>
      fill_defaults
        (<["load_data" := load_data_task "examples/moodbot"]>
           (core_base "examples/moodbot"))
      ⊆ schema
  | None => False
  end.
Proof.
  returns (old_config_to_graph_schema registered_components sample_policies
             "examples/moodbot" default_config) r.
  destruct r as [schema outs].
  exact (proj2 (X9_root_tasks registered_components sample_policies
                  "examples/moodbot" default_config)
           schema outs ltac:(eassumption)).
Defined.

(** X10.  The NLU schema has a [load_data] task exactly when the caller
    gives no input task (none, or the empty text): then it is the reader of
    the project's training data, and no pipeline entry replaces it; with an
    input task the schema has no [load_data] task at all. *)
Theorem X10_load_data get_component_class project cfg ns input only
    schema out :
  nlu_config_to_train_graph_schema get_component_class project cfg
    ns input only = Some (schema, out) →
  schema !! "load_data"
  = if truthy input then None else Some (load_data_task project).
Proof.
  intros Hrun. pose proof Hrun as Hinv.
  apply nlu_compile_Some in Hinv as (l & g & Hl & Hloop & ->).
  destruct (truthy input) eqn:Hin.
  - apply not_elem_of_dom. intros Hdom.
    apply (nlu_compile_keys _ _ _ _ _ _ _ _ _ Hl Hrun) in Hdom
      as [[Hf _]|Hemit]; [congruence|].
    apply emitted_not_fixed in Hemit. set_solver.
  - assert ((nlu_initial project input).1 ⊆ g) as Hsub.
    { eapply nlu_loop_mono; [by rewrite <- surjective_pairing|].
      intros k. apply nlu_initial_fresh. }
    rewrite nlu_initial_load_data in Hsub by done.
    change (Some (load_data_task project))
      with (Some (fill_task (load_data_task project))).
    apply fill_defaults_lookup_Some.
    eapply lookup_weaken; [|exact Hsub]. apply lookup_singleton_eq.
Qed.

Lemma X10_witness :
  match nlu_config_to_train_graph_schema registered_components
          "examples/moodbot" default_config
          (Some "core") (Some "convert_stories_for_nlu") true with
  | Some (schema, _) => schema !! "load_data" = None
  | None => False
  end.
Proof.
  returns (nlu_config_to_train_graph_schema registered_components
             "examples/moodbot" default_config
             (Some "core") (Some "convert_stories_for_nlu") true) r.
  destruct r as [schema out].
  exact (X10_load_data registered_components "examples/moodbot"
           default_config (Some "core") (Some "convert_stories_for_nlu")
           true schema out ltac:(eassumption)).
Defined.

(** X11.  The outputs of the merged compile are the names the Core compile
    returns, one task name per policy in the order of the policies and
    pairwise distinct, followed by the output the NLU compile returns; each
    of them is a task of the merged schema.  The NLU output can repeat a
    policy name; all outputs are pairwise distinct when no policy is named
    [train_<c>] or [process_<c>] for the pipeline entry [c] at its own
    index. *)
Theorem X11_merge_outputs get_component_class policy_from_module_path
    project cfg schema outs policies :
  old_config_to_graph_schema get_component_class policy_from_module_path
    project cfg = Some (schema, outs) →
  cfg_policies cfg = Some policies →
  ∃ nlu_schema nlu_out core_schema,
    nlu_config_to_train_graph_schema get_component_class project cfg
      None None false = Some (nlu_schema, nlu_out) ∧
    core_config_to_train_graph_schema get_component_class
      policy_from_module_path project cfg
      = Some (core_schema, policy_task_names 0 policies) ∧
    outs = policy_task_names 0 policies ++ [nlu_out] ∧
    length outs = S (length policies) ∧
    NoDup (policy_task_names 0 policies) ∧
    Forall (λ k, k ∈ dom schema) outs ∧
    (∀ pipeline, cfg_pipeline cfg = Some pipeline →
                 names_apart None policies pipeline → NoDup outs).
Proof.
  intros Hrun Hps. unfold old_config_to_graph_schema in Hrun.
  destruct (nlu_config_to_train_graph_schema _ _ _ _ _ _)
    as [[nlu_schema nlu_out]|] eqn:Hnlu;
    cbn [mbind option_bind] in Hrun; [|done].
  destruct (core_config_to_train_graph_schema _ _ _ _)
    as [[core_schema core_outs]|] eqn:Hcore;
    cbn [mbind option_bind] in Hrun; [|done].
  injection Hrun as <- <-.
  pose proof Hcore as Hinv.
  apply core_compile_Some in Hinv as (ps & G & e2e & Hps' & Hloop & _).
  assert (ps = policies) as -> by congruence.
  pose proof (core_loop_names _ _ _ _ _ _ _ _ _ Hloop) as Hnames.
  simpl in Hnames. subst core_outs.
  pose proof (proj2 (nlu_compile_closed _ _ _ _ None _ _ _ eq_refl Hnlu))
    as Hout.
  exists nlu_schema, nlu_out, core_schema. split_and!.
  - done.
  - done.
  - done.
  - rewrite length_app, (core_loop_length _ _ _ _ _ Hloop). simpl. lia.
  - apply policy_task_names_NoDup.
  - apply Forall_app. split.
    + apply list.Forall_forall. intros k Hk. rewrite update_dom.
      apply elem_of_union_l.
      destruct (core_loop_names_emitted _ _ _ _ _ Hloop k Hk)
        as (cls & rest & Hemit).
      by eapply core_schema_policy_dom.
    + repeat constructor. rewrite update_dom. by apply elem_of_union_r.
  - intros pipeline Hl Hap. apply list.NoDup_app. split_and!.
    + apply policy_task_names_NoDup.
    + intros k Hk Hk'. apply list_elem_of_singleton in Hk' as ->.
      apply policy_task_names_elem in Hk as (j & e & p & Hj & He & ->).
      pose proof (proj1 (nlu_compile_keys _ _ _ _ _ _ _ _ _ Hl Hnlu _) Hout)
        as [[_ Hfixed]|Hemit].
      * pose proof (policy_key_fixed p (0 + j)) as Hfix.
        rewrite Hfixed in Hfix. set_solver.
      * by apply (policy_key_not_emitted _ _ _ _ _ _ _ _ Hap Hj He) in Hemit.
    + apply NoDup_singleton.
Qed.

Lemma X11_witness :
  match old_config_to_graph_schema registered_components sample_policies
          "examples/moodbot" default_config with
  | Some (schema, outs) =>
      length outs = 4 ∧ Forall (λ k, k ∈ dom schema) outs ∧ NoDup outs
  | None => False
  end.
Proof.
  returns (old_config_to_graph_schema registered_components sample_policies
             "examples/moodbot" default_config) r.
  destruct r as [schema outs].
  destruct (X11_merge_outputs registered_components sample_policies
              "examples/moodbot" default_config schema outs _
              ltac:(eassumption) eq_refl)
    as (nlu_schema & nlu_out & core_schema & _ & _ & _ & Hlen & _ & Hall
        & Hdistinct).
  split_and!; [done|done|].
  apply (Hdistinct _ eq_refl). clear. names_apart_by_cases.
Defined.

(** A policy named like the process task of the featurizer at its index:
    the merged compile returns the same task name twice. *)
Example outputs_can_repeat :
  output_of (old_config_to_graph_schema registered_components
               sample_policies "examples/moodbot" output_clash_config)
  = Some ["process_RegexFeaturizer_0"; "process_RegexFeaturizer_0"].
Proof. evaluated. Qed.

(** ** Edge cases of the builders and of the arguments *)

(** X12.  The fragment of [train_and_process_component] always has two
    tasks, and its output is the process task.  The process task reads the
    fragment's own train task as [resource_name], unless the caller names
    the data parameter [resource_name] itself: the later key of the dict
    literal wins, and every [needs] value of the fragment is then the input
    task, so that a [needs] entry refers to the train task only if the input
    task itself bears the train task's name.  Either way every [needs]
    value is a task of the fragment or the input task. *)
Theorem X12_resource_name_parameter cls input cfg name tf pf param :
  let r := train_and_process_component cls input cfg name tf pf param in
  let n := name_or_class name cls in
  dom r.1 = {["train_" +:+ n; "process_" +:+ n]} ∧
  size r.1 = 2 ∧
  r.2 = "process_" +:+ n ∧
  closed_upto {[input]} r.1 ∧
  (∃ t, r.1 !! r.2 = Some t ∧
        needs t !! "resource_name"
        = Some (if decide (param = "resource_name") then input
                else "train_" +:+ n)) ∧
  (param = "resource_name" →
   (∀ k t p v, r.1 !! k = Some t → needs t !! p = Some v → v = input) ∧
   ((∃ k t p, r.1 !! k = Some t ∧ needs t !! p = Some ("train_" +:+ n)) ↔
    input = "train_" +:+ n)).
Proof.
  intros r n. subst r. unfold train_and_process_component. fold n.
  cbn [fst snd].
  assert ("process_" +:+ n ≠ "train_" +:+ n) as Hne
    by (intros H; symmetry in H; by apply train_ne_process in H).
  assert (param = "resource_name" →
          ∀ k t p v,
            (<["process_" +:+ n :=
                 {| uses := cls; fn := pf; config := config_or_empty cfg;
                    needs := <[param := input]>
                               {["resource_name" := "train_" +:+ n]};
                    persist := None |}]>
             {["train_" +:+ n :=
                 {| uses := cls; fn := tf; config := config_or_empty cfg;
                    needs := {[param := input]}; persist := None |}]}
               : Schema) !! k = Some t →
            needs t !! p = Some v → v = input) as Hall.
  { intros -> k t p v Hk Hp.
    apply lookup_insert_Some in Hk as [[<- <-]|[_ Hk]]; simpl in Hp.
    + apply lookup_insert_Some in Hp as [[_ <-]|[Hp' Hp]]; [done|].
      by apply lookup_singleton_Some in Hp as [? _].
    + apply lookup_singleton_Some in Hk as [_ <-]. simpl in Hp.
      by apply lookup_singleton_Some in Hp as [_ <-]. }
  split_and!.
  - rewrite dom_insert_L, dom_singleton_L. set_solver.
  - rewrite map_size_insert_None by (by apply lookup_singleton_ne).
    by rewrite map_size_singleton.
  - done.
  - intros k t p v Hk Hp.
    apply lookup_insert_Some in Hk as [[<- <-]|[_ Hk]]; simpl in Hp.
    + apply lookup_insert_Some in Hp as [[_ <-]|[_ Hp]]; [set_solver|].
      apply lookup_singleton_Some in Hp as [_ <-]. left.
      rewrite dom_insert_L, dom_singleton_L. set_solver.
    + apply lookup_singleton_Some in Hk as [_ <-]. simpl in Hp.
      apply lookup_singleton_Some in Hp as [_ <-]. set_solver.
  - eexists. split; [apply lookup_insert_eq|]. simpl.
    case_decide as Hparam.
    + subst param. apply lookup_insert_eq.
    + rewrite lookup_insert_ne by done. apply lookup_singleton_eq.
  - intros Hparam. split; [by apply Hall|]. split.
    + intros (k & t & p & Hk & Hp). symmetry. by eapply Hall.
    + intros Hin. subst param.
      eexists ("process_" +:+ n), _, "resource_name".
      split; [apply lookup_insert_eq|]. simpl.
      rewrite lookup_insert_eq. by rewrite Hin.
Qed.

Lemma X12_witness :
  ∃ t,
    (train_and_process_component (Component RegexFeaturizer)
       "process_WhitespaceTokenizer_0" None (Some "RegexFeaturizer_1")
       "train" "process_training_data" "resource_name").1
      !! "process_RegexFeaturizer_1" = Some t ∧
    needs t !! "resource_name" = Some "process_WhitespaceTokenizer_0".
Proof.
  pose proof (X12_resource_name_parameter (Component RegexFeaturizer)
                "process_WhitespaceTokenizer_0" None
                (Some "RegexFeaturizer_1") "train" "process_training_data"
                "resource_name") as H.
  cbv zeta in H. destruct H as (_ & _ & _ & _ & (t & Ht & Hres) & Honly).
  exists t. split; [exact Ht|].
  rewrite Hres.
  exact (f_equal Some
           (proj1 (Honly eq_refl) _ t "resource_name" _ Ht Hres)).
Defined.

(** The input task bears the name of the fragment's train task and the data
    parameter is [resource_name]: both tasks read the train task. *)
Example input_named_like_train_task :
  let r := train_and_process_component (Component RegexFeaturizer)
             "train_X" None (Some "X") "train" "process_training_data"
             "resource_name" in
  needs_of (Some r) "train_X" "resource_name" = Some "train_X" ∧
  needs_of (Some r) "process_X" "resource_name" = Some "train_X".
Proof. split; evaluated. Qed.



(** ** The merged compile and shared entries in the store *)

(** X14.  The merged compile over the store: it leaves every entry of the
    caller's store as it was, so the config denotes the same mapping after
    the run and a second run from the same config returns the same result;
    and when no entry object occurs twice in a list, it returns what the
    merged compile by value returns on the mapping the config denotes. *)
Theorem X14_merge_in_store get_component_class policy_from_module_path
    project config h :
  let old := Heap.old_config_to_graph_schema get_component_class
               policy_from_module_path project config in
  h ⊆ (old h).2 ∧
  (Heap.well_formed h config →
   deref (old h).2 config = deref h config ∧
   (old (old h).2).1 = (old h).1) ∧
  (Heap.well_formed h config → Heap.unshared config →
   (old h).1
   = old_config_to_graph_schema get_component_class policy_from_module_path
       project (deref h config)).
Proof.
  intros old. split_and!.
  - apply old_frame.
  - intros Hwf. split.
    + apply deref_weaken; [apply old_frame|done].
    + apply (rerun old
               (old_config_to_graph_schema get_component_class
                  policy_from_module_path project) config);
        [|intros; apply old_frame|done].
      intros h' Hwf'. by apply old_refines.
  - intros Hwf Hun. unfold old. by rewrite old_refines, observed_unshared.
Qed.

Lemma X14_witness :
  let old := Heap.old_config_to_graph_schema registered_components
               sample_policies "examples/moodbot" sample_heap_config in
  succeeds (old sample_heap).1 = true ∧
  (old (old sample_heap).2).1 = (old sample_heap).1 ∧
  deref (old sample_heap).2 sample_heap_config
  = deref sample_heap sample_heap_config.
Proof.
  intros old. split; [evaluated|].
  assert (Heap.well_formed sample_heap sample_heap_config) as Hwf
    by entries_in_store.
  destruct (proj1 (proj2 (X14_merge_in_store registered_components
                            sample_policies "examples/moodbot"
                            sample_heap_config sample_heap)) Hwf)
    as [Hderef Hrerun].
  by split.
Defined.

(** X15.  An entry object that occurs twice in a list makes the compile
    raise: the copy of the config keeps the sharing, the first visit pops
    the name off the shared copy, and the second visit finds none.  A
    shared pipeline entry makes the NLU compile and the merged compile
    raise; a shared policy entry makes the Core compile and the merged
    compile raise. *)
Theorem X15_shared_entries_raise get_component_class policy_from_module_path
    project config h :
  Heap.well_formed h config →
  (∀ ls, Heap.cfg_pipeline config = Some ls → ¬ NoDup ls →
     (∀ ns input only,
        (Heap.nlu_config_to_train_graph_schema get_component_class project
           config ns input only h).1 = None) ∧
     (Heap.old_config_to_graph_schema get_component_class
        policy_from_module_path project config h).1 = None) ∧
  (∀ ls, Heap.cfg_policies config = Some ls → ¬ NoDup ls →
     (Heap.core_config_to_train_graph_schema get_component_class
        policy_from_module_path project config h).1 = None ∧
     (Heap.old_config_to_graph_schema get_component_class
        policy_from_module_path project config h).1 = None).
Proof.
  intros Hwf. split; intros ls Hls Hdup.
  - assert (∀ ns input only,
              nlu_config_to_train_graph_schema get_component_class project
                (observed h config) ns input only = None) as Hnlu.
    { intros ns input only.
      unfold nlu_config_to_train_graph_schema, observed. simpl.
      rewrite Hls. simpl. by case_decide. }
    split.
    + intros ns input only. by rewrite nlu_refines.
    + rewrite old_refines by done. unfold old_config_to_graph_schema.
      by rewrite Hnlu.
  - assert (core_config_to_train_graph_schema get_component_class
              policy_from_module_path project (observed h config) = None)
      as Hcore.
    { unfold core_config_to_train_graph_schema, observed at 1. simpl.
      rewrite Hls. simpl. by case_decide. }
    split.
    + by rewrite core_refines.
    + rewrite old_refines by done. unfold old_config_to_graph_schema.
      rewrite Hcore.
      by destruct (nlu_config_to_train_graph_schema _ _ _ _ _ _)
        as [[g out]|].
Qed.

Lemma X15_witness :
  (Heap.old_config_to_graph_schema registered_components sample_policies
     "examples/moodbot" shared_heap_config sample_heap).1 = None.
Proof.
  assert (Heap.well_formed sample_heap shared_heap_config) as Hwf
    by entries_in_store.
  refine (proj2 (proj1 (X15_shared_entries_raise registered_components
                          sample_policies "examples/moodbot"
                          shared_heap_config sample_heap Hwf)
                   [1; 1]%positive eq_refl _)).
  intros Hdup. apply NoDup_cons_1_1 in Hdup. apply Hdup, list_elem_of_here.
Defined.

(** ** Namespaces and the Core schema without the end-to-end branch *)

(** X16.  The namespace keeps the two NLU compiles of one config apart: the
    schema compiled without a namespace (as the merge does) and the schema
    compiled under [core] with an input task (as the end-to-end branch does)
    have no task name in common, whatever the components are named. *)
Theorem X16_namespace_keeps_apart get_component_class project cfg
    input only input' only' schema out schema' out' :
  truthy input' = true →
  nlu_config_to_train_graph_schema get_component_class project cfg
    None input only = Some (schema, out) →
  nlu_config_to_train_graph_schema get_component_class project cfg
    (Some "core") input' only' = Some (schema', out') →
  dom schema ## dom schema'.
Proof.
  intros Hin Hrun Hrun'.
  pose proof Hrun as Hinv.
  apply nlu_compile_Some in Hinv as (l & g & Hl & _ & _).
  apply elem_of_disjoint. intros k Hk Hk'.
  apply (nlu_compile_keys _ _ _ _ _ _ _ _ _ Hl Hrun') in Hk'
    as [[Hf _]|Hk']; [congruence|].
  apply (nlu_compile_keys _ _ _ _ _ _ _ _ _ Hl Hrun) in Hk
    as [[_ ->]|Hk].
  { apply emitted_not_fixed in Hk'. set_solver. }
  apply nlu_emits_name in Hk as (j & e & c & Hj & He & Hk).
  apply nlu_emits_name in Hk' as (j' & e' & c' & Hj' & He' & Hk').
  assert (unique_name (Some "core") c' (0 + j') = unique_name None c (0 + j))
    as Heq.
  { destruct Hk as [-> | ->], Hk' as [Hk'|Hk'].
    - by apply train_inj in Hk'.
    - by apply train_ne_process in Hk'.
    - symmetry in Hk'. by apply train_ne_process in Hk'.
    - by apply process_inj in Hk'. }
  apply unique_name_core_ne in Heq as [-> Heq]. simpl in Heq. subst j'.
  assert (e' = e) as -> by congruence.
  assert ("core_" +:+ c' = c') as Hc by congruence.
  symmetry in Hc. by apply core_prefix_ne in Hc.
Qed.

Lemma X16_witness :
  match nlu_config_to_train_graph_schema registered_components
          "examples/moodbot" default_config None None false,
        nlu_config_to_train_graph_schema registered_components
          "examples/moodbot" default_config
          (Some "core") (Some "convert_stories_for_nlu") true with
  | Some (schema, _), Some (schema', _) => dom schema ## dom schema'
  | _, _ => False
  end.
Proof.
  returns (nlu_config_to_train_graph_schema registered_components
             "examples/moodbot" default_config None None false) r.
  returns (nlu_config_to_train_graph_schema registered_components
             "examples/moodbot" default_config
             (Some "core") (Some "convert_stories_for_nlu") true) r'.
  destruct r as [schema out], r' as [schema' out'].
  exact (X16_namespace_keeps_apart registered_components "examples/moodbot"
           default_config None false (Some "convert_stories_for_nlu") true
           schema out schema' out' eq_refl
           ltac:(eassumption) ltac:(eassumption)).
Defined.

(** X17.  When no policy trains with [e2e_features], the Core schema has
    the three root tasks and one task per policy and nothing else, and the
    compile does not depend on the pipeline: it returns the same for any
    [pipeline], present or absent. *)
Theorem X17_core_without_e2e get_component_class policy_from_module_path
    project cfg schema names policies :
  core_config_to_train_graph_schema get_component_class
    policy_from_module_path project cfg = Some (schema, names) →
  cfg_policies cfg = Some policies →
  existsb (entry_declares_e2e policy_from_module_path) policies = false →
  size schema = 3 + length policies ∧
  ∀ nlu_pipeline,
    core_config_to_train_graph_schema get_component_class
      policy_from_module_path project
      {| cfg_pipeline := nlu_pipeline; cfg_policies := Some policies |}
    = Some (schema, names).
Proof.
  intros Hrun Hps He2e.
  apply core_compile_Some in Hrun as (ps & G & e2e & Hps' & Hloop & Hrest).
  assert (ps = policies) as -> by congruence.
  pose proof (core_loop_flag _ _ _ _ _ _ _ _ _ Hloop) as Hflag.
  rewrite He2e in Hflag. simpl in Hflag. subst e2e schema. split.
  - unfold fill_defaults. rewrite map_size_fmap.
    rewrite (core_loop_size _ _ _ _ _ _ _ _ _ Hloop).
    + rewrite <- (size_dom (core_base project)), core_base_dom.
      by rewrite !size_union, !size_singleton by set_solver.
    + intros k cls rest Hk Hemit.
      apply core_emits_index in Hemit as (p & j & ->).
      pose proof (policy_key_fixed p (0 + j)) as Hfix.
      rewrite core_base_dom in Hk. set_solver.
  - intros nlu_pipeline. apply core_compile_Some.
    by exists policies, G, false.
Qed.

Lemma X17_witness :
  match core_config_to_train_graph_schema registered_components
          sample_policies "examples/moodbot" core_only_config with
  | Some (schema, _) => size schema = 5
  | None => False
  end.
Proof.
  returns (core_config_to_train_graph_schema registered_components
             sample_policies "examples/moodbot" core_only_config) r.
  destruct r as [schema names].
  refine (proj1 (X17_core_without_e2e registered_components sample_policies
                   "examples/moodbot" core_only_config schema names _
                   ltac:(eassumption) eq_refl _)).
  evaluated.
Defined.
